(** * caab-api-certificacao: tickets, orders, cache and write lock

    A shallow embedding of the service layer of the REST facade over the
    "Primeira Certificacao" spreadsheet:

    - [utils/errors.ts]            -> [Error], [statusCode]
    - [utils/writeLock.ts]         -> [withWriteLock] (one task, run to
                                      completion) and [WriteLock] (the
                                      promise chain as a transition system)
    - [services/ticketsService.ts] -> module [TicketsService]
    - [services/ordersService.ts]  -> module [OrdersService]
    - [middleware/rateLimiter.ts]  -> module [RateLimiter]

    The spreadsheet, the wall clock, [crypto.randomUUID] and the date
    formatter are the environment; they live in the [World] record.  The
    credentials and the client of [config/sheets.ts] are taken as
    configured; so is [String.prototype.toLowerCase], the Unicode case
    mapping the list filters of [getAllOrders] go through.  The routes
    and the schemas are not part of the development. *)

From Stdlib Require Import ZArith NArith Lia Sorted.
From stdpp Require Import base list strings gmap.

Local Open Scope Z_scope.

(** ** JavaScript strings *)

Module JS.

(** A JS string is a sequence of UTF-16 code units. *)
Abbreviation jsstring := (list N).

(** ASCII / Latin-1 literal. *)
Definition lit (s : string) : jsstring :=
  map Ascii.N_of_ascii (String.list_ascii_of_string s).
#[global] Arguments lit : simpl never.

(** ECMAScript WhiteSpace and LineTerminator code points, the ones
    [String.prototype.trim] strips. *)
Definition whitespace : list N :=
  [9; 10; 11; 12; 13; 32; 160; 5760;
   8192; 8193; 8194; 8195; 8196; 8197; 8198; 8199; 8200; 8201; 8202;
   8232; 8233; 8239; 8287; 12288; 65279]%N.

Definition is_ws (c : N) : bool := bool_decide (c ∈ whitespace).

Fixpoint trimStart (s : jsstring) : jsstring :=
  match s with
  | c :: s' => if is_ws c then trimStart s' else s
  | [] => []
  end.

Definition trimEnd (s : jsstring) : jsstring :=
  reverse (trimStart (reverse s)).

Definition trim (s : jsstring) : jsstring := trimEnd (trimStart s).
#[global] Arguments trim s : simpl never.

(** Truthiness of a string: non-empty. *)
Definition truthy (s : jsstring) : bool :=
  match s with [] => false | _ :: _ => true end.

(** Truthiness of a possibly [undefined] string. *)
Definition truthy_opt (o : option jsstring) : bool :=
  match o with Some s => truthy s | None => false end.

(** [o || ""] for a possibly [undefined] string [o]. *)
Definition or_empty (o : option jsstring) : jsstring := default [] o.

(** [!!o] for a possibly [undefined] object [o]. *)
Definition defined {A} (o : option A) : bool :=
  match o with Some _ => true | None => false end.

(** [a ?? b] for a possibly [undefined] string [a]. *)
Definition nullish (a : option jsstring) (b : jsstring) : jsstring :=
  match a with Some s => s | None => b end.

Definition eqb (a b : jsstring) : bool := bool_decide (a = b).

(** [Array.prototype.findIndex] with the (element, index) callback;
    [None] stands for the result [-1]. *)
Fixpoint findIndex_from {A} (p : A -> nat -> bool) (i : nat) (l : list A)
  : option nat :=
  match l with
  | [] => None
  | x :: l' => if p x i then Some i else findIndex_from p (S i) l'
  end.

Definition findIndex {A} (p : A -> nat -> bool) (l : list A) : option nat :=
  findIndex_from p 0 l.
#[global] Arguments findIndex {A} p l : simpl never.

(** [Array.prototype.find]. *)
Fixpoint find {A} (p : A -> bool) (l : list A) : option A :=
  match l with
  | [] => None
  | x :: l' => if p x then Some x else find p l'
  end.

(** [Array.prototype.some]. *)
Definition some {A} (p : A -> bool) (l : list A) : bool :=
  match find p l with Some _ => true | None => false end.
#[global] Arguments some {A} p l : simpl never.

(** The position an integer argument of [Array.prototype.slice] stands
    for in an array of [len] elements: a negative one counts from the
    end, and both ends are clamped. *)
Definition slice_bound (len : nat) (i : Z) : nat :=
  if i <? 0 then Z.to_nat (Z.max (Z.of_nat len + i) 0)
  else Z.to_nat (Z.min i (Z.of_nat len)).

(** [Array.prototype.slice(start, end)] with integer arguments. *)
Definition slice {A} (start final : Z) (l : list A) : list A :=
  let k := slice_bound (length l) start in
  let f := slice_bound (length l) final in
  take (f - k) (drop k l).

End JS.

Import JS.

(** ** utils/errors.ts *)

Inductive Error : Type :=
| AppError (message : jsstring) (code : Z)
| NotFoundError (resource : jsstring)
| ConflictError (message : jsstring)
| ValidationError (message : jsstring)
| NoTicketsError
| StoreError                      (* rejection coming from the googleapis client *)
| PlainError (message : jsstring) (* [new Error(...)], not an [AppError] *).

#[global] Instance Error_eq_dec : EqDecision Error.
Proof. solve_decision. Defined.

(** The [statusCode] the constructors of the [AppError] hierarchy pass on. *)
Definition statusCode (e : Error) : option Z :=
  match e with
  | AppError _ c => Some c
  | NotFoundError _ => Some 404
  | ConflictError _ => Some 409
  | ValidationError _ => Some 400
  | NoTicketsError => Some 422
  | StoreError | PlainError _ => None
  end.

Definition message (e : Error) : option jsstring :=
  match e with
  | AppError m _ | ConflictError m | ValidationError m | PlainError m => Some m
  | NotFoundError r => Some (r ++ lit " not found")
  | NoTicketsError => Some (lit "No available tickets")
  | StoreError => None
  end.

(** [err instanceof NoTicketsError] *)
Definition instanceof_NoTicketsError (e : Error) : bool :=
  match e with NoTicketsError => true | _ => false end.

(** ** The spreadsheet

    A sheet is the grid [values.get] returns for it: rows of cells, the
    header first.  The store leaves out trailing empty cells and the
    services never tell an empty cell from a missing one (they read
    [row[k] || ""] and [!row[k]]), nor read a column outside their
    range, so the grid is kept as it was written. *)

Abbreviation Row := (list jsstring).
Abbreviation Sheet := (list Row).

(** [row[k]] *)
Definition cell (row : Row) (k : nat) : option jsstring := row !! k.

Inductive SheetName : Type := TicketsSheet | PedidosSheet.

#[global] Instance SheetName_eq_dec : EqDecision SheetName.
Proof. solve_decision. Defined.

(** [l] extended on the right with [d] up to length [n]. *)
Definition pad_to {A} (n : nat) (d : A) (l : list A) : list A :=
  l ++ replicate (n - length l) d.

(** Overwriting the cells [col, col + length vals) of a row; a shorter row
    is first extended with empty cells. *)
Definition write_cells (col : nat) (vals : Row) (row : Row) : Row :=
  take col (pad_to col [] row) ++ vals ++ drop (col + length vals) row.

(** [values.update] on the one-row range that starts at column [col] of
    the row with 0-based position [r] (A1 row number [r + 1]); a grid that
    is too short is extended with empty rows. *)
Definition update_range (r col : nat) (vals : Row) (sh : Sheet) : Sheet :=
  alter (write_cells col vals) r (pad_to (S r) [] sh).

(** [values.append]: the row goes after the last row of the sheet. *)
Definition append_row (row : Row) (sh : Sheet) : Sheet := sh ++ [row].

(** [deleteDimension] of the rows [r, r + 1): the later rows shift up. *)
Definition delete_row (r : nat) (sh : Sheet) : Sheet := delete r sh.

(** What the store answers to one call: whether the call is rejected, and
    after how many milliseconds it settles. *)
Record Reply : Type := mkReply { fails : bool; took : Z }.

(** The calls the services make on the googleapis client. *)
Inductive StoreCall : Type :=
| ValuesGet (s : SheetName)
| ValuesAppend (s : SheetName) (row : Row)
| ValuesUpdate (s : SheetName) (r col : nat) (vals : Row)
| SpreadsheetsGet
| DeleteDimension (s : SheetName) (sheetId : Z) (r : nat).

(** ** Entities *)

Module Tickets.
Record Ticket : Type := mk { ticket : jsstring; status : jsstring }.
End Tickets.
Abbreviation Ticket := Tickets.Ticket.

Module Orders.
Record Order : Type := mk {
  uuid : jsstring;
  ticket : jsstring;
  numero_oab : jsstring;
  nome_completo : jsstring;
  subsecao : jsstring;
  data_solicitacao : jsstring;
  data_liberacao : jsstring;
  status : jsstring;
  anotacoes : jsstring
}.
End Orders.
Abbreviation Order := Orders.Order.

(** The module-level variables [cache], [cacheTime] and [cachedSheetId] of
    a service module. *)
Record ModuleState (A : Type) : Type := mkModuleState {
  cache : option (list A);
  cacheTime : Z;
  cachedSheetId : option Z
}.
Arguments mkModuleState {A} _ _ _.
Arguments cache {A} _.
Arguments cacheTime {A} _.
Arguments cachedSheetId {A} _.

(** ** The world the services run in *)

Record World : Type := mkWorld {
  tickets_sheet : Sheet;             (* sheet "tickets" *)
  pedidos_sheet : Sheet;             (* sheet "pedidos" *)
  sheet_ids : SheetName -> option Z; (* sheetId in the spreadsheet metadata *)
  tickets_mod : ModuleState Ticket;  (* variables of ticketsService.ts *)
  orders_mod : ModuleState Order;    (* variables of ordersService.ts *)
  clock : Z;                         (* Date.now() *)
  calls : list StoreCall;            (* store calls made so far, latest first *)
  reply_of : nat -> Reply;           (* the answer to the n-th store call *)
  uuids_drawn : nat;                 (* calls of crypto.randomUUID so far *)
  uuid_of : nat -> jsstring;         (* the n-th UUID drawn *)
  format_br : Z -> jsstring          (* Intl formatting used by nowBR *)
}.

Definition sheet (s : SheetName) (w : World) : Sheet :=
  match s with
  | TicketsSheet => tickets_sheet w
  | PedidosSheet => pedidos_sheet w
  end.

Definition set_sheet (s : SheetName) (sh : Sheet) (w : World) : World :=
  match s with
  | TicketsSheet =>
      mkWorld sh (pedidos_sheet w) (sheet_ids w) (tickets_mod w) (orders_mod w)
        (clock w) (calls w) (reply_of w) (uuids_drawn w) (uuid_of w) (format_br w)
  | PedidosSheet =>
      mkWorld (tickets_sheet w) sh (sheet_ids w) (tickets_mod w) (orders_mod w)
        (clock w) (calls w) (reply_of w) (uuids_drawn w) (uuid_of w) (format_br w)
  end.

Definition set_tickets_mod (m : ModuleState Ticket) (w : World) : World :=
  mkWorld (tickets_sheet w) (pedidos_sheet w) (sheet_ids w) m (orders_mod w)
    (clock w) (calls w) (reply_of w) (uuids_drawn w) (uuid_of w) (format_br w).

Definition set_orders_mod (m : ModuleState Order) (w : World) : World :=
  mkWorld (tickets_sheet w) (pedidos_sheet w) (sheet_ids w) (tickets_mod w) m
    (clock w) (calls w) (reply_of w) (uuids_drawn w) (uuid_of w) (format_br w).

(** The answer to the [i]-th of the store calls still to come. *)
Definition reply_at (w : World) (i : nat) : Reply :=
  reply_of w (i + length (calls w)).

Definition next_reply (w : World) : Reply := reply_at w 0.

(** One store call is made: it is logged and the clock advances by the
    time its reply took. *)
Definition after_call (c : StoreCall) (w : World) : World :=
  mkWorld (tickets_sheet w) (pedidos_sheet w) (sheet_ids w) (tickets_mod w)
    (orders_mod w) (clock w + took (next_reply w)) (c :: calls w) (reply_of w)
    (uuids_drawn w) (uuid_of w) (format_br w).

Definition draw_uuid (w : World) : World :=
  mkWorld (tickets_sheet w) (pedidos_sheet w) (sheet_ids w) (tickets_mod w)
    (orders_mod w) (clock w) (calls w) (reply_of w) (S (uuids_drawn w))
    (uuid_of w) (format_br w).

(** The next [n] store calls are all accepted. *)
Definition accepted (n : nat) (w : World) : Prop :=
  forall i, (i < n)%nat -> fails (reply_at w i) = false.

(** The time the next [n] store calls take together. *)
Fixpoint elapsed (n : nat) (w : World) : Z :=
  match n with
  | O => 0
  | S n' => elapsed n' w + took (reply_at w n')
  end.

(** ** Asynchronous computations run to completion

    An [async] function body executed with nothing else interleaved: a
    state transformer on the world that returns or throws. *)

Inductive Outcome (A : Type) : Type :=
| Returns (a : A)
| Throws (e : Error).
Arguments Returns {A} a.
Arguments Throws {A} e.

Definition Async (A : Type) : Type := World -> Outcome A * World.

Definition ret {A} (a : A) : Async A := fun w => (Returns a, w).

Definition throw {A} (e : Error) : Async A := fun w => (Throws e, w).

Definition bind {A B} (m : Async A) (k : A -> Async B) : Async B :=
  fun w => match m w with
           | (Returns a, w') => k a w'
           | (Throws e, w') => (Throws e, w')
           end.

(** [try { m } catch (err) { h err }] *)
Definition try_catch {A} (m : Async A) (h : Error -> Async A) : Async A :=
  fun w => match m w with
           | (Returns a, w') => (Returns a, w')
           | (Throws e, w') => h e w'
           end.

Definition get_world : Async World := fun w => (Returns w, w).

Definition modify (f : World -> World) : Async unit :=
  fun w => (Returns tt, f w).

Declare Scope async_scope.
Delimit Scope async_scope with async.
Notation "x <- m ;; k" := (bind m (fun x => k))
  (at level 62, m at next level, right associativity) : async_scope.
Notation "m ;;; k" := (bind m (fun _ => k))
  (at level 62, right associativity) : async_scope.
Local Open Scope async_scope.

(** [Date.now()] *)
Definition Date_now : Async Z := fun w => (Returns (clock w), w).

(** A call on the googleapis client: rejected or accepted as its reply
    says; the effect [eff] on the spreadsheet happens only when the call
    is accepted. *)
Definition store_call (c : StoreCall) (eff : World -> World) : Async unit :=
  fun w =>
    let r := next_reply w in
    let w' := after_call c w in
    if fails r then (Throws StoreError, w') else (Returns tt, eff w').

(** [sheets.spreadsheets.values.get({range})]; [res.data.values || []]. *)
Definition values_get (s : SheetName) : Async Sheet :=
  store_call (ValuesGet s) id ;;; w <- get_world ;; ret (sheet s w).

(** [sheets.spreadsheets.values.append] of one row. *)
Definition values_append (s : SheetName) (row : Row) : Async unit :=
  store_call (ValuesAppend s row)
    (fun w => set_sheet s (append_row row (sheet s w)) w).

(** [sheets.spreadsheets.values.update] of the cells of row [r] (0-based)
    from column [col] on. *)
Definition values_update (s : SheetName) (r col : nat) (vals : Row)
  : Async unit :=
  store_call (ValuesUpdate s r col vals)
    (fun w => set_sheet s (update_range r col vals (sheet s w)) w).

(** [sheets.spreadsheets.get({fields: "sheets.properties"})] followed by
    the lookup of the sheet title. *)
Definition spreadsheets_get (s : SheetName) : Async (option Z) :=
  store_call SpreadsheetsGet id ;;; w <- get_world ;; ret (sheet_ids w s).

(** [sheets.spreadsheets.batchUpdate] with one [deleteDimension]. *)
Definition batch_delete_row (s : SheetName) (sheetId : Z) (r : nat)
  : Async unit :=
  store_call (DeleteDimension s sheetId r)
    (fun w => set_sheet s (delete_row r (sheet s w)) w).

(** ** utils/writeLock.ts, one task at a time

    [withWriteLock fn] when the chain is idle: the callback starts at
    once, arms the 30 s timer and awaits [fn()].  The task is never
    aborted; if the timer comes due before the task settles, the caller's
    promise has already been rejected with the 503 error and the later
    [resolve]/[reject] has no effect. *)

Definition LOCK_TIMEOUT_MS : Z := 30000.
#[global] Arguments LOCK_TIMEOUT_MS : simpl never.

Definition timeout_error : Error :=
  AppError (lit "Write operation timed out") 503.

Definition withWriteLock {A} (fn : Async A) : Async A :=
  fun w =>
    let deadline := clock w + LOCK_TIMEOUT_MS in
    match fn w with
    | (r, w') =>
        if deadline <=? clock w' then (Throws timeout_error, w') else (r, w')
    end.

Definition CACHE_TTL : Z := 5 * 60 * 1000.
#[global] Arguments CACHE_TTL : simpl never.

(** [rows[i]] for an index [i] that [findIndex] returned. *)
Definition row_at (rows : Sheet) (i : nat) : Row := default [] (rows !! i).

(** ** services/ticketsService.ts *)

Module TicketsService.
Import Tickets.

Definition SHEET_NAME : SheetName := TicketsSheet.

(** The marker "Atribuido", its i with the acute accent (U+00ED). *)
Definition ATRIBUIDO : jsstring := lit "Atribu" ++ [237%N] ++ lit "do".
#[global] Arguments ATRIBUIDO : simpl never.

(** [cache = null; cacheTime = 0] *)
Definition cleared (w : World) : World :=
  set_tickets_mod (mkModuleState None 0 (cachedSheetId (tickets_mod w))) w.

Definition invalidateCache : Async unit := modify cleared.

Definition rowToTicket (row : Row) : Ticket :=
  mk (or_empty (cell row 0)) (or_empty (cell row 1)).

(** [rows.slice(1).filter((row) => row[0]).map(...)] *)
Definition decodeTickets (rows : Sheet) : list Ticket :=
  map rowToTicket
    (List.filter (fun row => truthy_opt (cell row 0)) (drop 1 rows)).

Definition readAllTickets : Async (list Ticket) :=
  now <- Date_now ;;
  w <- get_world ;;
  match cache (tickets_mod w) with
  | Some c =>
      if now - cacheTime (tickets_mod w) <? CACHE_TTL then ret c
      else
        rows <- values_get SHEET_NAME ;;
        let tickets := decodeTickets rows in
        t <- Date_now ;;
        modify (fun w => set_tickets_mod
          (mkModuleState (Some tickets) t (cachedSheetId (tickets_mod w))) w) ;;;
        ret tickets
  | None =>
      rows <- values_get SHEET_NAME ;;
      let tickets := decodeTickets rows in
      t <- Date_now ;;
      modify (fun w => set_tickets_mod
        (mkModuleState (Some tickets) t (cachedSheetId (tickets_mod w))) w) ;;;
      ret tickets
  end.

Definition sheet_not_found : Error :=
  PlainError
    (lit "Sheet " ++ [34%N] ++ lit "tickets" ++ [34%N] ++ lit " not found").

Definition getSheetId : Async Z :=
  w <- get_world ;;
  match cachedSheetId (tickets_mod w) with
  | Some id => ret id
  | None =>
      found <- spreadsheets_get SHEET_NAME ;;
      match found with
      | None => throw sheet_not_found
      | Some id =>
          modify (fun w => set_tickets_mod
            (mkModuleState (cache (tickets_mod w)) (cacheTime (tickets_mod w))
               (Some id)) w) ;;;
          ret id
      end
  end.

Definition getAllTickets : Async (list Ticket) := readAllTickets.

Definition getTicket (tk : jsstring) : Async (option Ticket) :=
  tickets <- readAllTickets ;;
  ret (find (fun t => eqb (ticket t) tk) tickets).

(** The task [createTicket] passes to [withWriteLock]. *)
Definition createTicket_task (tk : jsstring) : Async Ticket :=
  invalidateCache ;;;
  existing <- readAllTickets ;;
  if some (fun t => eqb (ticket t) tk) existing
  then throw (ConflictError (lit "Ticket already exists"))
  else
    values_append SHEET_NAME [tk; []] ;;;
    invalidateCache ;;;
    ret (mk tk []).

Definition createTicket (tk : jsstring) : Async Ticket :=
  withWriteLock (createTicket_task tk).

(** [(row, i) => i > 0 && row[0] === key] *)
Definition is_row_of (key : jsstring) (row : Row) (i : nat) : bool :=
  (0 <? i)%nat && bool_decide (cell row 0 = Some key).

(** The task [updateTicket] passes to [withWriteLock]. *)
Definition updateTicket_task (oldTicket newTicket : jsstring) : Async Ticket :=
  invalidateCache ;;;
  rows <- values_get SHEET_NAME ;;
  match findIndex (is_row_of oldTicket) rows with
  | None => throw (NotFoundError (lit "Ticket"))
  | Some rowIndex =>
      let currentStatus := or_empty (cell (row_at rows rowIndex) 1) in
      values_update SHEET_NAME rowIndex 0 [newTicket] ;;;
      invalidateCache ;;;
      ret (mk newTicket currentStatus)
  end.

Definition updateTicket (oldTicket newTicket : jsstring) : Async Ticket :=
  withWriteLock (updateTicket_task oldTicket newTicket).

(** The task [deleteTicket] passes to [withWriteLock]. *)
Definition deleteTicket_task (tk : jsstring) : Async unit :=
  invalidateCache ;;;
  rows <- values_get SHEET_NAME ;;
  match findIndex (is_row_of tk) rows with
  | None => throw (NotFoundError (lit "Ticket"))
  | Some rowIndex =>
      sheetId <- getSheetId ;;
      batch_delete_row SHEET_NAME sheetId rowIndex ;;;
      invalidateCache
  end.

Definition deleteTicket (tk : jsstring) : Async unit :=
  withWriteLock (deleteTicket_task tk).

(** [(row, i) => i > 0 && row[0] && !row[1]] *)
Definition is_available (row : Row) (i : nat) : bool :=
  (0 <? i)%nat && truthy_opt (cell row 0) && negb (truthy_opt (cell row 1)).

(** Finds the first available ticket and marks it; not locked by
    itself, the caller holds the orders lock. *)
Definition assignAvailableTicket : Async jsstring :=
  rows <- values_get SHEET_NAME ;;
  match findIndex is_available rows with
  | None => throw NoTicketsError
  | Some rowIndex =>
      let tk := or_empty (cell (row_at rows rowIndex) 0) in
      values_update SHEET_NAME rowIndex 1 [ATRIBUIDO] ;;;
      invalidateCache ;;;
      ret tk
  end.

End TicketsService.

(** ** services/ordersService.ts *)

Module OrdersService.
Import Orders.

Definition SHEET_NAME : SheetName := PedidosSheet.

Definition RECUSADO : jsstring := lit "Recusado".
Definition APROVADO : jsstring := lit "Aprovado".

(** The instant formatted in the America/Sao_Paulo zone. *)
Definition nowBR : Async jsstring :=
  fun w => (Returns (format_br w (clock w)), w).

(** [crypto.randomUUID()] *)
Definition randomUUID : Async jsstring :=
  fun w => (Returns (uuid_of w (uuids_drawn w)), draw_uuid w).

Record CreateOrderData : Type := mkCreate {
  c_numero_oab : option jsstring;
  c_nome_completo : jsstring;
  c_subsecao : option jsstring;
  c_anotacoes : option jsstring
}.

Record Conflict : Type := mkConflict {
  existing_ticket : jsstring;
  existing_date : jsstring
}.

Record CreateOrderResult : Type := mkResult {
  order : Order;
  conflict : option Conflict
}.

(** [Partial<Omit<Order, "uuid">>]: a field is present or not. *)
Record UpdateOrderData : Type := mkUpdate {
  u_ticket : option jsstring;
  u_numero_oab : option jsstring;
  u_nome_completo : option jsstring;
  u_subsecao : option jsstring;
  u_data_solicitacao : option jsstring;
  u_data_liberacao : option jsstring;
  u_status : option jsstring;
  u_anotacoes : option jsstring
}.

(** [cache = null; cacheTime = 0] *)
Definition cleared (w : World) : World :=
  set_orders_mod (mkModuleState None 0 (cachedSheetId (orders_mod w))) w.

Definition invalidateCache : Async unit := modify cleared.

Definition rowToOrder (row : Row) : Order :=
  mk (or_empty (cell row 0)) (or_empty (cell row 1)) (or_empty (cell row 2))
     (or_empty (cell row 3)) (or_empty (cell row 4)) (or_empty (cell row 5))
     (or_empty (cell row 6)) (or_empty (cell row 7)) (or_empty (cell row 8)).

Definition orderToRow (o : Order) : Row :=
  [uuid o; ticket o; numero_oab o; nome_completo o; subsecao o;
   data_solicitacao o; data_liberacao o; status o; anotacoes o].

(** [rows.slice(1).map((row) => rowToOrder(row))] *)
Definition decodeOrders (rows : Sheet) : list Order :=
  map rowToOrder (drop 1 rows).

Definition readAllOrders : Async (list Order) :=
  now <- Date_now ;;
  w <- get_world ;;
  match cache (orders_mod w) with
  | Some c =>
      if now - cacheTime (orders_mod w) <? CACHE_TTL then ret c
      else
        rows <- values_get SHEET_NAME ;;
        let orders := decodeOrders rows in
        t <- Date_now ;;
        modify (fun w => set_orders_mod
          (mkModuleState (Some orders) t (cachedSheetId (orders_mod w))) w) ;;;
        ret orders
  | None =>
      rows <- values_get SHEET_NAME ;;
      let orders := decodeOrders rows in
      t <- Date_now ;;
      modify (fun w => set_orders_mod
        (mkModuleState (Some orders) t (cachedSheetId (orders_mod w))) w) ;;;
      ret orders
  end.

Definition sheet_not_found : Error :=
  PlainError
    (lit "Sheet " ++ [34%N] ++ lit "pedidos" ++ [34%N] ++ lit " not found").

Definition getSheetId : Async Z :=
  w <- get_world ;;
  match cachedSheetId (orders_mod w) with
  | Some id => ret id
  | None =>
      found <- spreadsheets_get SHEET_NAME ;;
      match found with
      | None => throw sheet_not_found
      | Some id =>
          modify (fun w => set_orders_mod
            (mkModuleState (cache (orders_mod w)) (cacheTime (orders_mod w))
               (Some id)) w) ;;;
          ret id
      end
  end.

(** [OrderFilters]: every field may be left out; [limit] and [offset]
    are integers. *)
Record OrderFilters : Type := mkFilters {
  f_status : option jsstring;
  f_ticket : option jsstring;
  f_oab : option jsstring;
  f_limit : option Z;
  f_offset : option Z
}.

Record PaginatedOrders : Type := mkPage { orders : list Order; total : nat }.

Section ListFilters.

(** [String.prototype.toLowerCase] of the runtime. *)
Variable toLowerCase : jsstring -> jsstring.

(** [if (filters.k) orders = orders.filter(p filters.k)] *)
Definition filter_if (k : option jsstring) (p : jsstring -> Order -> bool)
    (os : list Order) : list Order :=
  match k with
  | Some s => if truthy s then List.filter (p s) os else os
  | None => os
  end.

Definition same_status (s : jsstring) (o : Order) : bool :=
  eqb (toLowerCase (status o)) (toLowerCase s).

Definition same_ticket (s : jsstring) (o : Order) : bool :=
  eqb (toLowerCase (ticket o)) (toLowerCase s).

Definition same_oab (s : jsstring) (o : Order) : bool :=
  eqb (toLowerCase (trim (numero_oab o))) (toLowerCase (trim s)).

(** The [if (filters) { ... }] block. *)
Definition applyFilters (filters : option OrderFilters) (os : list Order)
  : list Order :=
  match filters with
  | Some f =>
      filter_if (f_oab f) same_oab
        (filter_if (f_ticket f) same_ticket
           (filter_if (f_status f) same_status os))
  | None => os
  end.

(** [filters?.offset ?? 0] and [filters?.limit ?? 50] *)
Definition offset_of (filters : option OrderFilters) : Z :=
  default 0 (filters ≫= f_offset).

Definition limit_of (filters : option OrderFilters) : Z :=
  default 50 (filters ≫= f_limit).

Definition getAllOrders (filters : option OrderFilters) : Async PaginatedOrders :=
  all <- readAllOrders ;;
  let matching := applyFilters filters all in
  let total := length matching in
  let offset := offset_of filters in
  let limit := limit_of filters in
  ret (mkPage (slice offset (offset + limit) matching) total).

End ListFilters.

Definition getOrderById (id : jsstring) : Async (option Order) :=
  orders <- readAllOrders ;;
  ret (find (fun o => eqb (uuid o) id) orders).

(** [data.numero_oab?.trim() || ""] *)
Definition normalizeOab (data : CreateOrderData) : jsstring :=
  or_empty (option_map trim (c_numero_oab data)).

(** [normalizedOab ? existing.find(...) : undefined] *)
Definition findExisting (normalizedOab : jsstring) (existing : list Order)
  : option Order :=
  if truthy normalizedOab
  then find (fun o => eqb (trim (numero_oab o)) normalizedOab) existing
  else None.

(** The [try { ticket = await assignAvailableTicket() } catch ...] block. *)
Definition assignOrFail : Async jsstring :=
  try_catch TicketsService.assignAvailableTicket
    (fun err => if instanceof_NoTicketsError err then throw err
                else throw NoTicketsError).

(** The task [createOrder] passes to [withWriteLock]. *)
Definition createOrder_task (data : CreateOrderData)
  : Async CreateOrderResult :=
  invalidateCache ;;;
  existing <- readAllOrders ;;
  let normalizedOab := normalizeOab data in
  let existingOrder := findExisting normalizedOab existing in
  let duplicateOab := defined existingOrder in
  tk <- (if negb duplicateOab then assignOrFail else ret []) ;;
  id <- randomUUID ;;
  solicitacao <- nowBR ;;
  liberacao <- nowBR ;;
  let order :=
    mk id tk normalizedOab (c_nome_completo data) (or_empty (c_subsecao data))
       solicitacao liberacao (if duplicateOab then RECUSADO else APROVADO)
       (or_empty (c_anotacoes data)) in
  values_append SHEET_NAME (orderToRow order) ;;;
  invalidateCache ;;;
  match existingOrder with
  | Some e =>
      ret (mkResult order (Some (mkConflict (ticket e) (data_solicitacao e))))
  | None => ret (mkResult order None)
  end.

Definition createOrder (data : CreateOrderData) : Async CreateOrderResult :=
  withWriteLock (createOrder_task data).

(** The merge of the partial input over the existing order. *)
Definition merge (existing : Order) (data : UpdateOrderData) : Order :=
  mk (uuid existing)
     (nullish (u_ticket data) (ticket existing))
     (nullish (u_numero_oab data) (numero_oab existing))
     (nullish (u_nome_completo data) (nome_completo existing))
     (nullish (u_subsecao data) (subsecao existing))
     (nullish (u_data_solicitacao data) (data_solicitacao existing))
     (nullish (u_data_liberacao data) (data_liberacao existing))
     (nullish (u_status data) (status existing))
     (nullish (u_anotacoes data) (anotacoes existing)).

Definition is_row_of (key : jsstring) (row : Row) (i : nat) : bool :=
  (0 <? i)%nat && bool_decide (cell row 0 = Some key).

(** The task [updateOrder] passes to [withWriteLock]. *)
Definition updateOrder_task (id : jsstring) (data : UpdateOrderData)
  : Async Order :=
  invalidateCache ;;;
  rows <- values_get SHEET_NAME ;;
  match findIndex (is_row_of id) rows with
  | None => throw (NotFoundError (lit "Order"))
  | Some rowIndex =>
      let existing := rowToOrder (row_at rows rowIndex) in
      let updated := merge existing data in
      values_update SHEET_NAME rowIndex 0 (orderToRow updated) ;;;
      invalidateCache ;;;
      ret updated
  end.

Definition updateOrder (id : jsstring) (data : UpdateOrderData) : Async Order :=
  withWriteLock (updateOrder_task id data).

(** The task [deleteOrder] passes to [withWriteLock]. *)
Definition deleteOrder_task (id : jsstring) : Async unit :=
  invalidateCache ;;;
  rows <- values_get SHEET_NAME ;;
  match findIndex (is_row_of id) rows with
  | None => throw (NotFoundError (lit "Order"))
  | Some rowIndex =>
      sheetId <- getSheetId ;;
      batch_delete_row SHEET_NAME sheetId rowIndex ;;;
      invalidateCache
  end.

Definition deleteOrder (id : jsstring) : Async unit :=
  withWriteLock (deleteOrder_task id).

End OrdersService.

(** ** utils/writeLock.ts, the promise chain

    [createWriteLock] as a transition system.  Every [withWriteLock(fn)]
    call creates the promise it returns and hooks one callback on the
    current end of the chain with [chain = chain.then(...)]; the callback
    of link [k] may start once the promise of link [k - 1] is fulfilled,
    and the promise of link [k] is fulfilled when its [async] callback
    has run through [try]/[catch]/[finally].  What happens when is left
    to the event loop: the events below may fire in any order in which
    they are enabled. *)

Module WriteLock.
Section Chain.
Context {S V : Type}.

(** An [async] task over the shared state [S]: it runs atomically up
    to its next [await], and finally settles. *)
Inductive Task : Type :=
| Settle (r : Outcome V)
| Segment (act : S -> S) (next : S -> Task).

(** The promise handed back to the caller of [withWriteLock]. *)
Inductive Promise : Type :=
| Pending
| Resolved (v : V)
| Rejected (e : Error).

(** [resolve(v)] / [reject(e)]: only a pending promise changes. *)
Definition settle (r : Outcome V) (p : Promise) : Promise :=
  match p with
  | Pending => match r with Returns v => Resolved v | Throws e => Rejected e end
  | _ => p
  end.

Inductive Phase : Type :=
| Queued
| Running (rest : Task) (started : Z)
| Finished (r : Outcome V) (started settled : Z).

Record Job : Type := mkJob { fn : Task; phase : Phase; result : Promise }.

Record Lock : Type := mkLock {
  jobs : list Job;   (* the links of the chain, in the order of the calls *)
  store : S;         (* what the tasks read and write *)
  now : Z;           (* wall clock, milliseconds *)
  trace : list nat   (* the link of every segment executed so far *)
}.

Definition init (s : S) : Lock := mkLock [] s 0 [].

Inductive Event : Type :=
| Submit (task : Task)  (* a call of withWriteLock *)
| Start (k : nat)       (* the callback of link k begins: timer armed, fn() called *)
| Resume (k : nat)      (* the task of link k runs to its next await *)
| Complete (k : nat)    (* fn() settled: resolve/reject, clearTimeout, link fulfilled *)
| Timer (k : nat)       (* the 30 s timer of link k fires *)
| Tick (d : Z).         (* time passes *)

Definition is_finished (j : Job) : bool :=
  match phase j with Finished _ _ _ => true | _ => false end.

Definition is_running (j : Job) : bool :=
  match phase j with Running _ _ => true | _ => false end.

Definition is_queued (j : Job) : bool :=
  match phase j with Queued => true | _ => false end.

(** The promise link [k] was chained on is fulfilled: it is the
    initial [Promise.resolve()], or link [k - 1] has completed. *)
Definition chain_fulfilled (l : Lock) (k : nat) : bool :=
  match k with
  | O => true
  | Datatypes.S k' =>
      match jobs l !! k' with Some j => is_finished j | None => false end
  end.

Definition set_job (k : nat) (j : Job) (l : Lock) : Lock :=
  mkLock (<[k := j]> (jobs l)) (store l) (now l) (trace l).

Definition fire (ev : Event) (l : Lock) : option Lock :=
  match ev with
  | Submit task =>
      Some (mkLock (jobs l ++ [mkJob task Queued Pending]) (store l) (now l) (trace l))
  | Start k =>
      match jobs l !! k with
      | Some (mkJob f Queued p) =>
          if chain_fulfilled l k
          then Some (set_job k (mkJob f (Running f (now l)) p) l)
          else None
      | _ => None
      end
  | Resume k =>
      match jobs l !! k with
      | Some (mkJob f (Running (Segment act next) t0) p) =>
          Some (mkLock (<[k := mkJob f (Running (next (store l)) t0) p]> (jobs l))
                  (act (store l)) (now l) (trace l ++ [k]))
      | _ => None
      end
  | Complete k =>
      match jobs l !! k with
      | Some (mkJob f (Running (Settle r) t0) p) =>
          Some (set_job k (mkJob f (Finished r t0 (now l)) (settle r p)) l)
      | _ => None
      end
  | Timer k =>
      match jobs l !! k with
      | Some (mkJob f (Running rest t0) p) =>
          if t0 + LOCK_TIMEOUT_MS <=? now l
          then Some (set_job k (mkJob f (Running rest t0)
                                  (settle (Throws timeout_error) p)) l)
          else None
      | _ => None
      end
  | Tick d =>
      if 0 <=? d then Some (mkLock (jobs l) (store l) (now l + d) (trace l))
      else None
  end.

Fixpoint run (evs : list Event) (l : Lock) : option Lock :=
  match evs with
  | [] => Some l
  | ev :: evs' =>
      match fire ev l with Some l' => run evs' l' | None => None end
  end.

(** A task run to completion with nothing else in between. *)
Fixpoint run_task (t : Task) (s : S) : S * Outcome V :=
  match t with
  | Settle r => (s, r)
  | Segment act next => run_task (next s) (act s)
  end.

(** The tasks run one after the other, each to completion. *)
Fixpoint run_seq (ts : list Task) (s : S) : S * list (Outcome V) :=
  match ts with
  | [] => (s, [])
  | t :: ts' =>
      let (s1, r) := run_task t s in
      let (s2, rs) := run_seq ts' s1 in
      (s2, r :: rs)
  end.

(** What is left to do of a job, and the chain finished off in order
    from the current state. *)
Definition remaining (j : Job) : Task :=
  match phase j with
  | Queued => fn j
  | Running rest _ => rest
  | Finished r _ _ => Settle r
  end.

Definition finish_off (l : Lock) : S * list (Outcome V) :=
  run_seq (map remaining (jobs l)) (store l).

(** The number of events a task still needs, and a schedule that
    drains the chain from link [k] on. *)
Fixpoint task_events (k : nat) (t : Task) (s : S) : list Event :=
  match t with
  | Settle _ => [Complete k]
  | Segment act next => Resume k :: task_events k (next s) (act s)
  end.

Fixpoint drain_from (k : nat) (js : list Job) (s : S) : list Event :=
  match js with
  | [] => []
  | j :: js' =>
      match phase j with
      | Finished _ _ _ => drain_from (Datatypes.S k) js' s
      | Queued =>
          Start k :: task_events k (fn j) s
            ++ drain_from (Datatypes.S k) js' (fst (run_task (fn j) s))
      | Running rest _ =>
          task_events k rest s
            ++ drain_from (Datatypes.S k) js' (fst (run_task rest s))
      end
  end.

Definition drain (l : Lock) : list Event := drain_from 0 (jobs l) (store l).

(** The links of a chain are, in order: finished ones, then at most one
    running one, then queued ones. *)
Fixpoint in_order (js : list Job) : bool :=
  match js with
  | [] => true
  | j :: js' =>
      match phase j with
      | Finished _ _ _ => in_order js'
      | Running _ _ | Queued => forallb is_queued js'
      end
  end.

(** What a caller's promise may hold given the phase of its link: it is
    pending until the link completes or its timer fires; once the link
    has completed it holds the task's own outcome, unless the timer had
    come due, in which case it may hold the timeout failure. *)
Definition promise_ok (t : Z) (j : Job) : Prop :=
  match phase j with
  | Queued => result j = Pending
  | Running _ t0 =>
      result j = Pending \/
      (t0 + LOCK_TIMEOUT_MS <= t /\ result j = Rejected timeout_error)
  | Finished r t0 t1 =>
      t1 <= t /\
      (result j = settle r Pending \/
       (t0 + LOCK_TIMEOUT_MS <= t1 /\ result j = Rejected timeout_error))
  end.

(** The promise the link at [k] was hooked on is fulfilled. *)
Definition hooked_on_fulfilled (js : list Job) (k : nat) : Prop :=
  match k with
  | O => True
  | Datatypes.S k' => exists jp, js !! k' = Some jp /\ is_finished jp = true
  end.

(** Every link a segment of the trace belongs to has started. *)
Definition trace_started (l : Lock) : Prop :=
  forall k, k ∈ trace l ->
    exists j, jobs l !! k = Some j /\ is_queued j = false.

(** What holds of every chain reached from [init s0]. *)
Definition chain_inv (s0 : S) (l : Lock) : Prop :=
  in_order (jobs l) = true /\
  trace_started l /\
  StronglySorted le (trace l) /\
  finish_off l = run_seq (map fn (jobs l)) s0 /\
  Forall (promise_ok (now l)) (jobs l).

End Chain.
Arguments Task : clear implicits.
Arguments Promise : clear implicits.
Arguments Phase : clear implicits.
Arguments Job : clear implicits.
Arguments Lock : clear implicits.
Arguments Event : clear implicits.
End WriteLock.

(** * Vocabulary of the properties *)

(** The content of a cell; a cell the store left out is empty. *)
Definition text (row : Row) (k : nat) : jsstring := or_empty (cell row k).

(** Row [i] is after the header, names a ticket and has no status. *)
Definition available_at (rows : Sheet) (i : nat) : Prop :=
  (0 < i)%nat /\ exists row, rows !! i = Some row /\ text row 0 <> [] /\ text row 1 = [].

Definition first_available (rows : Sheet) (i : nat) : Prop :=
  available_at rows i /\ forall j, (j < i)%nat -> ~ available_at rows j.

Definition available_row (row : Row) : bool :=
  truthy_opt (cell row 0) && negb (truthy_opt (cell row 1)).

(** The ticket values still to hand out, in row order. *)
Definition available_tickets (rows : Sheet) : list jsstring :=
  map (fun row => text row 0) (List.filter available_row (drop 1 rows)).

(** The ticket values of all rows that name a ticket, in row order. *)
Definition ticket_values (rows : Sheet) : list jsstring :=
  map (fun row => text row 0)
      (List.filter (fun row => truthy_opt (cell row 0)) (drop 1 rows)).

(** The next [n] store calls are accepted, and however many of them a
    task makes, it settles before the lock's timer comes due. *)
Definition responsive (n : nat) (w : World) : Prop :=
  accepted n w /\ forall k, (k <= n)%nat -> elapsed k w < LOCK_TIMEOUT_MS.

(** Some store call made between [w] and [w'] was rejected. *)
Definition rejected_between (w w' : World) : Prop :=
  exists k, (length (calls w) <= k < length (calls w'))%nat
            /\ fails (reply_of w k) = true.

(** Order creations one after the other. *)
Fixpoint createOrders (ds : list OrdersService.CreateOrderData) (w : World)
  : list (Outcome OrdersService.CreateOrderResult) * World :=
  match ds with
  | [] => ([], w)
  | d :: ds' =>
      let (r, w1) := OrdersService.createOrder d w in
      let (rs, w2) := createOrders ds' w1 in
      (r :: rs, w2)
  end.

(** The ticket an order creation handed to its caller, if it did. *)
Definition allocated_of (r : Outcome OrdersService.CreateOrderResult)
  : option jsstring :=
  match r with
  | Returns res =>
      match OrdersService.conflict res with
      | None => Some (Orders.ticket (OrdersService.order res))
      | Some _ => None
      end
  | Throws _ => None
  end.

Definition allocated (rs : list (Outcome OrdersService.CreateOrderResult))
  : list jsstring :=
  omap allocated_of rs.

(** The world after the allocator marked row [i]. *)
Definition marked (i : nat) (w : World) : World :=
  TicketsService.cleared
    (set_sheet TicketsSheet
       (update_range i 1 [TicketsService.ATRIBUIDO] (tickets_sheet w))
       (after_call (ValuesUpdate TicketsSheet i 1 [TicketsService.ATRIBUIDO])
          (after_call (ValuesGet TicketsSheet) w))).

(** The world after a cache read that went to the store and was answered. *)
Definition orders_fetched (w : World) : World :=
  set_orders_mod
    (mkModuleState (Some (OrdersService.decodeOrders (pedidos_sheet w)))
       (clock w + took (reply_at w 0)) (cachedSheetId (orders_mod w)))
    (after_call (ValuesGet PedidosSheet) w).

Definition tickets_fetched (w : World) : World :=
  set_tickets_mod
    (mkModuleState (Some (TicketsService.decodeTickets (tickets_sheet w)))
       (clock w + took (reply_at w 0)) (cachedSheetId (tickets_mod w)))
    (after_call (ValuesGet TicketsSheet) w).

(** The order [createOrder] builds in the world [w] it has reached. *)
Definition new_order (data : OrdersService.CreateOrderData) (tk : jsstring)
    (duplicateOab : bool) (w : World) : Order :=
  Orders.mk (uuid_of w (uuids_drawn w)) tk (OrdersService.normalizeOab data)
    (OrdersService.c_nome_completo data)
    (or_empty (OrdersService.c_subsecao data))
    (format_br w (clock w)) (format_br w (clock w))
    (if duplicateOab then OrdersService.RECUSADO else OrdersService.APROVADO)
    (or_empty (OrdersService.c_anotacoes data)).

(** The world after the row of [o] was appended, or the append rejected. *)
Definition order_appended (o : Order) (w : World) : World :=
  OrdersService.cleared
    (set_sheet PedidosSheet
       (append_row (OrdersService.orderToRow o) (pedidos_sheet w))
       (after_call (ValuesAppend PedidosSheet (OrdersService.orderToRow o))
          (draw_uuid w))).

Definition order_append_rejected (o : Order) (w : World) : World :=
  after_call (ValuesAppend PedidosSheet (OrdersService.orderToRow o)) (draw_uuid w).


(** No order has the OAB number [n], or [n] is empty and is no key. *)
Definition no_duplicate (n : jsstring) (existing : list Order) : Prop :=
  n = [] \/ forall o, o ∈ existing -> trim (Orders.numero_oab o) <> n.

(** Row [i] is after the header and its first cell is exactly [key]. *)
Definition keyed_at (key : jsstring) (rows : Sheet) (i : nat) : Prop :=
  (0 < i)%nat /\ exists row, rows !! i = Some row /\ cell row 0 = Some key.

Definition first_keyed (key : jsstring) (rows : Sheet) (i : nat) : Prop :=
  keyed_at key rows i /\ forall j, (j < i)%nat -> ~ keyed_at key rows j.

(** [new] has the identifier of [old], the supplied value in every field
    the partial input has, and the value of [old] in every other field. *)
Definition merged_over (old : Order) (data : OrdersService.UpdateOrderData)
    (new : Order) : Prop :=
  Orders.uuid new = Orders.uuid old /\
  Orders.ticket new = default (Orders.ticket old) (OrdersService.u_ticket data) /\
  Orders.numero_oab new
    = default (Orders.numero_oab old) (OrdersService.u_numero_oab data) /\
  Orders.nome_completo new
    = default (Orders.nome_completo old) (OrdersService.u_nome_completo data) /\
  Orders.subsecao new
    = default (Orders.subsecao old) (OrdersService.u_subsecao data) /\
  Orders.data_solicitacao new
    = default (Orders.data_solicitacao old) (OrdersService.u_data_solicitacao data) /\
  Orders.data_liberacao new
    = default (Orders.data_liberacao old) (OrdersService.u_data_liberacao data) /\
  Orders.status new = default (Orders.status old) (OrdersService.u_status data) /\
  Orders.anotacoes new
    = default (Orders.anotacoes old) (OrdersService.u_anotacoes data).

(** A snapshot is present and younger than five minutes. *)
Definition served_from_cache {A} (m : ModuleState A) (now : Z) (c : list A) : Prop :=
  cache m = Some c /\ now - cacheTime m < 300000.

(** ** Sample worlds *)

(** A store that answers every call at once and accepts it. *)
Definition prompt : nat -> Reply := fun _ => mkReply false 0.

(** A store that answers its first calls as scripted, then like [prompt]. *)
Definition scripted (rs : list Reply) : nat -> Reply :=
  fun n => default (mkReply false 0) (rs !! n).

Definition sample_uuid (n : nat) : jsstring := lit "uuid-" ++ [N.of_nat n + 48]%N.

Definition sample_format (t : Z) : jsstring := lit "2026-02-13 10:00:00".

Definition sample_tickets : Sheet :=
  [ [lit "ticket"; lit "status"];
    [lit "68637750800"; TicketsService.ATRIBUIDO];
    [];
    [lit "11111111111"];
    [lit "22222222222"; []] ].

Definition sample_orders : Sheet :=
  [ [lit "uuid"; lit "ticket"; lit "numero_oab"; lit "nome_completo";
     lit "subsecao"; lit "data_solicitacao"; lit "data_liberacao";
     lit "status"; lit "anotacoes"];
    [lit "a1"; lit "68637750800"; lit " 123 "; lit "A"; [];
     lit "2026-02-12 09:00:00"; lit "2026-02-12 09:00:00"; lit "Aprovado"] ].

Definition sample_world (replies : nat -> Reply) : World :=
  mkWorld sample_tickets sample_orders (fun _ => Some 7)
    (mkModuleState None 0 None) (mkModuleState None 0 None)
    1000 [] replies 0 sample_uuid sample_format.

(** The same with no ticket left to hand out. *)
Definition exhausted_world (replies : nat -> Reply) : World :=
  mkWorld [ [lit "ticket"; lit "status"];
            [lit "68637750800"; TicketsService.ATRIBUIDO] ]
    sample_orders (fun _ => Some 7)
    (mkModuleState None 0 None) (mkModuleState None 0 None)
    1000 [] replies 0 sample_uuid sample_format.

Definition order_B : OrdersService.CreateOrderData :=
  OrdersService.mkCreate (Some (lit "123")) (lit "B") None None.

Definition order_X : OrdersService.CreateOrderData :=
  OrdersService.mkCreate None (lit "X") None None.

Definition only_status (s : jsstring) : OrdersService.UpdateOrderData :=
  OrdersService.mkUpdate None None None None None None (Some s) None.

(** ** Write operations as data *)

Inductive WriteOp : Type :=
| CreateTicket (tk : jsstring)
| UpdateTicket (oldTicket newTicket : jsstring)
| DeleteTicket (tk : jsstring)
| CreateOrder (data : OrdersService.CreateOrderData)
| UpdateOrder (id : jsstring) (data : OrdersService.UpdateOrderData)
| DeleteOrder (id : jsstring).

(** The failure a call ended with, if it failed. *)
Definition failure {A} (r : Outcome A) : option Error :=
  match r with Throws e => Some e | Returns _ => None end.

Definition outcome_of {A} (res : Outcome A * World) : option Error * World :=
  (failure (fst res), snd res).

Definition perform (op : WriteOp) (w : World) : option Error * World :=
  match op with
  | CreateTicket tk => outcome_of (TicketsService.createTicket tk w)
  | UpdateTicket a b => outcome_of (TicketsService.updateTicket a b w)
  | DeleteTicket tk => outcome_of (TicketsService.deleteTicket tk w)
  | CreateOrder d => outcome_of (OrdersService.createOrder d w)
  | UpdateOrder id d => outcome_of (OrdersService.updateOrder id d w)
  | DeleteOrder id => outcome_of (OrdersService.deleteOrder id w)
  end.

(** The task of an operation, the part that runs inside the lock. *)
Definition task_of (op : WriteOp) (w : World) : option Error * World :=
  match op with
  | CreateTicket tk => outcome_of (TicketsService.createTicket_task tk w)
  | UpdateTicket a b => outcome_of (TicketsService.updateTicket_task a b w)
  | DeleteTicket tk => outcome_of (TicketsService.deleteTicket_task tk w)
  | CreateOrder d => outcome_of (OrdersService.createOrder_task d w)
  | UpdateOrder id d => outcome_of (OrdersService.updateOrder_task id d w)
  | DeleteOrder id => outcome_of (OrdersService.deleteOrder_task id w)
  end.

(** The store call works on the tickets sheet. *)
Definition on_tickets (c : StoreCall) : bool :=
  match c with
  | ValuesGet TicketsSheet | ValuesAppend TicketsSheet _
  | ValuesUpdate TicketsSheet _ _ _ | DeleteDimension TicketsSheet _ _ => true
  | _ => false
  end.


(** A computation reports rejections: it leaves the script of replies
    alone, only adds to the log of calls, and when one of its calls is
    rejected that call is its last and it throws an error [e] with
    [P c e]. *)
Definition reports {A} (P : StoreCall -> Error -> Prop) (m : Async A) : Prop :=
  forall w,
    reply_of (snd (m w)) = reply_of w /\
    (exists cs, calls (snd (m w)) = cs ++ calls w) /\
    (rejected_between w (snd (m w)) ->
     exists c e, head (calls (snd (m w))) = Some c /\ fst (m w) = Throws e /\ P c e).

(** A change of the world that neither calls the store nor rewrites its
    script. *)
Definition quiet (f : World -> World) : Prop :=
  forall w, calls (f w) = calls w /\ reply_of (f w) = reply_of w.




(** ** Sample runs of the lock *)

Definition failure_of_task : Error := PlainError (lit "fail").

(** A task that adds one to the shared counter and then fails, and a
    task that doubles the counter and returns it. *)
Definition failing_task : WriteLock.Task nat nat :=
  WriteLock.Segment (fun s => s + 1)%nat
    (fun _ => WriteLock.Settle (Throws failure_of_task)).

Definition doubling_task : WriteLock.Task nat nat :=
  WriteLock.Segment (fun s => 2 * s)%nat
    (fun s => WriteLock.Settle (Returns (2 * s)%nat)).

(** Both are submitted before either starts; the first fails. *)
Definition sample_run : list (WriteLock.Event nat nat) :=
  [WriteLock.Submit failing_task; WriteLock.Submit doubling_task;
   WriteLock.Start 0; WriteLock.Tick 10; WriteLock.Resume 0;
   WriteLock.Complete 0; WriteLock.Start 1; WriteLock.Resume 1;
   WriteLock.Complete 1].

(** A task fails only after its 30 s timer has fired. *)
Definition late_failure_run : list (WriteLock.Event nat nat) :=
  [WriteLock.Submit failing_task; WriteLock.Start 0; WriteLock.Resume 0;
   WriteLock.Tick 30000; WriteLock.Timer 0; WriteLock.Complete 0].


(** ** Two-state properties of computations *)

(** Every run of [m] takes a world to one related to it by [R]. *)
Definition steps {A} (R : World -> World -> Prop) (m : Async A) : Prop :=
  forall w, R w (snd (m w)).

(** Every failure of [m] is one of [E]. *)
Definition throws_only {A} (E : Error -> Prop) (m : Async A) : Prop :=
  forall w e, fst (m w) = Throws e -> E e.

(** The store call works on the orders sheet. *)
Definition on_pedidos (c : StoreCall) : bool :=
  match c with
  | ValuesGet PedidosSheet | ValuesAppend PedidosSheet _
  | ValuesUpdate PedidosSheet _ _ _ | DeleteDimension PedidosSheet _ _ => true
  | _ => false
  end.

(** Between [w] and [w'] both sheets stayed as they were and every store
    call made was a read of the sheet [s]. *)
Definition only_read (s : SheetName) (w w' : World) : Prop :=
  tickets_sheet w' = tickets_sheet w /\ pedidos_sheet w' = pedidos_sheet w /\
  exists cs, calls w' = cs ++ calls w /\
             Forall (fun c => c = ValuesGet s) cs.

(** Between [w] and [w'] nothing of the tickets resource was touched:
    neither the sheet, nor the module variables, nor through a store
    call; and the same for the orders resource. *)
Definition tickets_alone (w w' : World) : Prop :=
  tickets_sheet w' = tickets_sheet w /\ tickets_mod w' = tickets_mod w /\
  exists cs, calls w' = cs ++ calls w /\ Forall (fun c => on_tickets c = false) cs.

Definition orders_alone (w w' : World) : Prop :=
  pedidos_sheet w' = pedidos_sheet w /\ orders_mod w' = orders_mod w /\
  exists cs, calls w' = cs ++ calls w /\ Forall (fun c => on_pedidos c = false) cs.

(** A sheet id a service module has looked up is still the one it holds. *)
Definition ids_kept (w w' : World) : Prop :=
  (forall id, cachedSheetId (orders_mod w) = Some id ->
              cachedSheetId (orders_mod w') = Some id) /\
  (forall id, cachedSheetId (tickets_mod w) = Some id ->
              cachedSheetId (tickets_mod w') = Some id).

(** The resource an operation belongs to. *)
Definition resource (op : WriteOp) : SheetName :=
  match op with
  | CreateTicket _ | UpdateTicket _ _ | DeleteTicket _ => TicketsSheet
  | CreateOrder _ | UpdateOrder _ _ | DeleteOrder _ => PedidosSheet
  end.

(** Operations one after the other. *)
Fixpoint perform_all (ops : list WriteOp) (w : World) : World :=
  match ops with
  | [] => w
  | op :: ops' => perform_all ops' (snd (perform op w))
  end.

(** The failures an operation can end with. *)
Definition failures (op : WriteOp) : list Error :=
  match op with
  | CreateTicket _ =>
      [ConflictError (lit "Ticket already exists"); StoreError; timeout_error]
  | UpdateTicket _ _ =>
      [NotFoundError (lit "Ticket"); StoreError; timeout_error]
  | DeleteTicket _ =>
      [NotFoundError (lit "Ticket"); TicketsService.sheet_not_found;
       StoreError; timeout_error]
  | CreateOrder _ => [NoTicketsError; StoreError; timeout_error]
  | UpdateOrder _ _ =>
      [NotFoundError (lit "Order"); StoreError; timeout_error]
  | DeleteOrder _ =>
      [NotFoundError (lit "Order"); OrdersService.sheet_not_found;
       StoreError; timeout_error]
  end.

(** The order passes every filter that is given and not empty: status
    and ticket are compared in lower case, the OAB number trimmed and in
    lower case. *)
Definition matches (toLowerCase : jsstring -> jsstring)
    (filters : option OrdersService.OrderFilters) (o : Order) : Prop :=
  forall f, filters = Some f ->
    (forall s, OrdersService.f_status f = Some s -> s <> [] ->
       toLowerCase (Orders.status o) = toLowerCase s) /\
    (forall s, OrdersService.f_ticket f = Some s -> s <> [] ->
       toLowerCase (Orders.ticket o) = toLowerCase s) /\
    (forall s, OrdersService.f_oab f = Some s -> s <> [] ->
       toLowerCase (trim (Orders.numero_oab o)) = toLowerCase (trim s)).

(** The filters [f] with another window. *)
Definition window (f : OrdersService.OrderFilters) (limit offset : Z)
  : option OrdersService.OrderFilters :=
  Some (OrdersService.mkFilters (OrdersService.f_status f) (OrdersService.f_ticket f)
          (OrdersService.f_oab f) (Some limit) (Some offset)).

(** ** The lock without its timer

    The earlier [utils/writeLock.ts] is the same chain with no
    [setTimeout]: its runs are the runs in which no timer fires. *)

Definition no_timer {S V} (ev : WriteLock.Event S V) : bool :=
  match ev with WriteLock.Timer _ => false | _ => true end.

(** The promise of a link that only its own task settles. *)
Definition own_result {S V} (j : WriteLock.Job S V) : WriteLock.Promise V :=
  match WriteLock.phase j with
  | WriteLock.Finished r _ _ => WriteLock.settle r WriteLock.Pending
  | _ => WriteLock.Pending
  end.

(** ** More samples *)

(** Lower case on the ASCII letters, as [toLowerCase] has it there. *)
Definition ascii_lower (s : jsstring) : jsstring :=
  map (fun c => if (65 <=? c)%N && (c <=? 90)%N then (c + 32)%N else c) s.

(** The order on the one row of [sample_orders]. *)
Definition order_A : Order :=
  Orders.mk (lit "a1") (lit "68637750800") (lit " 123 ") (lit "A") []
    (lit "2026-02-12 09:00:00") (lit "2026-02-12 09:00:00") (lit "Aprovado") [].

Definition approved_first_ten : option OrdersService.OrderFilters :=
  Some (OrdersService.mkFilters (Some (lit "APROVADO")) None None (Some 10) (Some 0)).

Definition no_filters : OrdersService.OrderFilters :=
  OrdersService.mkFilters None None None None None.

(** Two requests for the same OAB number, written differently. *)
Definition order_C : OrdersService.CreateOrderData :=
  OrdersService.mkCreate (Some (lit " 777 ")) (lit "C") None None.

Definition order_C_again : OrdersService.CreateOrderData :=
  OrdersService.mkCreate (Some (lit "777")) (lit "C") None None.

(** A chain whose one task is still running after its timer has fired. *)
Definition timed_out_lock : WriteLock.Lock nat nat :=
  WriteLock.mkLock
    [WriteLock.mkJob failing_task
       (WriteLock.Running (WriteLock.Settle (Throws failure_of_task)) 0)
       (WriteLock.Rejected timeout_error)]
    1%nat 30000 [0%nat].

(** ** middleware/rateLimiter.ts

    The limiter keeps one entry per client in a module-level [Map]; the
    middlewares read the clock, look the entry of the caller up, creating
    it when there is none, and change it in place.  Times are integers,
    as [Date.now()] gives them. *)

Module RateLimiter.

Record RateLimitData : Type := mkData {
  count : Z;
  windowStart : Z;
  authFailures : Z;
  authFailStart : Z
}.

(** [const requests = new Map<string, RateLimitData>()] *)
Abbreviation Requests := (gmap jsstring RateLimitData).

Definition WINDOW_MS : Z := 60 * 1000.
Definition MAX_REQUESTS : Z := 100.
Definition AUTH_FAIL_WINDOW_MS : Z := 15 * 60 * 1000.
Definition MAX_AUTH_FAILURES : Z := 5.

(** What the limiter reads of a request. *)
Record Request : Type := mkRequest {
  ip : option jsstring;
  remoteAddress : option jsstring
}.

(** [req.ip || req.socket.remoteAddress || "unknown"] *)
Definition getClientKey (req : Request) : jsstring :=
  if truthy_opt (ip req) then or_empty (ip req)
  else if truthy_opt (remoteAddress req) then or_empty (remoteAddress req)
  else lit "unknown".

(** [Math.ceil(a / b)] for integers [a] and [b > 0]. *)
Definition ceil_div (a b : Z) : Z := - ((- a) / b).

(** [requests.get(key)], or the entry created and stored when there is
    none. *)
Definition entry (key : jsstring) (now : Z) (requests : Requests)
  : RateLimitData :=
  match requests !! key with
  | Some data => data
  | None => mkData 0 now 0 now
  end.

(** The X-RateLimit-... headers and Retry-After. *)
Record Headers : Type := mkHeaders {
  limit : Z;
  remaining : Z;
  reset : Z;
  retryAfter : option Z
}.

Inductive Response : Type :=
| Next (h : option Headers)                    (* next() *)
| TooMany (h : option Headers) (msg : jsstring) (* res.status(429).json(error(msg)) *).

Definition rateLimited : jsstring :=
  lit "Too many requests. Please try again later.".

Definition authLimited : jsstring :=
  lit "Too many failed authentication attempts. Please try again later.".

Definition rateLimiter (req : Request) (now : Z) (requests : Requests)
  : Response * Requests :=
  let key := getClientKey req in
  let data := entry key now requests in
  let data :=
    if WINDOW_MS <? now - windowStart data
    then mkData 0 now (authFailures data) (authFailStart data)
    else data in
  let data :=
    mkData (count data + 1) (windowStart data) (authFailures data)
      (authFailStart data) in
  let remaining := Z.max 0 (MAX_REQUESTS - count data) in
  let reset := ceil_div (windowStart data + WINDOW_MS) 1000 in
  let requests := <[key := data]> requests in
  if MAX_REQUESTS <? count data
  then
    let retryAfter := ceil_div (windowStart data + WINDOW_MS - now) 1000 in
    (TooMany (Some (mkHeaders MAX_REQUESTS remaining reset (Some retryAfter)))
       rateLimited,
     requests)
  else (Next (Some (mkHeaders MAX_REQUESTS remaining reset None)), requests).

Definition trackAuthFailure (req : Request) (now : Z) (requests : Requests)
  : Requests :=
  let key := getClientKey req in
  let data := entry key now requests in
  let data :=
    if AUTH_FAIL_WINDOW_MS <? now - authFailStart data
    then mkData (count data) (windowStart data) 0 now
    else data in
  <[key := mkData (count data) (windowStart data) (authFailures data + 1)
             (authFailStart data)]> requests.

Definition isAuthBlocked (req : Request) (now : Z) (requests : Requests)
  : bool * Requests :=
  let key := getClientKey req in
  match requests !! key with
  | None => (false, requests)
  | Some data =>
      if AUTH_FAIL_WINDOW_MS <? now - authFailStart data
      then (false,
            <[key := mkData (count data) (windowStart data) 0 now]> requests)
      else (MAX_AUTH_FAILURES <=? authFailures data, requests)
  end.

Definition authRateLimiter (req : Request) (now : Z) (requests : Requests)
  : Response * Requests :=
  let (blocked, requests) := isAuthBlocked req now requests in
  if blocked then (TooMany None authLimited, requests)
  else (Next None, requests).

(** The callback of [setInterval]: entries whose window opened more
    than fifteen minutes ago are deleted. *)
Definition cleanup (now : Z) (requests : Requests) : Requests :=
  filter (fun kd => ~ (Z.max WINDOW_MS AUTH_FAIL_WINDOW_MS < now - windowStart (snd kd)))
    requests.

End RateLimiter.

(** Requests of one client, one after the other, at the given times. *)
Fixpoint hits (req : RateLimiter.Request) (times : list Z)
    (requests : RateLimiter.Requests)
  : list RateLimiter.Response * RateLimiter.Requests :=
  match times with
  | [] => ([], requests)
  | now :: times' =>
      let (r, requests1) := RateLimiter.rateLimiter req now requests in
      let (rs, requests2) := hits req times' requests1 in
      (r :: rs, requests2)
  end.

(** Failed authentications of one client at the given times. *)
Fixpoint auth_failures (req : RateLimiter.Request) (times : list Z)
    (requests : RateLimiter.Requests) : RateLimiter.Requests :=
  match times with
  | [] => requests
  | now :: times' =>
      auth_failures req times' (RateLimiter.trackAuthFailure req now requests)
  end.

Definition passed (r : RateLimiter.Response) : bool :=
  match r with RateLimiter.Next _ => true | RateLimiter.TooMany _ _ => false end.

(** No entry for the client, or one whose window is over at [now]. *)
Definition window_over (key : jsstring) (now : Z) (requests : RateLimiter.Requests)
  : Prop :=
  match requests !! key with
  | None => True
  | Some d => RateLimiter.WINDOW_MS < now - RateLimiter.windowStart d
  end.

Definition a_client : RateLimiter.Request :=
  RateLimiter.mkRequest (Some (lit "10.0.0.7")) None.
(** * Properties *)

Create HintDb async discriminated.

#[local] Hint Unfold bind ret throw try_catch get_world modify Date_now
  store_call values_get values_append values_update spreadsheets_get
  batch_delete_row next_reply reply_at withWriteLock
  TicketsService.invalidateCache OrdersService.invalidateCache
  TicketsService.cleared OrdersService.cleared
  OrdersService.nowBR OrdersService.randomUUID
  TicketsService.SHEET_NAME OrdersService.SHEET_NAME : async.

Ltac exec := repeat (autounfold with async; cbn).

(** The same with the world setters opened up, so that projections of
    updated worlds reduce. *)
Ltac exec_world :=
  repeat (autounfold with async;
          unfold after_call, set_sheet, set_tickets_mod, set_orders_mod, draw_uuid;
          cbn).

(** ** The definitions at work *)

Example trim_strips_both_ends :
  trim ([32; 9]%N ++ lit "12 3" ++ [160; 10]%N) = lit "12 3".
Proof. reflexivity. Qed.

Example findIndex_skips_header_and_taken_rows :
  findIndex TicketsService.is_available sample_tickets = Some 3%nat.
Proof. reflexivity. Qed.

Example decodeTickets_sample :
  TicketsService.decodeTickets sample_tickets
  = [Tickets.mk (lit "68637750800") TicketsService.ATRIBUIDO;
     Tickets.mk (lit "11111111111") [];
     Tickets.mk (lit "22222222222") []].
Proof. reflexivity. Qed.

Example write_cells_extends_short_row :
  write_cells 1 [TicketsService.ATRIBUIDO] [lit "11111111111"]
  = [lit "11111111111"; TicketsService.ATRIBUIDO].
Proof. reflexivity. Qed.

Example two_creations_two_tickets :
  allocated (fst (createOrders [order_X; order_X] (sample_world prompt)))
  = [lit "11111111111"; lit "22222222222"].
Proof. reflexivity. Qed.

Example third_creation_finds_no_ticket :
  map failure (fst (createOrders [order_X; order_X; order_X] (sample_world prompt)))
  = [None; None; Some NoTicketsError].
Proof. reflexivity. Qed.

Example slow_store_times_out :
  fst (OrdersService.createOrder order_B
         (sample_world (scripted [mkReply false 20000; mkReply false 10000])))
  = Throws timeout_error.
Proof. reflexivity. Qed.

(** ** Arrays and cells *)

Section ArrayFacts.
Context {A : Type} (p : A -> nat -> bool).

Lemma findIndex_from_Some (l : list A) (i k : nat) :
  findIndex_from p i l = Some k ->
  (i <= k)%nat /\
  (exists x, l !! (k - i)%nat = Some x /\ p x k = true) /\
  (forall j y, (j < k - i)%nat -> l !! j = Some y -> p y (i + j)%nat = false).
Proof.
  revert i. induction l as [|x l IH]; intros i H; simpl in H; [discriminate|].
  destruct (p x i) eqn:Hp.
  - injection H as <-. split; [lia|]. split.
    + exists x. rewrite Nat.sub_diag. auto.
    + intros j y Hj. lia.
  - apply IH in H as (Hle & (y & Hy & Hpy) & Hbefore).
    split; [lia|]. split.
    + exists y. split; [|exact Hpy].
      replace (k - i)%nat with (S (k - S i)) by lia. exact Hy.
    + intros [|j] z Hj Hz; simpl in Hz.
      * injection Hz as <-. rewrite Nat.add_0_r. exact Hp.
      * replace (i + S j)%nat with (S i + j)%nat by lia.
        apply Hbefore; [lia|exact Hz].
Qed.

Lemma findIndex_from_None (l : list A) (i : nat) :
  findIndex_from p i l = None ->
  forall j y, l !! j = Some y -> p y (i + j)%nat = false.
Proof.
  revert i. induction l as [|x l IH]; intros i H j y Hy; [discriminate|].
  simpl in H. destruct (p x i) eqn:Hp; [discriminate|].
  destruct j as [|j]; simpl in Hy.
  - injection Hy as <-. rewrite Nat.add_0_r. exact Hp.
  - replace (i + S j)%nat with (S i + j)%nat by lia. eauto.
Qed.

Lemma findIndex_Some (l : list A) (k : nat) :
  findIndex p l = Some k ->
  (exists x, l !! k = Some x /\ p x k = true) /\
  (forall j y, (j < k)%nat -> l !! j = Some y -> p y j = false).
Proof.
  intros H. apply findIndex_from_Some in H as (_ & Hx & Hb).
  rewrite Nat.sub_0_r in *. split; [exact Hx|]. exact Hb.
Qed.

Lemma findIndex_None (l : list A) :
  findIndex p l = None -> forall j y, l !! j = Some y -> p y j = false.
Proof. intros H j y. exact (findIndex_from_None l 0 H j y). Qed.

Lemma findIndex_lt (l : list A) (k : nat) :
  findIndex p l = Some k -> (k < length l)%nat.
Proof.
  intros H. apply findIndex_Some in H as ((x & Hx & _) & _).
  eapply lookup_lt_Some, Hx.
Qed.
End ArrayFacts.

Lemma truthy_text (row : Row) (k : nat) :
  truthy_opt (cell row k) = true <-> text row k <> [].
Proof.
  unfold text, or_empty, cell. destruct (row !! k) as [[|c s]|]; simpl; split;
    intros H; try discriminate; try congruence; auto.
Qed.

Lemma falsy_text (row : Row) (k : nat) :
  truthy_opt (cell row k) = false <-> text row k = [].
Proof.
  unfold text, or_empty, cell. destruct (row !! k) as [[|c s]|]; simpl; split;
    intros H; try discriminate; auto.
Qed.

Lemma is_available_true (row : Row) (i : nat) :
  TicketsService.is_available row i = true <->
  (0 < i)%nat /\ text row 0 <> [] /\ text row 1 = [].
Proof.
  unfold TicketsService.is_available.
  rewrite !andb_true_iff, negb_true_iff, truthy_text, falsy_text, Nat.ltb_lt.
  tauto.
Qed.

Lemma available_at_iff (rows : Sheet) (i : nat) :
  available_at rows i <->
  exists row, rows !! i = Some row /\ TicketsService.is_available row i = true.
Proof.
  unfold available_at. split.
  - intros (Hi & row & Hrow & H0 & H1). exists row. split; [exact Hrow|].
    apply is_available_true. auto.
  - intros (row & Hrow & H). apply is_available_true in H as (Hi & H0 & H1).
    split; [exact Hi|]. exists row. auto.
Qed.

Lemma findIndex_first_available (rows : Sheet) (i : nat) :
  findIndex TicketsService.is_available rows = Some i <-> first_available rows i.
Proof.
  split.
  - intros H. apply findIndex_Some in H as ((row & Hrow & Hp) & Hb). split.
    + apply available_at_iff. eauto.
    + intros j Hj Hav. apply available_at_iff in Hav as (y & Hy & Hpy).
      rewrite (Hb j y Hj Hy) in Hpy. discriminate.
  - intros (Hav & Hfirst).
    destruct (findIndex TicketsService.is_available rows) as [k|] eqn:E.
    + pose proof E as E'.
      apply findIndex_Some in E as ((row & Hrow & Hp) & Hb).
      apply available_at_iff in Hav as (y & Hy & Hpy).
      destruct (Nat.lt_trichotomy k i) as [Hlt | [-> | Hgt]]; [|reflexivity|].
      * exfalso. apply (Hfirst k Hlt). apply available_at_iff. eauto.
      * rewrite (Hb i y Hgt Hy) in Hpy. discriminate.
    + apply available_at_iff in Hav as (y & Hy & Hpy).
      rewrite (findIndex_None _ _ E i y Hy) in Hpy. discriminate.
Qed.

Lemma findIndex_none_available (rows : Sheet) :
  findIndex TicketsService.is_available rows = None <->
  forall i, ~ available_at rows i.
Proof.
  split.
  - intros H i Hav. apply available_at_iff in Hav as (y & Hy & Hpy).
    rewrite (findIndex_None _ _ H i y Hy) in Hpy. discriminate.
  - intros H. destruct (findIndex TicketsService.is_available rows) as [k|] eqn:E;
      [|reflexivity].
    exfalso. apply (H k). apply findIndex_first_available in E. apply E.
Qed.

(** ** Writing into the grid *)

Lemma pad_to_length {A} (n : nat) (d : A) (l : list A) :
  length (pad_to n d l) = max n (length l).
Proof. unfold pad_to. rewrite length_app, length_replicate. lia. Qed.

Lemma pad_to_id {A} (n : nat) (d : A) (l : list A) :
  (n <= length l)%nat -> pad_to n d l = l.
Proof.
  intros H. unfold pad_to. replace (n - length l)%nat with 0%nat by lia.
  apply app_nil_r.
Qed.

Lemma pad_to_lookup (n : nat) (row : Row) (k : nat) :
  (k < n)%nat -> pad_to n [] row !! k = Some (text row k).
Proof.
  intros Hk. unfold pad_to, text, or_empty.
  destruct (cell row k) as [x|] eqn:Hx; unfold cell in Hx; simpl.
  - rewrite lookup_app_l by (eapply lookup_lt_Some, Hx). exact Hx.
  - apply lookup_ge_None_1 in Hx.
    rewrite lookup_app_r by exact Hx. apply lookup_replicate_2. lia.
Qed.

Lemma write_cells_lookup (col : nat) (vals row : Row) (k : nat) :
  write_cells col vals row !! k =
  if decide (k < col)%nat then Some (text row k)
  else if decide (k < col + length vals)%nat then vals !! (k - col)%nat
       else row !! k.
Proof.
  unfold write_cells.
  assert (Hlen : length (take col (pad_to col [] row)) = col).
  { rewrite length_take, pad_to_length. lia. }
  destruct (decide (k < col)%nat) as [Hk|Hk].
  - rewrite lookup_app_l by lia. rewrite lookup_take_lt by exact Hk.
    apply pad_to_lookup, Hk.
  - rewrite lookup_app_r by lia. rewrite Hlen.
    destruct (decide (k < col + length vals)%nat) as [Hv|Hv].
    + rewrite lookup_app_l by lia. reflexivity.
    + rewrite lookup_app_r by lia. rewrite lookup_drop. f_equal. lia.
Qed.

Lemma write_cells_text (col : nat) (vals row : Row) (k : nat) :
  (k < col \/ col + length vals <= k)%nat ->
  text (write_cells col vals row) k = text row k.
Proof.
  intros H. unfold text at 1. unfold cell. rewrite write_cells_lookup.
  destruct (decide (k < col)%nat); [reflexivity|].
  destruct (decide (k < col + length vals)%nat); [lia|]. reflexivity.
Qed.

Lemma update_range_in_range (r col : nat) (vals : Row) (sh : Sheet) :
  (r < length sh)%nat ->
  update_range r col vals sh = alter (write_cells col vals) r sh.
Proof. intros H. unfold update_range. rewrite pad_to_id by lia. reflexivity. Qed.

Lemma update_range_length (r col : nat) (vals : Row) (sh : Sheet) :
  (r < length sh)%nat -> length (update_range r col vals sh) = length sh.
Proof. intros H. rewrite update_range_in_range by exact H. apply length_alter. Qed.

Lemma update_range_same (r col : nat) (vals row : Row) (sh : Sheet) :
  sh !! r = Some row ->
  update_range r col vals sh !! r = Some (write_cells col vals row).
Proof.
  intros H. rewrite update_range_in_range by (eapply lookup_lt_Some, H).
  rewrite list_lookup_alter_eq, H. reflexivity.
Qed.

Lemma update_range_other (r col : nat) (vals : Row) (sh : Sheet) (j : nat) :
  (r < length sh)%nat -> j <> r ->
  update_range r col vals sh !! j = sh !! j.
Proof.
  intros H Hj. rewrite update_range_in_range by exact H.
  apply list_lookup_alter_ne. congruence.
Qed.

(** ** Store calls *)

Lemma accepted_at (n : nat) (w : World) (i : nat) :
  accepted n w -> (i < n)%nat -> fails (reply_of w (i + length (calls w))) = false.
Proof. intros H Hi. exact (H i Hi). Qed.

Lemma reply_at_after_call (c : StoreCall) (w : World) (i : nat) :
  reply_at (after_call c w) i = reply_at w (S i).
Proof. unfold reply_at. cbn. f_equal. lia. Qed.

Lemma values_get_accepted (s : SheetName) (w : World) :
  fails (reply_at w 0) = false ->
  values_get s w = (Returns (sheet s w), after_call (ValuesGet s) w).
Proof. intros H. unfold reply_at in H. cbn in H. exec. rewrite H. destruct s; reflexivity. Qed.

Lemma values_get_rejected (s : SheetName) (w : World) :
  fails (reply_at w 0) = true ->
  values_get s w = (Throws StoreError, after_call (ValuesGet s) w).
Proof. intros H. unfold reply_at in H. cbn in H. exec. rewrite H. reflexivity. Qed.

Lemma values_update_accepted (s : SheetName) (r col : nat) (vals : Row) (w : World) :
  fails (reply_at w 0) = false ->
  values_update s r col vals w =
  (Returns tt, set_sheet s (update_range r col vals (sheet s w))
                 (after_call (ValuesUpdate s r col vals) w)).
Proof. intros H. unfold reply_at in H. cbn in H. exec. rewrite H. destruct s; reflexivity. Qed.

Lemma values_update_rejected (s : SheetName) (r col : nat) (vals : Row) (w : World) :
  fails (reply_at w 0) = true ->
  values_update s r col vals w =
  (Throws StoreError, after_call (ValuesUpdate s r col vals) w).
Proof. intros H. unfold reply_at in H. cbn in H. exec. rewrite H. reflexivity. Qed.

Lemma values_append_accepted (s : SheetName) (row : Row) (w : World) :
  fails (reply_at w 0) = false ->
  values_append s row w =
  (Returns tt, set_sheet s (append_row row (sheet s w))
                 (after_call (ValuesAppend s row) w)).
Proof. intros H. unfold reply_at in H. cbn in H. exec. rewrite H. destruct s; reflexivity. Qed.

Lemma values_append_rejected (s : SheetName) (row : Row) (w : World) :
  fails (reply_at w 0) = true ->
  values_append s row w = (Throws StoreError, after_call (ValuesAppend s row) w).
Proof. intros H. unfold reply_at in H. cbn in H. exec. rewrite H. reflexivity. Qed.

Lemma bind_returns {A B} (m : Async A) (k : A -> Async B) (w w' : World) (a : A) :
  m w = (Returns a, w') -> bind m k w = k a w'.
Proof. intros H. unfold bind. rewrite H. reflexivity. Qed.

Lemma bind_throws {A B} (m : Async A) (k : A -> Async B) (w w' : World) (e : Error) :
  m w = (Throws e, w') -> bind m k w = (Throws e, w').
Proof. intros H. unfold bind. rewrite H. reflexivity. Qed.

(** ** The ticket allocator *)

Lemma assign_read_rejected (w : World) :
  fails (reply_at w 0) = true ->
  TicketsService.assignAvailableTicket w =
  (Throws StoreError, after_call (ValuesGet TicketsSheet) w).
Proof.
  intros H. unfold TicketsService.assignAvailableTicket.
  apply bind_throws, values_get_rejected, H.
Qed.

Lemma assign_none (w : World) :
  fails (reply_at w 0) = false ->
  findIndex TicketsService.is_available (tickets_sheet w) = None ->
  TicketsService.assignAvailableTicket w =
  (Throws NoTicketsError, after_call (ValuesGet TicketsSheet) w).
Proof.
  intros H E. unfold TicketsService.assignAvailableTicket.
  erewrite bind_returns by (apply values_get_accepted, H).
  cbn [sheet TicketsService.SHEET_NAME]. rewrite E. reflexivity.
Qed.

Lemma assign_update_rejected (w : World) (i : nat) :
  fails (reply_at w 0) = false ->
  fails (reply_at w 1) = true ->
  findIndex TicketsService.is_available (tickets_sheet w) = Some i ->
  TicketsService.assignAvailableTicket w =
  (Throws StoreError,
   after_call (ValuesUpdate TicketsSheet i 1 [TicketsService.ATRIBUIDO])
     (after_call (ValuesGet TicketsSheet) w)).
Proof.
  intros H0 H1 E. unfold TicketsService.assignAvailableTicket.
  erewrite bind_returns by (apply values_get_accepted, H0).
  cbn [sheet TicketsService.SHEET_NAME]. rewrite E.
  apply bind_throws, values_update_rejected.
  rewrite reply_at_after_call. exact H1.
Qed.

Lemma assign_marks (w : World) (i : nat) :
  fails (reply_at w 0) = false ->
  fails (reply_at w 1) = false ->
  findIndex TicketsService.is_available (tickets_sheet w) = Some i ->
  TicketsService.assignAvailableTicket w =
  (Returns (text (row_at (tickets_sheet w) i) 0), marked i w).
Proof.
  intros H0 H1 E. unfold TicketsService.assignAvailableTicket.
  erewrite bind_returns by (apply values_get_accepted, H0).
  cbn [sheet TicketsService.SHEET_NAME]. rewrite E.
  erewrite bind_returns
    by (apply values_update_accepted; rewrite reply_at_after_call; exact H1).
  reflexivity.
Qed.

(** ** Cache reads *)

Lemma readAllOrders_hit (w : World) (c : list Order) :
  cache (orders_mod w) = Some c ->
  clock w - cacheTime (orders_mod w) < CACHE_TTL ->
  OrdersService.readAllOrders w = (Returns c, w).
Proof.
  intros Hc Hage. unfold OrdersService.readAllOrders. exec. rewrite Hc.
  apply Z.ltb_lt in Hage. rewrite Hage. reflexivity.
Qed.

Lemma readAllOrders_miss (w : World) :
  cache (orders_mod w) = None \/ CACHE_TTL <= clock w - cacheTime (orders_mod w) ->
  OrdersService.readAllOrders w =
  if fails (reply_at w 0)
  then (Throws StoreError, after_call (ValuesGet PedidosSheet) w)
  else (Returns (OrdersService.decodeOrders (pedidos_sheet w)), orders_fetched w).
Proof.
  intros H. unfold OrdersService.readAllOrders, orders_fetched. exec.
  destruct (cache (orders_mod w)) as [c|] eqn:Hc.
  - destruct H as [H|H]; [discriminate|].
    apply Z.ltb_ge in H. rewrite H.
    destruct (fails _); reflexivity.
  - destruct (fails _); reflexivity.
Qed.

Lemma readAllTickets_hit (w : World) (c : list Ticket) :
  cache (tickets_mod w) = Some c ->
  clock w - cacheTime (tickets_mod w) < CACHE_TTL ->
  TicketsService.readAllTickets w = (Returns c, w).
Proof.
  intros Hc Hage. unfold TicketsService.readAllTickets. exec. rewrite Hc.
  apply Z.ltb_lt in Hage. rewrite Hage. reflexivity.
Qed.

Lemma readAllTickets_miss (w : World) :
  cache (tickets_mod w) = None \/ CACHE_TTL <= clock w - cacheTime (tickets_mod w) ->
  TicketsService.readAllTickets w =
  if fails (reply_at w 0)
  then (Throws StoreError, after_call (ValuesGet TicketsSheet) w)
  else (Returns (TicketsService.decodeTickets (tickets_sheet w)), tickets_fetched w).
Proof.
  intros H. unfold TicketsService.readAllTickets, tickets_fetched. exec.
  destruct (cache (tickets_mod w)) as [c|] eqn:Hc.
  - destruct H as [H|H]; [discriminate|].
    apply Z.ltb_ge in H. rewrite H.
    destruct (fails _); reflexivity.
  - destruct (fails _); reflexivity.
Qed.

(** ** Order creation, case by case *)

Lemma reply_at_orders_cleared (w : World) (i : nat) :
  reply_at (OrdersService.cleared w) i = reply_at w i.
Proof. reflexivity. Qed.

Lemma reply_at_orders_fetched (w : World) (i : nat) :
  reply_at (orders_fetched w) i = reply_at w (S i).
Proof. exact (reply_at_after_call (ValuesGet PedidosSheet) w i). Qed.

Lemma reply_at_marked (i : nat) (w : World) (k : nat) :
  reply_at (marked i w) k = reply_at w (S (S k)).
Proof.
  unfold marked.
  change (reply_at (after_call (ValuesUpdate TicketsSheet i 1 [TicketsService.ATRIBUIDO])
                      (after_call (ValuesGet TicketsSheet) w)) k = reply_at w (S (S k))).
  rewrite !reply_at_after_call. reflexivity.
Qed.

Lemma readAllOrders_fresh_accepted (w : World) :
  fails (reply_at w 0) = false ->
  OrdersService.readAllOrders (OrdersService.cleared w) =
  (Returns (OrdersService.decodeOrders (pedidos_sheet w)),
   orders_fetched (OrdersService.cleared w)).
Proof.
  intros H. rewrite readAllOrders_miss by (left; reflexivity).
  rewrite reply_at_orders_cleared, H. reflexivity.
Qed.

Lemma readAllOrders_fresh_rejected (w : World) :
  fails (reply_at w 0) = true ->
  OrdersService.readAllOrders (OrdersService.cleared w) =
  (Throws StoreError, after_call (ValuesGet PedidosSheet) (OrdersService.cleared w)).
Proof.
  intros H. rewrite readAllOrders_miss by (left; reflexivity).
  rewrite reply_at_orders_cleared, H. reflexivity.
Qed.

Lemma assignOrFail_returns (w w' : World) (t : jsstring) :
  TicketsService.assignAvailableTicket w = (Returns t, w') ->
  OrdersService.assignOrFail w = (Returns t, w').
Proof. intros H. unfold OrdersService.assignOrFail, try_catch. rewrite H. reflexivity. Qed.

Lemma assignOrFail_throws (w w' : World) (e : Error) :
  TicketsService.assignAvailableTicket w = (Throws e, w') ->
  OrdersService.assignOrFail w = (Throws NoTicketsError, w').
Proof.
  intros H. unfold OrdersService.assignOrFail, try_catch. rewrite H.
  destruct e; reflexivity.
Qed.

(** What order creation does once it knows the ticket. *)
Lemma createOrder_finish (data : OrdersService.CreateOrderData) (tk : jsstring)
    (existingOrder : option Order) (w : World) :
  let o := new_order data tk (defined existingOrder) w in
  (id <- OrdersService.randomUUID ;;
   solicitacao <- OrdersService.nowBR ;;
   liberacao <- OrdersService.nowBR ;;
   let order :=
     Orders.mk id tk (OrdersService.normalizeOab data)
       (OrdersService.c_nome_completo data)
       (or_empty (OrdersService.c_subsecao data)) solicitacao liberacao
       (if defined existingOrder then OrdersService.RECUSADO
        else OrdersService.APROVADO)
       (or_empty (OrdersService.c_anotacoes data)) in
   values_append OrdersService.SHEET_NAME (OrdersService.orderToRow order) ;;;
   OrdersService.invalidateCache ;;;
   match existingOrder with
   | Some e =>
       ret (OrdersService.mkResult order
              (Some (OrdersService.mkConflict (Orders.ticket e)
                                               (Orders.data_solicitacao e))))
   | None => ret (OrdersService.mkResult order None)
   end) w =
  if fails (reply_at w 0)
  then (Throws StoreError, order_append_rejected o w)
  else (Returns (OrdersService.mkResult o
                   (option_map (fun e => OrdersService.mkConflict (Orders.ticket e)
                                           (Orders.data_solicitacao e))
                      existingOrder)),
        order_appended o w).
Proof.
  intros o. unfold o, new_order, order_append_rejected, order_appended. exec.
  destruct (fails _); [reflexivity|].
  destruct existingOrder; reflexivity.
Qed.

Section CreateOrder.
Variable data : OrdersService.CreateOrderData.
Variable w : World.

Local Abbreviation existing := (OrdersService.decodeOrders (pedidos_sheet w)).
Local Abbreviation w1 := (orders_fetched (OrdersService.cleared w)).

Lemma createOrder_task_read_rejected :
  fails (reply_at w 0) = true ->
  OrdersService.createOrder_task data w =
  (Throws StoreError, after_call (ValuesGet PedidosSheet) (OrdersService.cleared w)).
Proof.
  intros H. unfold OrdersService.createOrder_task.
  erewrite bind_returns by reflexivity.
  apply bind_throws, readAllOrders_fresh_rejected, H.
Qed.

Lemma reply_at_w1 (i : nat) : reply_at w1 i = reply_at w (S i).
Proof. rewrite reply_at_orders_fetched. reflexivity. Qed.

Lemma createOrder_task_duplicate (e : Order) :
  fails (reply_at w 0) = false ->
  OrdersService.findExisting (OrdersService.normalizeOab data) existing = Some e ->
  let o := new_order data [] true w1 in
  OrdersService.createOrder_task data w =
  if fails (reply_at w 1)
  then (Throws StoreError, order_append_rejected o w1)
  else (Returns (OrdersService.mkResult o
                   (Some (OrdersService.mkConflict (Orders.ticket e)
                                                    (Orders.data_solicitacao e)))),
        order_appended o w1).
Proof.
  intros H0 He o. unfold OrdersService.createOrder_task.
  erewrite bind_returns by reflexivity.
  erewrite bind_returns by (apply readAllOrders_fresh_accepted, H0).
  cbv zeta. rewrite He. cbn [defined negb].
  erewrite bind_returns by reflexivity.
  etransitivity; [exact (createOrder_finish data [] (Some e) w1)|].
  rewrite reply_at_w1. reflexivity.
Qed.

Lemma createOrder_task_no_ticket (w2 : World) (err : Error) :
  fails (reply_at w 0) = false ->
  OrdersService.findExisting (OrdersService.normalizeOab data) existing = None ->
  TicketsService.assignAvailableTicket w1 = (Throws err, w2) ->
  OrdersService.createOrder_task data w = (Throws NoTicketsError, w2).
Proof.
  intros H0 He Ha. unfold OrdersService.createOrder_task.
  erewrite bind_returns by reflexivity.
  erewrite bind_returns by (apply readAllOrders_fresh_accepted, H0).
  cbv zeta. rewrite He. cbn [defined negb].
  apply bind_throws. eapply assignOrFail_throws, Ha.
Qed.

Lemma createOrder_task_ticket (w2 : World) (tk : jsstring) :
  fails (reply_at w 0) = false ->
  OrdersService.findExisting (OrdersService.normalizeOab data) existing = None ->
  TicketsService.assignAvailableTicket w1 = (Returns tk, w2) ->
  let o := new_order data tk false w2 in
  OrdersService.createOrder_task data w =
  if fails (reply_at w2 0)
  then (Throws StoreError, order_append_rejected o w2)
  else (Returns (OrdersService.mkResult o None), order_appended o w2).
Proof.
  intros H0 He Ha o. unfold OrdersService.createOrder_task.
  erewrite bind_returns by reflexivity.
  erewrite bind_returns by (apply readAllOrders_fresh_accepted, H0).
  cbv zeta. rewrite He. cbn [defined negb].
  erewrite bind_returns by (eapply assignOrFail_returns, Ha).
  exact (createOrder_finish data tk None w2).
Qed.
End CreateOrder.

(** ** What the allocator leaves behind *)

Lemma row_at_lookup (rows : Sheet) (i : nat) (row : Row) :
  rows !! i = Some row -> row_at rows i = row.
Proof. intros H. unfold row_at. rewrite H. reflexivity. Qed.

Lemma ATRIBUIDO_nonempty : TicketsService.ATRIBUIDO <> [].
Proof. discriminate. Qed.

Lemma marked_row (row : Row) :
  let row' := write_cells 1 [TicketsService.ATRIBUIDO] row in
  text row' 1 = TicketsService.ATRIBUIDO /\
  forall k, k <> 1%nat -> text row' k = text row k.
Proof.
  intros row'. split.
  - unfold row', text, cell. rewrite write_cells_lookup. reflexivity.
  - intros k Hk. apply write_cells_text. simpl. lia.
Qed.

Lemma marked_row_not_available (row : Row) :
  available_row (write_cells 1 [TicketsService.ATRIBUIDO] row) = false.
Proof.
  unfold available_row. apply andb_false_iff. right.
  apply negb_false_iff, truthy_text.
  rewrite (proj1 (marked_row row)). exact ATRIBUIDO_nonempty.
Qed.

Lemma assign_effect (w : World) :
  exists r w', TicketsService.assignAvailableTicket w = (r, w') /\
    pedidos_sheet w' = pedidos_sheet w /\
    ((tickets_sheet w' = tickets_sheet w /\ exists e, r = Throws e) \/
     (exists i, findIndex TicketsService.is_available (tickets_sheet w) = Some i /\
                r = Returns (text (row_at (tickets_sheet w) i) 0) /\
                w' = marked i w)).
Proof.
  destruct (fails (reply_at w 0)) eqn:H0.
  { eexists _, _. split; [apply assign_read_rejected, H0|].
    split; [reflexivity|]. left. eauto. }
  destruct (findIndex TicketsService.is_available (tickets_sheet w)) as [i|] eqn:E.
  - destruct (fails (reply_at w 1)) eqn:H1.
    + eexists _, _. split; [apply assign_update_rejected; eassumption|].
      split; [reflexivity|]. left. eauto.
    + eexists _, _. split; [apply assign_marks; eassumption|].
      split; [reflexivity|]. right. eauto.
  - eexists _, _. split; [apply assign_none; assumption|].
    split; [reflexivity|]. left. eauto.
Qed.

(** C3: the allocator reads the tickets sheet afresh whatever the cache
    holds; with no row after the header that names a ticket and has an
    empty status it fails with NoTicketsError having made no other call;
    otherwise it writes the marker into the status cell of the first such
    row, clears the tickets cache and returns the ticket of that row. *)
Theorem assignAvailableTicket_scan_then_mark (w : World) :
  accepted 2 w ->
  let rows := tickets_sheet w in
  exists r w', TicketsService.assignAvailableTicket w = (r, w') /\
    (exists later, calls w' = later ++ ValuesGet TicketsSheet :: calls w) /\
    (((forall i, ~ available_at rows i) /\
      r = Throws NoTicketsError /\
      calls w' = ValuesGet TicketsSheet :: calls w /\
      tickets_sheet w' = rows /\ pedidos_sheet w' = pedidos_sheet w)
     \/
     (exists i row row',
        first_available rows i /\ rows !! i = Some row /\
        r = Returns (text row 0) /\
        calls w' = ValuesUpdate TicketsSheet i 1 [TicketsService.ATRIBUIDO]
                     :: ValuesGet TicketsSheet :: calls w /\
        tickets_sheet w' !! i = Some row' /\
        text row' 1 = TicketsService.ATRIBUIDO /\
        TicketsService.ATRIBUIDO <> [] /\
        (forall k, k <> 1%nat -> text row' k = text row k) /\
        (forall j, j <> i -> tickets_sheet w' !! j = rows !! j) /\
        length (tickets_sheet w') = length rows /\
        pedidos_sheet w' = pedidos_sheet w /\
        cache (tickets_mod w') = None)).
Proof.
  intros Hacc rows. subst rows. set (rows := tickets_sheet w).
  assert (H0 : fails (reply_at w 0) = false) by (apply Hacc; lia).
  assert (H1 : fails (reply_at w 1) = false) by (apply Hacc; lia).
  destruct (findIndex TicketsService.is_available rows) as [i|] eqn:E; subst rows.
  - eexists _, _. split; [apply assign_marks; eassumption|].
    split; [exists [ValuesUpdate TicketsSheet i 1 [TicketsService.ATRIBUIDO]];
            reflexivity|].
    right. pose proof (findIndex_lt _ _ _ E) as Hlt.
    apply findIndex_first_available in E.
    destruct E as [Hav Hfirst]. pose proof Hav as (_ & row & Hrow & _).
    set (rows := tickets_sheet w) in *.
    exists i, row, (write_cells 1 [TicketsService.ATRIBUIDO] row).
    destruct (marked_row row) as [Hst Hrest].
    split; [split; assumption|]. split; [exact Hrow|].
    split; [rewrite (row_at_lookup _ _ _ Hrow); reflexivity|].
    split; [reflexivity|].
    split; [exact (update_range_same i 1 _ row rows Hrow)|].
    split; [exact Hst|]. split; [exact ATRIBUIDO_nonempty|].
    split; [exact Hrest|].
    split; [intros j Hj; exact (update_range_other i 1 _ rows j Hlt Hj)|].
    split; [exact (update_range_length i 1 _ rows Hlt)|].
    split; reflexivity.
  - eexists _, _. split; [apply assign_none; assumption|].
    split; [exists []; reflexivity|].
    left. split; [apply findIndex_none_available, E|].
    repeat split; reflexivity.
Qed.

(** ** Allocation consumes the available tickets in row order *)

Lemma filter_alter_first {A} (p : A -> bool) (f : A -> A) (l : list A)
    (k : nat) (x : A) :
  l !! k = Some x -> p x = true -> p (f x) = false ->
  (forall j y, (j < k)%nat -> l !! j = Some y -> p y = false) ->
  List.filter p l = x :: List.filter p (alter f k l).
Proof.
  revert k. induction l as [|y l IH]; intros k Hx Hp Hf Hbefore; [discriminate|].
  destruct k as [|k]; simpl in Hx.
  - injection Hx as ->. cbn. rewrite Hp, Hf. reflexivity.
  - assert (Hy : p y = false) by (apply (Hbefore 0%nat); [lia|reflexivity]).
    cbn. rewrite Hy. apply IH; try assumption.
    intros j z Hj Hz. apply (Hbefore (S j)); [lia|exact Hz].
Qed.

Lemma available_tickets_consume (rows : Sheet) (i : nat) (row : Row) :
  first_available rows i -> rows !! i = Some row ->
  available_tickets rows =
  text row 0 :: available_tickets (update_range i 1 [TicketsService.ATRIBUIDO] rows).
Proof.
  intros Hfirst Hrow.
  apply findIndex_first_available in Hfirst.
  pose proof (findIndex_lt _ _ _ Hfirst) as Hlt.
  apply findIndex_Some in Hfirst as ((row0 & Hrow0 & Hav) & Hbefore).
  rewrite Hrow in Hrow0. injection Hrow0 as <-.
  rewrite update_range_in_range by exact Hlt.
  destruct rows as [|header rest]; [discriminate|].
  destruct i as [|k]; [discriminate|].
  unfold available_tickets. cbn [drop alter list_alter]. rewrite !drop_0.
  rewrite (filter_alter_first available_row
             (write_cells 1 [TicketsService.ATRIBUIDO]) rest k row).
  - reflexivity.
  - exact Hrow.
  - exact Hav.
  - apply marked_row_not_available.
  - intros j y Hj Hy. exact (Hbefore (S j) y ltac:(lia) Hy).
Qed.




Lemma withWriteLock_outcome {A} (m : Async A) (w : World) :
  exists r w', m w = (r, w') /\
    (withWriteLock m w = (r, w') \/
     withWriteLock m w = (Throws timeout_error, w')).
Proof.
  destruct (m w) as [r w'] eqn:E. exists r, w'. split; [reflexivity|].
  unfold withWriteLock. rewrite E. destruct (_ <=? _); auto.
Qed.

Lemma withWriteLock_timely {A} (m : Async A) (w w' : World) (r : Outcome A) :
  m w = (r, w') -> clock w' < clock w + LOCK_TIMEOUT_MS ->
  withWriteLock m w = (r, w').
Proof.
  intros E H. unfold withWriteLock. rewrite E.
  apply Z.leb_gt in H. rewrite H. reflexivity.
Qed.

Lemma createOrder_task_tickets (d : OrdersService.CreateOrderData) (w : World) :
  exists r w', OrdersService.createOrder_task d w = (r, w') /\
    ((tickets_sheet w' = tickets_sheet w /\ allocated_of r = None) \/
     (exists i row,
        first_available (tickets_sheet w) i /\ tickets_sheet w !! i = Some row /\
        tickets_sheet w' =
          update_range i 1 [TicketsService.ATRIBUIDO] (tickets_sheet w) /\
        (allocated_of r = None \/ allocated_of r = Some (text row 0)))).
Proof.
  destruct (fails (reply_at w 0)) eqn:H0.
  { eexists _, _. split; [apply createOrder_task_read_rejected, H0|].
    left. split; reflexivity. }
  destruct (OrdersService.findExisting (OrdersService.normalizeOab d)
              (OrdersService.decodeOrders (pedidos_sheet w))) as [e|] eqn:He.
  { pose proof (createOrder_task_duplicate d w e H0 He) as Hrun.
    cbv zeta in Hrun.
    destruct (fails (reply_at w 1)); eexists _, _; (split; [exact Hrun|]);
      left; split; reflexivity. }
  destruct (assign_effect (orders_fetched (OrdersService.cleared w)))
    as (ra & w2 & Ha & _ & [[Hsame [err ->]] | (i & Hi & -> & ->)]).
  - eexists _, _. split; [apply (createOrder_task_no_ticket d w w2 err H0 He Ha)|].
    left. split; [exact Hsame|reflexivity].
  - pose proof (createOrder_task_ticket d w _ _ H0 He Ha) as Hrun.
    cbv zeta in Hrun.
    change (tickets_sheet (orders_fetched (OrdersService.cleared w)))
      with (tickets_sheet w) in *.
    pose proof Hi as Hfirst. apply findIndex_first_available in Hfirst.
    destruct (proj1 Hfirst) as (_ & row & Hrow & _).
    rewrite (row_at_lookup _ _ _ Hrow) in Hrun.
    destruct (fails (reply_at (marked i _) 0)); eexists _, _;
      (split; [exact Hrun|]); right; exists i, row; (split; [exact Hfirst|]); (split; [exact Hrow|]);
      (split; [reflexivity|]).
    + left. reflexivity.
    + right. reflexivity.
Qed.




(** ** Duplicate detection *)

Lemma find_Some {A} (p : A -> bool) (l : list A) (x : A) :
  find p l = Some x ->
  exists before after, l = before ++ x :: after /\ p x = true /\
                       forall y, y ∈ before -> p y = false.
Proof.
  induction l as [|y l IH]; intros H; [discriminate|]. cbn in H.
  destruct (p y) eqn:Hp.
  - injection H as ->. exists [], l. split; [reflexivity|]. split; [exact Hp|].
    intros z Hz. inversion Hz.
  - destruct (IH H) as (before & after & -> & Hx & Hb).
    exists (y :: before), after. split; [reflexivity|]. split; [exact Hx|].
    intros z Hz. apply elem_of_cons in Hz as [->|Hz]; auto.
Qed.

Lemma find_None {A} (p : A -> bool) (l : list A) :
  find p l = None -> forall y, y ∈ l -> p y = false.
Proof.
  induction l as [|x l IH]; intros H y Hy; [inversion Hy|]. cbn in H.
  destruct (p x) eqn:Hp; [discriminate|].
  apply elem_of_cons in Hy as [->|Hy]; auto.
Qed.

Lemma eqb_true (a b : jsstring) : eqb a b = true <-> a = b.
Proof. unfold eqb. apply bool_decide_eq_true. Qed.

Lemma eqb_false (a b : jsstring) : eqb a b = false <-> a <> b.
Proof. unfold eqb. apply bool_decide_eq_false. Qed.


Lemma findExisting_None (n : jsstring) (existing : list Order) :
  OrdersService.findExisting n existing = None <-> no_duplicate n existing.
Proof.
  unfold OrdersService.findExisting, no_duplicate. split.
  - destruct n as [|c n]; [auto|]. cbn [truthy]. intros H. right.
    intros o Ho. apply eqb_false. exact (find_None _ _ H o Ho).
  - destruct n as [|c n]; [reflexivity|]. cbn [truthy].
    intros [H|H]; [discriminate|].
    destruct (find _ existing) as [e|] eqn:E; [|reflexivity].
    apply find_Some in E as (before & after & -> & Hx & _).
    apply eqb_true in Hx. exfalso. apply (H e); [|exact Hx].
    apply elem_of_app. right. left.
Qed.

Lemma no_duplicate_findExisting (n : jsstring) (existing : list Order) :
  no_duplicate n existing -> OrdersService.findExisting n existing = None.
Proof. apply findExisting_None. Qed.

(** ** Timing *)

Ltac timing :=
  repeat match goal with
         | H : forall k, (k <= ?n)%nat -> elapsed k ?w < _ |- _ =>
             pose proof (H 0%nat ltac:(lia));
             pose proof (H 1%nat ltac:(lia));
             try pose proof (H 2%nat ltac:(lia));
             try pose proof (H 3%nat ltac:(lia));
             try pose proof (H 4%nat ltac:(lia));
             clear H
         end;
  unfold marked, order_appended, order_append_rejected, orders_fetched,
    tickets_fetched, elapsed, reply_at in *;
  cbn in *; lia.


(** C5: when no row after the header names a ticket with an empty status
    and the input is no duplicate, order creation fails with
    NoTicketsError once the orders read has been answered, and it makes
    no append: the orders sheet is as it was. *)
Theorem createOrder_without_tickets
    (data : OrdersService.CreateOrderData) (w : World) :
  fails (reply_at w 0) = false ->
  (forall k, (k <= 2)%nat -> elapsed k w < LOCK_TIMEOUT_MS) ->
  no_duplicate (OrdersService.normalizeOab data)
    (OrdersService.decodeOrders (pedidos_sheet w)) ->
  (forall i, ~ available_at (tickets_sheet w) i) ->
  exists w', OrdersService.createOrder data w = (Throws NoTicketsError, w') /\
    pedidos_sheet w' = pedidos_sheet w /\
    tickets_sheet w' = tickets_sheet w /\
    calls w' = ValuesGet TicketsSheet :: ValuesGet PedidosSheet :: calls w.
Proof.
  intros H0 Htime Hnodup Hnone.
  apply no_duplicate_findExisting in Hnodup.
  apply findIndex_none_available in Hnone.
  set (w1 := orders_fetched (OrdersService.cleared w)).
  assert (Ha : exists err, TicketsService.assignAvailableTicket w1
                 = (Throws err, after_call (ValuesGet TicketsSheet) w1)).
  { destruct (fails (reply_at w1 0)) eqn:H1.
    - exists StoreError. apply assign_read_rejected, H1.
    - exists NoTicketsError. apply assign_none; assumption. }
  destruct Ha as [err Ha].
  pose proof (createOrder_task_no_ticket data w _ _ H0 Hnodup Ha) as Hrun.
  unfold OrdersService.createOrder. eexists. split.
  { apply (withWriteLock_timely _ _ _ _ Hrun). subst w1. timing. }
  repeat split; reflexivity.
Qed.

(** ** Updates in place *)

Lemma is_row_of_true (key : jsstring) (row : Row) (i : nat) :
  TicketsService.is_row_of key row i = true <-> (0 < i)%nat /\ cell row 0 = Some key.
Proof.
  unfold TicketsService.is_row_of.
  rewrite andb_true_iff, Nat.ltb_lt, bool_decide_eq_true. tauto.
Qed.

Lemma findIndex_first_keyed (key : jsstring) (rows : Sheet) (i : nat) :
  findIndex (TicketsService.is_row_of key) rows = Some i -> first_keyed key rows i.
Proof.
  intros H. apply findIndex_Some in H as ((row & Hrow & Hp) & Hb).
  apply is_row_of_true in Hp as [Hi Hkey]. split.
  - split; [exact Hi|]. exists row. auto.
  - intros j Hj (Hj0 & y & Hy & Hkeyy).
    assert (TicketsService.is_row_of key y j = true) as Ht
        by (apply is_row_of_true; auto).
    rewrite (Hb j y Hj Hy) in Ht. discriminate.
Qed.

Lemma findIndex_none_keyed (key : jsstring) (rows : Sheet) :
  findIndex (TicketsService.is_row_of key) rows = None ->
  forall i, ~ keyed_at key rows i.
Proof.
  intros H i (Hi & row & Hrow & Hkey).
  assert (TicketsService.is_row_of key row i = true) as Ht
      by (apply is_row_of_true; auto).
  rewrite (findIndex_None _ _ H i row Hrow) in Ht. discriminate.
Qed.

Lemma updateTicket_task_run (oldTicket newTicket : jsstring) (w : World) :
  let rows := tickets_sheet w in
  let w1 := after_call (ValuesGet TicketsSheet) (TicketsService.cleared w) in
  TicketsService.updateTicket_task oldTicket newTicket w =
  if fails (reply_at w 0) then (Throws StoreError, w1)
  else match findIndex (TicketsService.is_row_of oldTicket) rows with
       | None => (Throws (NotFoundError (lit "Ticket")), w1)
       | Some i =>
           let w2 := after_call (ValuesUpdate TicketsSheet i 0 [newTicket]) w1 in
           if fails (reply_at w 1) then (Throws StoreError, w2)
           else (Returns (Tickets.mk newTicket (text (row_at rows i) 1)),
                 TicketsService.cleared
                   (set_sheet TicketsSheet (update_range i 0 [newTicket] rows) w2))
       end.
Proof.
  intros rows w1. unfold TicketsService.updateTicket_task. subst rows w1.
  unfold findIndex. exec_world.
  destruct (fails (reply_of w (length (calls w)))); [reflexivity|]. cbn.
  destruct (findIndex_from _ 0 (tickets_sheet w)); [|reflexivity].
  exec_world. destruct (fails _); reflexivity.
Qed.

Lemma updateOrder_task_run (id : jsstring) (data : OrdersService.UpdateOrderData)
    (w : World) :
  let rows := pedidos_sheet w in
  let w1 := after_call (ValuesGet PedidosSheet) (OrdersService.cleared w) in
  OrdersService.updateOrder_task id data w =
  if fails (reply_at w 0) then (Throws StoreError, w1)
  else match findIndex (OrdersService.is_row_of id) rows with
       | None => (Throws (NotFoundError (lit "Order")), w1)
       | Some i =>
           let updated :=
             OrdersService.merge (OrdersService.rowToOrder (row_at rows i)) data in
           let cells := OrdersService.orderToRow updated in
           let w2 := after_call (ValuesUpdate PedidosSheet i 0 cells) w1 in
           if fails (reply_at w 1) then (Throws StoreError, w2)
           else (Returns updated,
                 OrdersService.cleared
                   (set_sheet PedidosSheet (update_range i 0 cells rows) w2))
       end.
Proof.
  intros rows w1. unfold OrdersService.updateOrder_task. subst rows w1.
  unfold findIndex. exec_world.
  destruct (fails (reply_of w (length (calls w)))); [reflexivity|]. cbn.
  destruct (findIndex_from _ 0 (pedidos_sheet w)); [|reflexivity].
  exec_world. destruct (fails _); reflexivity.
Qed.

Lemma rowToOrder_written (o : Order) (row : Row) :
  OrdersService.rowToOrder (write_cells 0 (OrdersService.orderToRow o) row) = o.
Proof.
  unfold OrdersService.rowToOrder, cell. rewrite !write_cells_lookup.
  destruct o. reflexivity.
Qed.

Lemma merge_merged (old : Order) (data : OrdersService.UpdateOrderData) :
  merged_over old data (OrdersService.merge old data).
Proof.
  unfold merged_over, OrdersService.merge, nullish. cbn.
  destruct data as [[?|] [?|] [?|] [?|] [?|] [?|] [?|] [?|]]; cbn;
    repeat split; reflexivity.
Qed.

(** C8: with the store answering, updateOrder fails with NotFound and
    leaves both sheets as they were when no row after the header carries
    the identifier; otherwise the first such row is rewritten so that it
    decodes to the order returned, which keeps the identifier, has the
    supplied value in each field the partial input has and the old value,
    unchanged, in every other field; no other row changes. *)
Theorem updateOrder_partial_merge
    (id : jsstring) (data : OrdersService.UpdateOrderData) (w : World) :
  responsive 2 w ->
  let rows := pedidos_sheet w in
  exists r w', OrdersService.updateOrder id data w = (r, w') /\
    (((forall i, ~ keyed_at id rows i) /\
      r = Throws (NotFoundError (lit "Order")) /\
      pedidos_sheet w' = rows /\ tickets_sheet w' = tickets_sheet w /\
      calls w' = ValuesGet PedidosSheet :: calls w)
     \/
     (exists i row row' updated,
        first_keyed id rows i /\ rows !! i = Some row /\
        r = Returns updated /\
        Orders.uuid updated = id /\
        merged_over (OrdersService.rowToOrder row) data updated /\
        pedidos_sheet w' !! i = Some row' /\
        OrdersService.rowToOrder row' = updated /\
        (forall j, j <> i -> pedidos_sheet w' !! j = rows !! j) /\
        length (pedidos_sheet w') = length rows /\
        tickets_sheet w' = tickets_sheet w)).
Proof.
  intros [Hacc Htime] rows.
  assert (H0 : fails (reply_at w 0) = false) by (apply Hacc; lia).
  assert (H1 : fails (reply_at w 1) = false) by (apply Hacc; lia).
  pose proof (updateOrder_task_run id data w) as Hrun. cbv zeta in Hrun.
  rewrite H0 in Hrun. fold rows in Hrun.
  unfold OrdersService.updateOrder.
  destruct (findIndex (OrdersService.is_row_of id) rows) as [i|] eqn:E.
  - rewrite H1 in Hrun. eexists _, _. split.
    { apply (withWriteLock_timely _ _ _ _ Hrun). timing. }
    right. pose proof (findIndex_lt _ _ _ E) as Hlt.
    apply findIndex_first_keyed in E as Hfirst.
    destruct (proj1 Hfirst) as (_ & row & Hrow & Hkey).
    rewrite (row_at_lookup _ _ _ Hrow).
    set (updated := OrdersService.merge (OrdersService.rowToOrder row) data).
    exists i, row, (write_cells 0 (OrdersService.orderToRow updated) row), updated.
    split; [exact Hfirst|]. split; [exact Hrow|]. split; [reflexivity|].
    split; [cbn; unfold or_empty; rewrite Hkey; reflexivity|].
    split; [apply merge_merged|].
    split; [exact (update_range_same i 0 _ row rows Hrow)|].
    split; [apply rowToOrder_written|].
    split; [intros j Hj; exact (update_range_other i 0 _ rows j Hlt Hj)|].
    split; [exact (update_range_length i 0 _ rows Hlt)|reflexivity].
  - eexists _, _. split.
    { apply (withWriteLock_timely _ _ _ _ Hrun). timing. }
    left. split; [apply findIndex_none_keyed, E|]. repeat split; reflexivity.
Qed.

(** C10: a rename that succeeds overwrites the first cell of the first
    row after the header that carries the old ticket and nothing else:
    every other cell of that row, the status cell among them, and every
    other row are as before, and the ticket returned carries the status
    the row had; an available ticket stays available, an assigned one
    stays assigned. *)
Theorem updateTicket_keeps_status
    (oldTicket newTicket : jsstring) (w : World) (t : Ticket) :
  fst (TicketsService.updateTicket oldTicket newTicket w) = Returns t ->
  let rows := tickets_sheet w in
  let rows' := tickets_sheet (snd (TicketsService.updateTicket oldTicket newTicket w)) in
  exists i row row',
    first_keyed oldTicket rows i /\ rows !! i = Some row /\
    rows' !! i = Some row' /\
    cell row' 0 = Some newTicket /\
    (forall k, k <> 0%nat -> cell row' k = cell row k) /\
    text row' 1 = text row 1 /\
    (forall j, j <> i -> rows' !! j = rows !! j) /\
    length rows' = length rows /\
    t = Tickets.mk newTicket (text row 1).
Proof.
  intros Hret rows rows'. subst rows'.
  unfold TicketsService.updateTicket in *.
  destruct (withWriteLock_outcome
              (TicketsService.updateTicket_task oldTicket newTicket) w)
    as (r & w' & Hrun & [Hw | Hw]); rewrite Hw in *; cbn [fst snd] in *;
    [|discriminate].
  subst r. rewrite updateTicket_task_run in Hrun. cbv zeta in Hrun.
  fold rows in Hrun.
  destruct (fails (reply_at w 0)); [discriminate|].
  destruct (findIndex (TicketsService.is_row_of oldTicket) rows) as [i|] eqn:E;
    [|discriminate].
  destruct (fails (reply_at w 1)); [discriminate|].
  injection Hrun as <- <-.
  pose proof (findIndex_lt _ _ _ E) as Hlt.
  apply findIndex_first_keyed in E as Hfirst.
  destruct (proj1 Hfirst) as (_ & row & Hrow & Hkey).
  exists i, row, (write_cells 0 [newTicket] row).
  assert (Hcells : forall k, k <> 0%nat ->
            cell (write_cells 0 [newTicket] row) k = cell row k).
  { intros k Hk. unfold cell. rewrite write_cells_lookup.
    destruct (decide (k < 0)%nat); [lia|].
    destruct (decide (k < 0 + length [newTicket])%nat); [cbn in *; lia|].
    reflexivity. }
  split; [exact Hfirst|]. split; [exact Hrow|].
  split; [exact (update_range_same i 0 _ row rows Hrow)|].
  split; [unfold cell; rewrite write_cells_lookup; reflexivity|].
  split; [exact Hcells|].
  split; [unfold text; rewrite Hcells by lia; reflexivity|].
  split; [intros j Hj; exact (update_range_other i 0 _ rows j Hlt Hj)|].
  split; [exact (update_range_length i 0 _ rows Hlt)|].
  rewrite (row_at_lookup _ _ _ Hrow). reflexivity.
Qed.

(** ** The cache *)

Lemma CACHE_TTL_five_minutes : CACHE_TTL = 300000.
Proof. reflexivity. Qed.

Lemma not_served_miss {A} (m : ModuleState A) (now : Z) :
  (forall c, ~ served_from_cache m now c) ->
  cache m = None \/ CACHE_TTL <= now - cacheTime m.
Proof.
  intros H. destruct (cache m) as [c|] eqn:Hc; [|left; reflexivity].
  right. rewrite CACHE_TTL_five_minutes.
  destruct (Z_lt_le_dec (now - cacheTime m) 300000) as [Hlt|Hle]; [|exact Hle].
  exfalso. apply (H c). split; assumption.
Qed.

Lemma served_or_not {A} (m : ModuleState A) (now : Z) :
  (exists c, served_from_cache m now c) \/ (forall c, ~ served_from_cache m now c).
Proof.
  unfold served_from_cache. destruct (cache m) as [c|].
  - destruct (Z_lt_le_dec (now - cacheTime m) 300000) as [Hlt|Hle].
    + left. exists c. auto.
    + right. intros c' [_ H]. lia.
  - right. intros c [H _]. discriminate.
Qed.

Lemma decodeTickets_named (rows : Sheet) :
  TicketsService.decodeTickets rows =
  map TicketsService.rowToTicket
    (List.filter (fun row => truthy (text row 0)) (drop 1 rows)).
Proof.
  unfold TicketsService.decodeTickets. f_equal. apply List.filter_ext.
  intros row. unfold text, or_empty, cell.
  destruct (row !! 0%nat) as [[|]|]; reflexivity.
Qed.

(** C9 as the code has it: a cache read returns the snapshot, touching
    neither the store nor the world, exactly when a snapshot is present
    and younger than five minutes; otherwise it reads the range and, if
    the read is answered, returns, stores and stamps with the time of
    capture the decoding of the rows after the header, which for orders
    is every such row and for tickets every such row that names a
    ticket; invalidation empties the cache whatever it held and doing it
    twice is doing it once. *)
Theorem cache_read_through (w : World) :
  (* orders *)
  ((exists c, served_from_cache (orders_mod w) (clock w) c /\
              OrdersService.readAllOrders w = (Returns c, w))
   \/
   ((forall c, ~ served_from_cache (orders_mod w) (clock w) c) /\
    exists r w', OrdersService.readAllOrders w = (r, w') /\
      calls w' = ValuesGet PedidosSheet :: calls w /\
      pedidos_sheet w' = pedidos_sheet w /\
      if fails (reply_at w 0) then r = Throws StoreError
      else let orders := map OrdersService.rowToOrder (drop 1 (pedidos_sheet w)) in
           r = Returns orders /\
           cache (orders_mod w') = Some orders /\
           cacheTime (orders_mod w') = clock w' /\
           clock w' = clock w + took (reply_at w 0)))
  /\
  (* tickets *)
  ((exists c, served_from_cache (tickets_mod w) (clock w) c /\
              TicketsService.readAllTickets w = (Returns c, w))
   \/
   ((forall c, ~ served_from_cache (tickets_mod w) (clock w) c) /\
    exists r w', TicketsService.readAllTickets w = (r, w') /\
      calls w' = ValuesGet TicketsSheet :: calls w /\
      tickets_sheet w' = tickets_sheet w /\
      if fails (reply_at w 0) then r = Throws StoreError
      else let tickets :=
             map TicketsService.rowToTicket
               (List.filter (fun row => truthy (text row 0))
                  (drop 1 (tickets_sheet w))) in
           r = Returns tickets /\
           cache (tickets_mod w') = Some tickets /\
           cacheTime (tickets_mod w') = clock w' /\
           clock w' = clock w + took (reply_at w 0)))
  /\
  (* invalidation *)
  (OrdersService.invalidateCache w = (Returns tt, OrdersService.cleared w) /\
   cache (orders_mod (OrdersService.cleared w)) = None /\
   OrdersService.cleared (OrdersService.cleared w) = OrdersService.cleared w /\
   TicketsService.invalidateCache w = (Returns tt, TicketsService.cleared w) /\
   cache (tickets_mod (TicketsService.cleared w)) = None /\
   TicketsService.cleared (TicketsService.cleared w) = TicketsService.cleared w).
Proof.
  split; [|split].
  - destruct (served_or_not (orders_mod w) (clock w)) as [[c Hc] | Hnone].
    + left. exists c. split; [exact Hc|]. destruct Hc as [Hc Hage].
      apply readAllOrders_hit; [exact Hc|]. rewrite CACHE_TTL_five_minutes. exact Hage.
    + right. split; [exact Hnone|].
      rewrite (readAllOrders_miss w (not_served_miss _ _ Hnone)).
      destruct (fails (reply_at w 0)); eexists _, _; (split; [reflexivity|]);
        repeat split; reflexivity.
  - destruct (served_or_not (tickets_mod w) (clock w)) as [[c Hc] | Hnone].
    + left. exists c. split; [exact Hc|]. destruct Hc as [Hc Hage].
      apply readAllTickets_hit; [exact Hc|]. rewrite CACHE_TTL_five_minutes. exact Hage.
    + right. split; [exact Hnone|].
      rewrite (readAllTickets_miss w (not_served_miss _ _ Hnone)).
      destruct (fails (reply_at w 0)); eexists _, _; (split; [reflexivity|]);
        cbv zeta; rewrite <- ?decodeTickets_named; repeat split; reflexivity.
  - repeat split; reflexivity.
Qed.

(** C9 as stated fails for tickets: a row after the header whose ticket
    cell is empty is not decoded, it is left out of what the read
    returns. *)
Lemma readAllTickets_leaves_out_unnamed_rows :
  let w := sample_world prompt in
  (forall c, ~ served_from_cache (tickets_mod w) (clock w) c) /\
  fails (reply_at w 0) = false /\
  fst (TicketsService.readAllTickets w)
  <> Returns (map TicketsService.rowToTicket (drop 1 (tickets_sheet w))) /\
  fst (TicketsService.readAllTickets w)
  = Returns [Tickets.mk (lit "68637750800") TicketsService.ATRIBUIDO;
             Tickets.mk (lit "11111111111") [];
             Tickets.mk (lit "22222222222") []].
Proof.
  cbv zeta. split; [intros c [H _]; discriminate|].
  split; [reflexivity|]. split; [|reflexivity].
  vm_compute. discriminate.
Qed.

(** ** How rejections of the store surface *)

Section Reports.
Context {A : Type} (P : StoreCall -> Error -> Prop).




End Reports.






Lemma quiet_id : quiet id.
Proof. intros w. split; reflexivity. Qed.

Lemma quiet_set_sheet (s : SheetName) (f : World -> Sheet) :
  quiet (fun w => set_sheet s (f w) w).
Proof. intros w. destruct s; split; reflexivity. Qed.

Lemma quiet_set_tickets_mod (f : World -> ModuleState Ticket) :
  quiet (fun w => set_tickets_mod (f w) w).
Proof. intros w. split; reflexivity. Qed.

Lemma quiet_set_orders_mod (f : World -> ModuleState Order) :
  quiet (fun w => set_orders_mod (f w) w).
Proof. intros w. split; reflexivity. Qed.

Create HintDb reports discriminated.

#[local] Hint Resolve quiet_id quiet_set_sheet quiet_set_tickets_mod
  quiet_set_orders_mod : reports.

#[local] Hint Unfold values_get values_append values_update spreadsheets_get
  batch_delete_row
  TicketsService.invalidateCache TicketsService.cleared
  TicketsService.readAllTickets TicketsService.getSheetId
  OrdersService.invalidateCache OrdersService.cleared
  OrdersService.readAllOrders OrdersService.getSheetId : reports.






(** A rejection inside a task comes out as the store's failure ... *)







Lemma withWriteLock_snd {A} (m : Async A) (w : World) :
  snd (withWriteLock m w) = snd (m w).
Proof. unfold withWriteLock. destruct (m w) as [r w']. destruct (_ <=? _); reflexivity. Qed.


Lemma perform_world (op : WriteOp) (w : World) :
  snd (perform op w) = snd (task_of op w).
Proof. destruct op; exact (withWriteLock_snd _ w). Qed.





(** ** What a failed write leaves in the cache *)

Lemma rejected_between_inv (w w' : World) (cs : list StoreCall) :
  calls w' = cs ++ calls w -> rejected_between w w' ->
  exists i, (i < length cs)%nat /\ fails (reply_at w i) = true.
Proof.
  intros Hc (k & Hk & Hf). rewrite Hc, length_app in Hk.
  exists (k - length (calls w))%nat. split; [lia|].
  unfold reply_at. replace (k - length (calls w) + length (calls w))%nat with k by lia.
  exact Hf.
Qed.





Lemma createTicket_task_run (tk : jsstring) (w : World) :
  let w1 := tickets_fetched (TicketsService.cleared w) in
  let existing := TicketsService.decodeTickets (tickets_sheet w) in
  TicketsService.createTicket_task tk w =
  if fails (reply_at w 0)
  then (Throws StoreError,
        after_call (ValuesGet TicketsSheet) (TicketsService.cleared w))
  else if some (fun t => eqb (Tickets.ticket t) tk) existing
       then (Throws (ConflictError (lit "Ticket already exists")), w1)
       else if fails (reply_at w 1)
            then (Throws StoreError, after_call (ValuesAppend TicketsSheet [tk; []]) w1)
            else (Returns (Tickets.mk tk []),
                  TicketsService.cleared
                    (set_sheet TicketsSheet (append_row [tk; []] (tickets_sheet w))
                       (after_call (ValuesAppend TicketsSheet [tk; []]) w1))).
Proof.
  intros w1 existing. unfold TicketsService.createTicket_task.
  erewrite bind_returns by reflexivity. unfold bind at 1.
  rewrite readAllTickets_miss by (left; reflexivity).
  change (reply_at (TicketsService.cleared w) 0) with (reply_at w 0).
  destruct (fails (reply_at w 0)); [reflexivity|].
  change (tickets_sheet (TicketsService.cleared w)) with (tickets_sheet w).
  fold existing w1.
  destruct (some _ existing); [reflexivity|].
  subst w1. unfold tickets_fetched. exec_world.
  destruct (fails _); reflexivity.
Qed.





(** ** The promise chain *)

Section WriteLockFacts.
Import WriteLock.
Context {S V : Type}.

Implicit Types (j : Job S V) (js : list (Job S V)) (l : Lock S V).

Lemma phase_cases j :
  (is_queued j = true /\ is_running j = false /\ is_finished j = false) \/
  (is_queued j = false /\ is_running j = true /\ is_finished j = false) \/
  (is_queued j = false /\ is_running j = false /\ is_finished j = true).
Proof. unfold is_queued, is_running, is_finished. destruct (phase j); auto. Qed.

Lemma all_queued_in_order js : forallb is_queued js = true -> in_order js = true.
Proof.
  destruct js as [|j js]; [reflexivity|]. cbn. intros H.
  apply andb_true_iff in H as [Hj Hjs].
  unfold is_queued in Hj. destruct (phase j); try discriminate. exact Hjs.
Qed.

Lemma all_queued_lookup js k j :
  forallb is_queued js = true -> js !! k = Some j -> is_queued j = true.
Proof.
  intros H Hk. rewrite forallb_forall in H. apply H.
  apply list_elem_of_In. eapply list_elem_of_lookup_2, Hk.
Qed.

Lemma all_queued_app js j :
  forallb is_queued js = true -> is_queued j = true ->
  forallb is_queued (js ++ [j]) = true.
Proof. intros H Hj. rewrite forallb_app, H. cbn. rewrite Hj. reflexivity. Qed.

Lemma in_order_submit js j :
  in_order js = true -> is_queued j = true -> in_order (js ++ [j]) = true.
Proof.
  intros H Hj. induction js as [|x js IH]; cbn in *.
  - unfold is_queued in Hj. destruct (phase j); try discriminate. reflexivity.
  - destruct (phase x); auto using all_queued_app.
Qed.

Lemma chain_fulfilled_hooked l k :
  chain_fulfilled l k = true -> hooked_on_fulfilled (jobs l) k.
Proof.
  unfold chain_fulfilled. destruct k as [|k]; [exact (fun _ => I)|].
  cbn. destruct (jobs l !! k) as [jp|]; [|discriminate]. eauto.
Qed.

Lemma in_order_start js k j j' :
  in_order js = true -> js !! k = Some j -> is_queued j = true ->
  hooked_on_fulfilled js k -> is_running j' = true ->
  in_order (<[k := j']> js) = true /\
  (forall i ji, (i < k)%nat -> js !! i = Some ji -> is_finished ji = true).
Proof.
  revert k. induction js as [|x js IH]; intros k Hord Hk Hq Hhook Hrun;
    [discriminate|].
  destruct k as [|k]; cbn in Hk.
  - injection Hk as ->. split; [|intros i ji Hi; lia]. cbn in *.
    unfold is_queued in Hq. unfold is_running in Hrun.
    destruct (phase j); try discriminate. destruct (phase j'); try discriminate.
    exact Hord.
  - cbn in Hord. cbn [insert list_insert]. cbn.
    destruct (phase_cases x) as [Hx | [Hx | Hx]].
    + (* the head is queued: nothing behind it can be hooked on a fulfilled promise *)
      exfalso. unfold is_queued in Hx. destruct Hx as (Hx & _).
      destruct (phase x) eqn:Hpx; try discriminate.
      destruct k as [|k]; cbn in Hhook; destruct Hhook as (jp & Hjp & Hfin).
      * cbn in Hjp. injection Hjp as <-. unfold is_finished in Hfin.
        rewrite Hpx in Hfin. discriminate.
      * cbn in Hjp. pose proof (all_queued_lookup _ _ _ Hord Hjp) as Hqp.
        destruct (phase_cases jp) as [H|[H|H]]; destruct H as (? & ? & ?); congruence.
    + exfalso. unfold is_running in Hx. destruct Hx as (_ & Hx & _).
      destruct (phase x) eqn:Hpx; try discriminate.
      destruct k as [|k]; cbn in Hhook; destruct Hhook as (jp & Hjp & Hfin).
      * cbn in Hjp. injection Hjp as <-. unfold is_finished in Hfin.
        rewrite Hpx in Hfin. discriminate.
      * cbn in Hjp. pose proof (all_queued_lookup _ _ _ Hord Hjp) as Hqp.
        destruct (phase_cases jp) as [H|[H|H]]; destruct H as (? & ? & ?); congruence.
    + destruct Hx as (_ & _ & Hx). pose proof Hx as Hx'. unfold is_finished in Hx.
      destruct (phase x) eqn:Hpx; try discriminate.
      assert (Hhook' : hooked_on_fulfilled js k).
      { destruct k as [|k]; [exact I|]. exact Hhook. }
      destruct (IH k Hord Hk Hq Hhook' Hrun) as [Hord' Hbefore].
      split; [exact Hord'|].
      intros [|i] ji Hi Hji; cbn in Hji.
      * injection Hji as <-. exact Hx'.
      * apply (Hbefore i); [lia|exact Hji].
Qed.

Lemma in_order_running js k j :
  in_order js = true -> js !! k = Some j -> is_running j = true ->
  (forall i ji, (i < k)%nat -> js !! i = Some ji -> is_finished ji = true) /\
  (forall i ji, (k < i)%nat -> js !! i = Some ji -> is_queued ji = true) /\
  (forall j', is_running j' = true -> in_order (<[k := j']> js) = true) /\
  (forall j', is_finished j' = true -> in_order (<[k := j']> js) = true).
Proof.
  revert k. induction js as [|x js IH]; intros k Hord Hk Hrun; [discriminate|].
  destruct k as [|k]; cbn in Hk.
  - injection Hk as ->. cbn in Hord. unfold is_running in Hrun.
    destruct (phase j) eqn:Hpj; try discriminate.
    split; [intros i ji Hi; lia|]. split.
    { intros [|i] ji Hi Hji; [lia|]. cbn in Hji.
      exact (all_queued_lookup _ _ _ Hord Hji). }
    split; intros j' Hj'; cbn.
    + unfold is_running in Hj'. destruct (phase j'); try discriminate. exact Hord.
    + unfold is_finished in Hj'. destruct (phase j'); try discriminate.
      apply all_queued_in_order, Hord.
  - cbn in Hord. destruct (phase x) eqn:Hpx.
    + exfalso. pose proof (all_queued_lookup _ _ _ Hord Hk) as Hq.
      destruct (phase_cases j) as [H|[H|H]]; destruct H as (? & ? & ?); congruence.
    + exfalso. pose proof (all_queued_lookup _ _ _ Hord Hk) as Hq.
      destruct (phase_cases j) as [H|[H|H]]; destruct H as (? & ? & ?); congruence.
    + destruct (IH k Hord Hk Hrun) as (Hbefore & Hafter & Hstay & Hdone).
      split.
      { intros [|i] ji Hi Hji; cbn in Hji.
        - injection Hji as <-. unfold is_finished. rewrite Hpx. reflexivity.
        - apply (Hbefore i); [lia|exact Hji]. }
      split.
      { intros [|i] ji Hi Hji; [lia|]. cbn in Hji.
        apply (Hafter i); [lia|exact Hji]. }
      split; intros j' Hj'; cbn; rewrite Hpx; auto.
Qed.

Lemma in_order_one_running js i k ji jk :
  in_order js = true -> js !! i = Some ji -> js !! k = Some jk ->
  is_running ji = true -> is_running jk = true -> i = k.
Proof.
  intros Hord Hi Hk Hri Hrk.
  destruct (in_order_running js i ji Hord Hi Hri) as (_ & Hafter_i & _).
  destruct (in_order_running js k jk Hord Hk Hrk) as (_ & Hafter_k & _).
  destruct (Nat.lt_trichotomy i k) as [Hlt | [Heq | Hgt]]; [|exact Heq|].
  - pose proof (Hafter_i k jk Hlt Hk) as Hq.
    destruct (phase_cases jk) as [H|[H|H]]; destruct H as (? & ? & ?); congruence.
  - pose proof (Hafter_k i ji Hgt Hi) as Hq.
    destruct (phase_cases ji) as [H|[H|H]]; destruct H as (? & ? & ?); congruence.
Qed.

(** *** The tasks take effect one after the other *)

Lemma run_seq_app (ts1 ts2 : list (Task S V)) (s : S) :
  run_seq (ts1 ++ ts2) s =
  let (s1, rs1) := run_seq ts1 s in
  let (s2, rs2) := run_seq ts2 s1 in
  (s2, rs1 ++ rs2).
Proof.
  revert s. induction ts1 as [|t ts1 IH]; intros s; cbn.
  - destruct (run_seq ts2 s). reflexivity.
  - destruct (run_task t s) as [s1 r]. rewrite IH.
    destruct (run_seq ts1 s1) as [s2 rs1]. destruct (run_seq ts2 s2). reflexivity.
Qed.

Lemma map_insert_same {B} (f : Job S V -> B) js k j j' :
  js !! k = Some j -> f j' = f j -> map f (<[k := j']> js) = map f js.
Proof.
  revert k. induction js as [|x js IH]; intros k Hk Hf; [reflexivity|].
  destruct k as [|k]; cbn in Hk.
  - injection Hk as ->. cbn. rewrite Hf. reflexivity.
  - cbn. f_equal. exact (IH k Hk Hf).
Qed.

Lemma run_seq_resume js k j j' (s : S) act next :
  js !! k = Some j ->
  (forall i ji, (i < k)%nat -> js !! i = Some ji -> is_finished ji = true) ->
  remaining j = Segment act next -> remaining j' = next s ->
  run_seq (map remaining (<[k := j']> js)) (act s) = run_seq (map remaining js) s.
Proof.
  revert k. induction js as [|x js IH]; intros k Hk Hbefore Hj Hj'; [discriminate|].
  destruct k as [|k]; cbn in Hk.
  - injection Hk as ->. cbn. rewrite Hj, Hj'. reflexivity.
  - assert (Hx : is_finished x = true) by (apply (Hbefore 0%nat); [lia|reflexivity]).
    assert (Hrx : exists r, remaining x = Settle r).
    { unfold remaining. unfold is_finished in Hx.
      destruct (phase x); try discriminate. eauto. }
    destruct Hrx as [r Hr].
    change (<[Datatypes.S k := j']> (x :: js)) with (x :: <[k := j']> js).
    cbn [map run_seq]. rewrite Hr. cbn [run_task].
    rewrite (IH k Hk); [reflexivity| |exact Hj|exact Hj'].
    intros i ji Hi Hji. apply (Hbefore (Datatypes.S i)); [lia|exact Hji].
Qed.

(** *** The trace *)

Lemma sorted_snoc (t : list nat) (k : nat) :
  StronglySorted le t -> (forall x, x ∈ t -> (x <= k)%nat) ->
  StronglySorted le (t ++ [k]).
Proof.
  induction 1 as [|x t Hs IH Hx]; intros Hle; cbn.
  - repeat constructor.
  - constructor.
    + apply IH. intros y Hy. apply Hle. right. exact Hy.
    + apply Forall_app. split; [exact Hx|].
      constructor; [|constructor]. apply Hle. left.
Qed.

(** *** Promises *)

Lemma promise_ok_later (t t' : Z) j : t <= t' -> promise_ok t j -> promise_ok t' j.
Proof.
  unfold promise_ok. intros Ht. destruct (phase j); [auto| |].
  - intros [H | [H1 H2]]; [left; exact H|right; split; [lia|exact H2]].
  - intros [H1 H2]. split; [lia|exact H2].
Qed.

(** *** Every event keeps the invariant *)

Lemma fire_inv (s0 : S) (ev : Event S V) l l' :
  chain_inv s0 l -> fire ev l = Some l' -> chain_inv s0 l'.
Proof.
  intros (Hord & Hstarted & Hsorted & Hseq & Hprom) Hfire.
  destruct ev as [task | k | k | k | k | d]; cbn in Hfire.
  - (* Submit *)
    injection Hfire as <-. unfold chain_inv, finish_off, trace_started in *. cbn.
    split; [apply in_order_submit; [exact Hord|reflexivity]|].
    split.
    { intros k Hk. destruct (Hstarted k Hk) as (j & Hj & Hq).
      exists j. split; [|exact Hq]. apply lookup_app_l_Some, Hj. }
    split; [exact Hsorted|]. split.
    + rewrite !map_app, !run_seq_app, Hseq. reflexivity.
    + apply Forall_app. split; [exact Hprom|]. repeat constructor.
  - (* Start *)
    destruct (jobs l !! k) as [[f ph p]|] eqn:Hk; [|discriminate].
    destruct ph; try discriminate.
    destruct (chain_fulfilled l k) eqn:Hhook; [|discriminate].
    injection Hfire as <-. apply chain_fulfilled_hooked in Hhook.
    destruct (in_order_start (jobs l) k _ (mkJob f (Running f (now l)) p)
                Hord Hk eq_refl Hhook eq_refl) as [Hord' _].
    unfold chain_inv, finish_off, trace_started in *. cbn.
    split; [exact Hord'|]. split.
    { intros i Hi. destruct (Hstarted i Hi) as (j & Hj & Hq).
      destruct (decide (i = k)) as [->|Hne].
      - rewrite Hk in Hj. injection Hj as <-. discriminate.
      - exists j. rewrite list_lookup_insert_ne by congruence. auto. }
    split; [exact Hsorted|]. split.
    + rewrite (map_insert_same remaining _ _ _ _ Hk) by reflexivity.
      rewrite (map_insert_same fn _ _ _ _ Hk) by reflexivity. exact Hseq.
    + apply Forall_insert; [exact Hprom|].
      pose proof (proj1 (Forall_lookup _ _) Hprom k _ Hk) as Hp.
      unfold promise_ok in *. cbn in *. left. exact Hp.
  - (* Resume *)
    destruct (jobs l !! k) as [[f ph p]|] eqn:Hk; [|discriminate].
    destruct ph as [|[r|act next] t0|]; try discriminate.
    injection Hfire as <-.
    destruct (in_order_running (jobs l) k _ Hord Hk eq_refl)
      as (Hbefore & Hafter & Hstay & _).
    unfold chain_inv, finish_off, trace_started in *. cbn.
    split; [apply Hstay; reflexivity|]. split.
    { intros i Hi. apply elem_of_app in Hi as [Hi|Hi].
      - destruct (Hstarted i Hi) as (j & Hj & Hq).
        destruct (decide (i = k)) as [->|Hne].
        + eexists. rewrite list_lookup_insert_eq by (eapply lookup_lt_Some, Hk).
          split; reflexivity.
        + exists j. rewrite list_lookup_insert_ne by congruence. auto.
      - apply list_elem_of_singleton in Hi as ->.
        eexists. rewrite list_lookup_insert_eq by (eapply lookup_lt_Some, Hk).
        split; reflexivity. }
    split.
    { apply sorted_snoc; [exact Hsorted|]. intros x Hx.
      destruct (Hstarted x Hx) as (j & Hj & Hq).
      destruct (decide (x <= k)%nat) as [Hle|Hgt]; [exact Hle|].
      rewrite (Hafter x j ltac:(lia) Hj) in Hq. discriminate. }
    split.
    + rewrite (run_seq_resume (jobs l) k _ _ (store l) act next Hk Hbefore)
        by reflexivity.
      rewrite (map_insert_same fn _ _ _ _ Hk) by reflexivity. exact Hseq.
    + apply Forall_insert; [exact Hprom|].
      pose proof (proj1 (Forall_lookup _ _) Hprom k _ Hk) as Hp. exact Hp.
  - (* Complete *)
    destruct (jobs l !! k) as [[f ph p]|] eqn:Hk; [|discriminate].
    destruct ph as [|[r|act next] t0|]; try discriminate.
    injection Hfire as <-.
    destruct (in_order_running (jobs l) k _ Hord Hk eq_refl)
      as (_ & Hafter & _ & Hdone).
    unfold chain_inv, finish_off, trace_started in *. cbn.
    split; [apply Hdone; reflexivity|]. split.
    { intros i Hi. destruct (Hstarted i Hi) as (j & Hj & Hq).
      destruct (decide (i = k)) as [->|Hne].
      - eexists. rewrite list_lookup_insert_eq by (eapply lookup_lt_Some, Hk).
        split; reflexivity.
      - exists j. rewrite list_lookup_insert_ne by congruence. auto. }
    split; [exact Hsorted|]. split.
    + rewrite (map_insert_same remaining _ _ _ _ Hk) by reflexivity.
      rewrite (map_insert_same fn _ _ _ _ Hk) by reflexivity. exact Hseq.
    + apply Forall_insert; [exact Hprom|].
      pose proof (proj1 (Forall_lookup _ _) Hprom k _ Hk) as Hp.
      unfold promise_ok in *. cbn in *. split; [lia|].
      destruct Hp as [-> | [Hdue ->]]; [left; reflexivity|right].
      split; [exact Hdue|reflexivity].
  - (* Timer *)
    destruct (jobs l !! k) as [[f ph p]|] eqn:Hk; [|discriminate].
    destruct ph as [|rest t0|]; try discriminate.
    destruct (t0 + LOCK_TIMEOUT_MS <=? now l) eqn:Hdue; [|discriminate].
    injection Hfire as <-. apply Z.leb_le in Hdue.
    destruct (in_order_running (jobs l) k _ Hord Hk eq_refl)
      as (_ & _ & Hstay & _).
    unfold chain_inv, finish_off, trace_started in *. cbn.
    split; [apply Hstay; reflexivity|]. split.
    { intros i Hi. destruct (Hstarted i Hi) as (j & Hj & Hq).
      destruct (decide (i = k)) as [->|Hne].
      - eexists. rewrite list_lookup_insert_eq by (eapply lookup_lt_Some, Hk).
        split; reflexivity.
      - exists j. rewrite list_lookup_insert_ne by congruence. auto. }
    split; [exact Hsorted|]. split.
    + rewrite (map_insert_same remaining _ _ _ _ Hk) by reflexivity.
      rewrite (map_insert_same fn _ _ _ _ Hk) by reflexivity. exact Hseq.
    + apply Forall_insert; [exact Hprom|].
      pose proof (proj1 (Forall_lookup _ _) Hprom k _ Hk) as Hp.
      unfold promise_ok in *. cbn in *.
      destruct Hp as [-> | [_ ->]]; right; split; try exact Hdue; reflexivity.
  - (* Tick *)
    destruct (0 <=? d) eqn:Hd; [|discriminate]. injection Hfire as <-.
    apply Z.leb_le in Hd.
    unfold chain_inv, finish_off, trace_started in *. cbn.
    repeat (split; [assumption|]).
    eapply Forall_impl; [exact Hprom|]. intros j. apply promise_ok_later. lia.
Qed.

Lemma init_inv (s0 : S) : chain_inv s0 (init s0 : Lock S V).
Proof.
  unfold chain_inv, init, finish_off, trace_started. cbn.
  split; [reflexivity|]. split; [intros k Hk; inversion Hk|].
  split; [constructor|]. split; [reflexivity|constructor].
Qed.

Lemma run_inv (s0 : S) (evs : list (Event S V)) l l' :
  chain_inv s0 l -> WriteLock.run evs l = Some l' -> chain_inv s0 l'.
Proof.
  revert l. induction evs as [|ev evs IH]; intros l Hinv Hrun; cbn in Hrun.
  - injection Hrun as <-. exact Hinv.
  - destruct (fire ev l) as [l1|] eqn:Hfire; [|discriminate].
    eapply IH; [eapply fire_inv; eassumption|exact Hrun].
Qed.

(** *** The chain can always be drained *)

Lemma run_app (evs1 evs2 : list (Event S V)) l :
  WriteLock.run (evs1 ++ evs2) l =
  match WriteLock.run evs1 l with
  | Some l1 => WriteLock.run evs2 l1
  | None => None
  end.
Proof.
  revert l. induction evs1 as [|ev evs1 IH]; intros l; cbn; [reflexivity|].
  destruct (fire ev l); [apply IH|reflexivity].
Qed.

Lemma task_events_run (t : Task S V) :
  forall (s : S) (k : nat) f t0 p l,
    jobs l !! k = Some (mkJob f (Running t t0) p) -> store l = s ->
    exists l',
      WriteLock.run (task_events k t s) l = Some l' /\
      store l' = fst (run_task t s) /\ now l' = now l /\
      jobs l' = <[k := mkJob f (Finished (snd (run_task t s)) t0 (now l))
                          (settle (snd (run_task t s)) p)]> (jobs l).
Proof.
  induction t as [r | act next IH]; intros s k f t0 p l Hk Hs.
  - cbn. rewrite Hk. eexists. split; [reflexivity|]. cbn. auto.
  - cbn [task_events WriteLock.run fire]. rewrite Hk. rewrite Hs.
    set (l1 := mkLock (<[k := mkJob f (Running (next s) t0) p]> (jobs l))
                 (act s) (now l) (trace l ++ [k])).
    destruct (IH s (act s) k f t0 p l1) as (l' & Hrun & Hst & Hnow & Hjobs).
    { cbn. apply list_lookup_insert_eq. eapply lookup_lt_Some, Hk. }
    { reflexivity. }
    exists l'. split; [exact Hrun|]. cbn [run_task].
    split; [exact Hst|]. split; [exact Hnow|].
    rewrite Hjobs. cbn. apply list_insert_insert_eq.
Qed.

Lemma chain_fulfilled_after_done (done js : list (Job S V)) (s : S) (t : Z)
    (tr : list nat) :
  Forall (fun j => is_finished j = true) done ->
  chain_fulfilled (mkLock (done ++ js) s t tr) (length done) = true.
Proof.
  intros Hdone. unfold chain_fulfilled. cbn.
  destruct done as [|x done] using rev_ind; [reflexivity|].
  rewrite length_app. cbn. rewrite Nat.add_1_r.
  rewrite <- app_assoc. cbn. rewrite list_lookup_middle by reflexivity.
  apply Forall_app in Hdone as [_ Hx]. inversion Hx. assumption.
Qed.

Lemma insert_after_done (done js : list (Job S V)) j j' :
  <[length done := j']> (done ++ j :: js) = done ++ j' :: js.
Proof.
  rewrite insert_app_r_alt by lia. rewrite Nat.sub_diag. reflexivity.
Qed.

Lemma drain_from_run js :
  forall (done : list (Job S V)) (s : S) (t : Z) (tr : list nat),
    Forall (fun j => is_finished j = true) done ->
    in_order js = true ->
    exists l' js',
      WriteLock.run (drain_from (length done) js s) (mkLock (done ++ js) s t tr)
        = Some l' /\
      jobs l' = done ++ js' /\
      Forall (fun j => is_finished j = true) js' /\
      map fn js' = map fn js /\
      store l' = fst (run_seq (map remaining js) s).
Proof.
  induction js as [|[f ph p] js IH]; intros done s t tr Hdone Hord.
  - exists (mkLock (done ++ []) s t tr), []. cbn. auto.
  - assert (Hnext : forall j', is_finished j' = true ->
              Forall (fun j => is_finished j = true) (done ++ [j'])).
    { intros j' Hj'. apply Forall_app. split; [exact Hdone|]. repeat constructor.
      exact Hj'. }
    assert (Hlen : forall j', length (done ++ [j']) = Datatypes.S (length done)).
    { intros j'. rewrite length_app. cbn. lia. }
    assert (Hcat : forall j', (done ++ [j']) ++ js = done ++ j' :: js).
    { intros j'. rewrite <- app_assoc. reflexivity. }
    destruct ph as [|rest t0|r t0 t1]; cbn [drain_from phase fn].
    + (* queued: start it, run it, go on *)
      cbn in Hord. apply all_queued_in_order in Hord as Hord'.
      cbn [WriteLock.run fire jobs]. rewrite list_lookup_middle by reflexivity.
      rewrite chain_fulfilled_after_done by exact Hdone.
      unfold set_job. cbn [jobs store now trace]. rewrite insert_after_done.
      rewrite run_app.
      destruct (task_events_run f s (length done) f t p
                  (mkLock (done ++ mkJob f (Running f t) p :: js) s t tr))
        as (l1 & Hrun1 & Hst1 & Hnow1 & Hjobs1).
      { cbn. apply list_lookup_middle. reflexivity. }
      { reflexivity. }
      rewrite Hrun1. cbn [jobs now] in Hjobs1, Hnow1.
      rewrite insert_after_done in Hjobs1.
      set (jf := mkJob f (Finished (snd (run_task f s)) t t)
                   (settle (snd (run_task f s)) p)) in *.
      destruct (IH (done ++ [jf]) (fst (run_task f s)) (now l1) (trace l1)
                  (Hnext jf eq_refl) Hord')
        as (l' & js' & Hrun & Hjobs & Hfin & Hfn & Hst).
      rewrite Hlen, Hcat in Hrun.
      destruct l1 as [jobs1 store1 now1 trace1]. cbn in *. subst jobs1 store1.
      exists l', (jf :: js'). split; [exact Hrun|].
      split; [rewrite Hjobs, <- app_assoc; reflexivity|].
      split; [constructor; [reflexivity|exact Hfin]|].
      split; [cbn; rewrite Hfn; reflexivity|].
      rewrite Hst. cbn [map run_seq].
      change (remaining (mkJob f Queued p)) with f.
      destruct (run_task f s) as [s1 r1]. cbn [fst].
      destruct (run_seq (map remaining js) s1). reflexivity.
    + (* running: run it to its end, go on *)
      cbn in Hord. apply all_queued_in_order in Hord as Hord'.
      rewrite run_app.
      destruct (task_events_run rest s (length done) f t0 p
                  (mkLock (done ++ mkJob f (Running rest t0) p :: js) s t tr))
        as (l1 & Hrun1 & Hst1 & Hnow1 & Hjobs1).
      { cbn. apply list_lookup_middle. reflexivity. }
      { reflexivity. }
      rewrite Hrun1. cbn [jobs now] in Hjobs1, Hnow1.
      rewrite insert_after_done in Hjobs1.
      set (jf := mkJob f (Finished (snd (run_task rest s)) t0 t)
                   (settle (snd (run_task rest s)) p)) in *.
      destruct (IH (done ++ [jf]) (fst (run_task rest s)) (now l1) (trace l1)
                  (Hnext jf eq_refl) Hord')
        as (l' & js' & Hrun & Hjobs & Hfin & Hfn & Hst).
      rewrite Hlen, Hcat in Hrun.
      destruct l1 as [jobs1 store1 now1 trace1]. cbn in *. subst jobs1 store1.
      exists l', (jf :: js'). split; [exact Hrun|].
      split; [rewrite Hjobs, <- app_assoc; reflexivity|].
      split; [constructor; [reflexivity|exact Hfin]|].
      split; [cbn; rewrite Hfn; reflexivity|].
      rewrite Hst. cbn [map run_seq].
      change (remaining (mkJob f (Running rest t0) p)) with rest.
      destruct (run_task rest s) as [s1 r1]. cbn [fst].
      destruct (run_seq (map remaining js) s1). reflexivity.
    + (* finished already *)
      cbn in Hord. set (jf := mkJob f (Finished r t0 t1) p) in *.
      destruct (IH (done ++ [jf]) s t tr (Hnext jf eq_refl) Hord)
        as (l' & js' & Hrun & Hjobs & Hfin & Hfn & Hst).
      rewrite Hlen, Hcat in Hrun.
      exists l', (jf :: js'). split; [exact Hrun|].
      split; [rewrite Hjobs, <- app_assoc; reflexivity|].
      split; [constructor; [reflexivity|exact Hfin]|].
      split; [cbn; rewrite Hfn; reflexivity|].
      rewrite Hst. cbn [map run_seq].
      change (remaining jf) with (Settle (S:=S) r). cbn [run_task].
      destruct (run_seq (map remaining js) s). reflexivity.
Qed.

Lemma drain_run l :
  in_order (jobs l) = true ->
  exists l',
    WriteLock.run (drain l) l = Some l' /\
    Forall (fun j => is_finished j = true) (jobs l') /\
    map fn (jobs l') = map fn (jobs l) /\
    store l' = fst (finish_off l).
Proof.
  intros Hord. destruct l as [js s t tr].
  destruct (drain_from_run js [] s t tr (List.Forall_nil _) Hord)
    as (l' & js' & Hrun & Hjobs & Hfin & Hfn & Hst).
  exists l'. split; [exact Hrun|]. cbn in Hjobs. rewrite Hjobs. auto.
Qed.

End WriteLockFacts.

(** C4 as the code has it.  In every state the chain of one lock can
    reach: at most one task has started and not settled; the segments
    executed so far are in the order of the calls, no task entering
    between two segments of another; finishing the chain off leaves the
    store where running the submitted tasks one after the other, in the
    order of the calls, leaves it, with the same outcomes; the promise of
    a completed call holds the outcome of its own task, a failure
    included, unless the 30 s timer of the call had come due, when it may
    hold the timeout failure instead; and whatever has failed, the
    remaining tasks can all still be run to completion. *)
Theorem write_lock_serializes {S V : Type} (s0 : S)
    (evs : list (WriteLock.Event S V)) (l : WriteLock.Lock S V) :
  WriteLock.run evs (WriteLock.init s0) = Some l ->
  (forall i k ji jk,
     WriteLock.jobs l !! i = Some ji -> WriteLock.jobs l !! k = Some jk ->
     WriteLock.is_running ji = true -> WriteLock.is_running jk = true -> i = k) /\
  StronglySorted le (WriteLock.trace l) /\
  WriteLock.finish_off l
    = WriteLock.run_seq (map WriteLock.fn (WriteLock.jobs l)) s0 /\
  (forall k j r t0 t1,
     WriteLock.jobs l !! k = Some j ->
     WriteLock.phase j = WriteLock.Finished r t0 t1 ->
     (t1 < t0 + LOCK_TIMEOUT_MS ->
      WriteLock.result j = WriteLock.settle r WriteLock.Pending) /\
     (WriteLock.result j = WriteLock.settle r WriteLock.Pending \/
      WriteLock.result j = WriteLock.Rejected timeout_error)) /\
  (exists l',
     WriteLock.run (WriteLock.drain l) l = Some l' /\
     Forall (fun j => WriteLock.is_finished j = true) (WriteLock.jobs l') /\
     map WriteLock.fn (WriteLock.jobs l') = map WriteLock.fn (WriteLock.jobs l) /\
     WriteLock.store l'
       = fst (WriteLock.run_seq (map WriteLock.fn (WriteLock.jobs l)) s0)).
Proof.
  intros Hrun.
  destruct (run_inv s0 evs _ l (init_inv s0) Hrun)
    as (Hord & Hstarted & Hsorted & Hseq & Hprom).
  split; [intros i k ji jk; apply in_order_one_running; exact Hord|].
  split; [exact Hsorted|]. split; [exact Hseq|]. split.
  - intros k j r t0 t1 Hk Hph.
    pose proof (proj1 (Forall_lookup _ _) Hprom k j Hk) as Hp.
    unfold WriteLock.promise_ok in Hp. rewrite Hph in Hp.
    destruct Hp as [_ [Hp | [Hdue Hp]]].
    + split; [intros _; exact Hp|left; exact Hp].
    + split; [intros Hlt; lia|right; exact Hp].
  - destruct (drain_run l Hord) as (l' & Hdrain & Hfin & Hfn & Hst).
    exists l'. rewrite <- Hseq. auto.
Qed.

(** C4 as stated fails where it says the failure of the task is what the
    caller gets: a task that fails after its 30 s timer has fired leaves
    its caller's promise rejected with the timeout failure, not with its
    own. *)
Lemma late_failure_is_reported_as_timeout :
  exists l j,
    WriteLock.run late_failure_run (WriteLock.init 0%nat) = Some l /\
    WriteLock.jobs l = [j] /\
    WriteLock.phase j = WriteLock.Finished (Throws failure_of_task) 0 30000 /\
    WriteLock.result j = WriteLock.Rejected timeout_error /\
    WriteLock.result j <> WriteLock.Rejected failure_of_task.
Proof.
  eexists _, _. split; [reflexivity|]. split; [reflexivity|].
  split; [reflexivity|]. split; [reflexivity|]. cbn. discriminate.
Qed.

(** * More of the services *)

(** ** Two-state properties, step by step *)

Section Steps.
Context (R : World -> World -> Prop) `{!Reflexive R} `{!Transitive R}.

Lemma steps_ret {A} (a : A) : steps R (ret a).
Proof. intros w. reflexivity. Qed.

Lemma steps_throw {A} (e : Error) : steps R (@throw A e).
Proof. intros w. reflexivity. Qed.

Lemma steps_get_world : steps R get_world.
Proof. intros w. reflexivity. Qed.

Lemma steps_Date_now : steps R Date_now.
Proof. intros w. reflexivity. Qed.

Lemma steps_modify (f : World -> World) :
  (forall w, R w (f w)) -> steps R (modify f).
Proof. intros H w. apply H. Qed.

Lemma steps_store_call (c : StoreCall) (eff : World -> World) :
  (forall w, R w (after_call c w)) -> (forall w, R w (eff w)) ->
  steps R (store_call c eff).
Proof.
  intros Hc Heff w. unfold store_call. destruct (fails _); cbn [snd].
  - apply Hc.
  - transitivity (after_call c w); [apply Hc|apply Heff].
Qed.

Lemma steps_bind {A B} (m : Async A) (k : A -> Async B) :
  steps R m -> (forall a, steps R (k a)) -> steps R (bind m k).
Proof.
  intros Hm Hk w. unfold bind. specialize (Hm w).
  destruct (m w) as [[a|e] w1]; cbn [snd] in *; [|exact Hm].
  transitivity w1; [exact Hm|apply Hk].
Qed.

Lemma steps_try_catch {A} (m : Async A) (h : Error -> Async A) :
  steps R m -> (forall e, steps R (h e)) -> steps R (try_catch m h).
Proof.
  intros Hm Hh w. unfold try_catch. specialize (Hm w).
  destruct (m w) as [[a|e] w1]; cbn [snd] in *; [exact Hm|].
  transitivity w1; [exact Hm|apply Hh].
Qed.

Lemma steps_withWriteLock {A} (m : Async A) :
  steps R m -> steps R (withWriteLock m).
Proof. intros Hm w. rewrite withWriteLock_snd. apply Hm. Qed.

End Steps.

(** Walks through a task built from the primitives; [side] settles what
    the relation asks of every single change of the world. *)
Ltac step_with side :=
  autounfold with reports;
  repeat first
    [ apply steps_ret; exact _
    | apply steps_throw; exact _
    | apply steps_get_world; exact _
    | apply steps_Date_now; exact _
    | apply steps_modify; intros ?; solve [side]
    | apply steps_store_call;
        [exact _ | intros ?; solve [side] | intros ?; solve [side]]
    | apply steps_bind; [exact _ | | intros ?]
    | apply steps_try_catch; [exact _ | | intros ?]
    | apply steps_withWriteLock
    | match goal with
      | |- steps _ (match ?x with _ => _ end) => destruct x
      end ].

(** ** Failures, step by step *)

Section Throws.
Context (E : Error -> Prop).

Lemma throws_only_ret {A} (a : A) : throws_only E (ret a).
Proof. intros w e H. discriminate. Qed.

Lemma throws_only_throw {A} (e : Error) : E e -> throws_only E (@throw A e).
Proof. intros He w e' [= <-]. exact He. Qed.

Lemma throws_only_get_world : throws_only E get_world.
Proof. intros w e H. discriminate. Qed.

Lemma throws_only_Date_now : throws_only E Date_now.
Proof. intros w e H. discriminate. Qed.

Lemma throws_only_modify (f : World -> World) : throws_only E (modify f).
Proof. intros w e H. discriminate. Qed.

Lemma throws_only_store_call (c : StoreCall) (eff : World -> World) :
  E StoreError -> throws_only E (store_call c eff).
Proof.
  intros He w e. unfold store_call. destruct (fails _); cbn; [|discriminate].
  intros [= <-]. exact He.
Qed.

Lemma throws_only_bind {A B} (m : Async A) (k : A -> Async B) :
  throws_only E m -> (forall a, throws_only E (k a)) -> throws_only E (bind m k).
Proof.
  intros Hm Hk w e. unfold bind. specialize (Hm w).
  destruct (m w) as [[a|e0] w1]; cbn [fst] in *.
  - apply Hk.
  - intros [= <-]. apply Hm. reflexivity.
Qed.

Lemma throws_only_try_catch {A} (m : Async A) (h : Error -> Async A) :
  (forall e, throws_only E (h e)) -> throws_only E (try_catch m h).
Proof.
  intros Hh w e. unfold try_catch.
  destruct (m w) as [[a|e0] w1]; cbn [fst]; [discriminate|]. apply Hh.
Qed.

Lemma throws_only_withWriteLock {A} (m : Async A) :
  E timeout_error -> throws_only E m -> throws_only E (withWriteLock m).
Proof.
  intros Ht Hm w e. unfold withWriteLock. specialize (Hm w).
  destruct (m w) as [r w1]. destruct (_ <=? _); cbn [fst] in *.
  - intros [= <-]. exact Ht.
  - apply Hm.
Qed.

End Throws.

Ltac throws_with side :=
  autounfold with reports;
  repeat first
    [ apply throws_only_ret
    | apply throws_only_get_world
    | apply throws_only_Date_now
    | apply throws_only_modify
    | apply throws_only_throw; solve [side]
    | apply throws_only_store_call; solve [side]
    | apply throws_only_bind; [|intros ?]
    | apply throws_only_try_catch; intros ?
    | apply throws_only_withWriteLock; [solve [side]|]
    | match goal with
      | |- throws_only _ (match ?x with _ => _ end) => destruct x
      end ].

(** Finds an error in a list written out. *)
Ltac listed :=
  solve [repeat first [apply list_elem_of_here | apply list_elem_of_further]].

Lemma throws_only_randomUUID (E : Error -> Prop) :
  throws_only E OrdersService.randomUUID.
Proof. intros w e H. discriminate. Qed.

Lemma throws_only_nowBR (E : Error -> Prop) : throws_only E OrdersService.nowBR.
Proof. intros w e H. discriminate. Qed.

(** X1: a write operation ends with no other failure than the ones
    listed for it: the conflict of createTicket, the missing row of an
    update or a deletion, the missing sheet of a deletion, the exhausted
    pool of createOrder, a rejection by the store, and the lock's
    timeout.  In particular createOrder never fails with a conflict, and
    nothing but createOrder fails with NoTicketsError. *)
Theorem write_failures (op : WriteOp) (w : World) (e : Error) :
  fst (perform op w) = Some e -> e ∈ failures op.
Proof.
  assert (Hfail : forall A (m : Async A),
             throws_only (fun e => e ∈ failures op) m ->
             fst (outcome_of (m w)) = Some e -> e ∈ failures op).
  { intros A m Hm. unfold outcome_of. cbn [fst]. specialize (Hm w).
    destruct (fst (m w)); cbn; [discriminate|]. intros [= <-]. apply Hm. reflexivity. }
  destruct op; cbn [perform]; apply Hfail; cbn [failures].
  - unfold TicketsService.createTicket, TicketsService.createTicket_task.
    throws_with listed.
  - unfold TicketsService.updateTicket, TicketsService.updateTicket_task.
    throws_with listed.
  - unfold TicketsService.deleteTicket, TicketsService.deleteTicket_task.
    throws_with listed.
  - unfold OrdersService.createOrder, OrdersService.createOrder_task,
      OrdersService.assignOrFail.
    apply throws_only_withWriteLock; [listed|].
    apply throws_only_bind; [throws_with listed|intros _].
    apply throws_only_bind; [throws_with listed|intros existing].
    cbv zeta. apply throws_only_bind.
    { destruct (negb _); [|apply throws_only_ret].
      apply throws_only_try_catch. intros err.
      destruct (instanceof_NoTicketsError err) eqn:Hi.
      - destruct err; try discriminate. apply throws_only_throw. listed.
      - apply throws_only_throw. listed. }
    intros tk.
    apply throws_only_bind; [apply throws_only_randomUUID|intros id].
    apply throws_only_bind; [apply throws_only_nowBR|intros t1].
    apply throws_only_bind; [apply throws_only_nowBR|intros t2].
    throws_with listed.
  - unfold OrdersService.updateOrder, OrdersService.updateOrder_task.
    throws_with listed.
  - unfold OrdersService.deleteOrder, OrdersService.deleteOrder_task.
    throws_with listed.
Qed.

(** ** What the operations leave alone *)

#[local] Instance only_read_refl (s : SheetName) : Reflexive (only_read s).
Proof. intros w. repeat split. exists []. split; [reflexivity|constructor]. Qed.

#[local] Instance only_read_trans (s : SheetName) : Transitive (only_read s).
Proof.
  intros w1 w2 w3 (Ht1 & Hp1 & cs1 & Hc1 & Hf1) (Ht2 & Hp2 & cs2 & Hc2 & Hf2).
  split; [congruence|]. split; [congruence|].
  exists (cs2 ++ cs1). split; [rewrite Hc2, Hc1; apply app_assoc|].
  apply Forall_app. auto.
Qed.

#[local] Instance tickets_alone_refl : Reflexive tickets_alone.
Proof. intros w. repeat split. exists []. split; [reflexivity|constructor]. Qed.

#[local] Instance tickets_alone_trans : Transitive tickets_alone.
Proof.
  intros w1 w2 w3 (Ht1 & Hp1 & cs1 & Hc1 & Hf1) (Ht2 & Hp2 & cs2 & Hc2 & Hf2).
  split; [congruence|]. split; [congruence|].
  exists (cs2 ++ cs1). split; [rewrite Hc2, Hc1; apply app_assoc|].
  apply Forall_app. auto.
Qed.

#[local] Instance orders_alone_refl : Reflexive orders_alone.
Proof. intros w. repeat split. exists []. split; [reflexivity|constructor]. Qed.

#[local] Instance orders_alone_trans : Transitive orders_alone.
Proof.
  intros w1 w2 w3 (Ht1 & Hp1 & cs1 & Hc1 & Hf1) (Ht2 & Hp2 & cs2 & Hc2 & Hf2).
  split; [congruence|]. split; [congruence|].
  exists (cs2 ++ cs1). split; [rewrite Hc2, Hc1; apply app_assoc|].
  apply Forall_app. auto.
Qed.

#[local] Instance ids_kept_refl : Reflexive ids_kept.
Proof. intros w. split; auto. Qed.

#[local] Instance ids_kept_trans : Transitive ids_kept.
Proof. intros w1 w2 w3 [Ho1 Ht1] [Ho2 Ht2]. split; auto. Qed.

(** One change of the world that adds at most one call to the log. *)
Ltac one_call :=
  first [ exists []; split; [reflexivity|constructor]
        | eexists [_]; split; [reflexivity|repeat constructor] ].

Ltac frame_side :=
  unfold only_read, tickets_alone, orders_alone;
  repeat match goal with s : SheetName |- _ => destruct s end;
  repeat split; try reflexivity; one_call.

Lemma readAllOrders_only_read : steps (only_read PedidosSheet) OrdersService.readAllOrders.
Proof. step_with frame_side. Qed.

Lemma readAllTickets_only_read :
  steps (only_read TicketsSheet) TicketsService.readAllTickets.
Proof. step_with frame_side. Qed.

(** X2: the read operations never write.  Whatever the cache holds and
    whatever the store answers, getAllOrders, getOrderById, getAllTickets
    and getTicket leave both sheets as they were, and every store call
    they make is a read of their own sheet. *)
Theorem reads_never_write (toLowerCase : jsstring -> jsstring)
    (filters : option OrdersService.OrderFilters) (id tk : jsstring) (w : World) :
  only_read PedidosSheet w (snd (OrdersService.getAllOrders toLowerCase filters w)) /\
  only_read PedidosSheet w (snd (OrdersService.getOrderById id w)) /\
  only_read TicketsSheet w (snd (TicketsService.getAllTickets w)) /\
  only_read TicketsSheet w (snd (TicketsService.getTicket tk w)).
Proof.
  split; [|split; [|split]].
  - revert w. change (steps (only_read PedidosSheet)
                        (OrdersService.getAllOrders toLowerCase filters)).
    unfold OrdersService.getAllOrders.
    apply steps_bind; [exact _|apply readAllOrders_only_read|intros all].
    apply steps_ret; exact _.
  - revert w. change (steps (only_read PedidosSheet) (OrdersService.getOrderById id)).
    unfold OrdersService.getOrderById.
    apply steps_bind; [exact _|apply readAllOrders_only_read|intros all].
    apply steps_ret; exact _.
  - apply readAllTickets_only_read.
  - revert w. change (steps (only_read TicketsSheet) (TicketsService.getTicket tk)).
    unfold TicketsService.getTicket.
    apply steps_bind; [exact _|apply readAllTickets_only_read|intros all].
    apply steps_ret; exact _.
Qed.

Lemma ticket_ops_orders_alone (op : WriteOp) :
  resource op = TicketsSheet -> forall w, orders_alone w (snd (perform op w)).
Proof.
  intros Hres w. rewrite perform_world.
  destruct op; try discriminate; cbn [task_of outcome_of snd]; revert w.
  - change (steps orders_alone (TicketsService.createTicket_task tk)).
    unfold TicketsService.createTicket_task. step_with frame_side.
  - change (steps orders_alone (TicketsService.updateTicket_task oldTicket newTicket)).
    unfold TicketsService.updateTicket_task. step_with frame_side.
  - change (steps orders_alone (TicketsService.deleteTicket_task tk)).
    unfold TicketsService.deleteTicket_task. step_with frame_side.
Qed.

Lemma order_ops_tickets_alone (op : WriteOp) :
  (forall d, op <> CreateOrder d) -> resource op = PedidosSheet ->
  forall w, tickets_alone w (snd (perform op w)).
Proof.
  intros Hop Hres w. rewrite perform_world.
  destruct op; try discriminate; cbn [task_of outcome_of snd]; revert w.
  - destruct (Hop data eq_refl).
  - change (steps tickets_alone (OrdersService.updateOrder_task id data)).
    unfold OrdersService.updateOrder_task. step_with frame_side.
  - change (steps tickets_alone (OrdersService.deleteOrder_task id)).
    unfold OrdersService.deleteOrder_task. step_with frame_side.
Qed.

(** X3: the two resources are apart.  A ticket operation (create,
    rename, delete) never touches the orders sheet, the orders cache or
    the cached id of the orders sheet, and makes no store call on the
    orders sheet; updateOrder and deleteOrder never touch the tickets
    sheet, so that a deleted order's ticket stays assigned, nor the
    module variables of the tickets service, and make no store call on
    the tickets sheet.  Only createOrder reaches across. *)
Theorem resources_apart (op : WriteOp) (w : World) :
  (forall d, op <> CreateOrder d) ->
  match resource op with
  | TicketsSheet => orders_alone w (snd (perform op w))
  | PedidosSheet => tickets_alone w (snd (perform op w))
  end.
Proof.
  intros Hop. destruct (resource op) eqn:Hres.
  - apply ticket_ops_orders_alone, Hres.
  - apply order_ops_tickets_alone; assumption.
Qed.

(** ** Deletions *)

Lemma values_get_run (s : SheetName) (w : World) :
  values_get s w =
  if fails (reply_at w 0) then (Throws StoreError, after_call (ValuesGet s) w)
  else (Returns (sheet s w), after_call (ValuesGet s) w).
Proof.
  destruct (fails (reply_at w 0)) eqn:H;
    [apply values_get_rejected|apply values_get_accepted]; exact H.
Qed.

Lemma spreadsheets_get_run (s : SheetName) (w : World) :
  spreadsheets_get s w =
  if fails (reply_at w 0) then (Throws StoreError, after_call SpreadsheetsGet w)
  else (Returns (sheet_ids w s), after_call SpreadsheetsGet w).
Proof.
  unfold spreadsheets_get, bind, store_call, next_reply, get_world, ret.
  destruct (fails (reply_at w 0)); reflexivity.
Qed.

Lemma batch_delete_row_run (s : SheetName) (sid : Z) (r : nat) (w : World) :
  batch_delete_row s sid r w =
  if fails (reply_at w 0)
  then (Throws StoreError, after_call (DeleteDimension s sid r) w)
  else (Returns tt,
        set_sheet s (delete_row r (sheet s w))
          (after_call (DeleteDimension s sid r) w)).
Proof.
  unfold batch_delete_row, store_call, next_reply.
  destruct (fails (reply_at w 0)); [reflexivity|]. destruct s; reflexivity.
Qed.

Lemma getSheetId_orders_run (w : World) :
  OrdersService.getSheetId w =
  match cachedSheetId (orders_mod w) with
  | Some sid => (Returns sid, w)
  | None =>
      let w1 := after_call SpreadsheetsGet w in
      if fails (reply_at w 0) then (Throws StoreError, w1)
      else match sheet_ids w PedidosSheet with
           | None => (Throws OrdersService.sheet_not_found, w1)
           | Some sid =>
               (Returns sid,
                set_orders_mod
                  (mkModuleState (cache (orders_mod w)) (cacheTime (orders_mod w))
                     (Some sid)) w1)
           end
  end.
Proof.
  unfold OrdersService.getSheetId. unfold bind at 1, get_world at 1.
  destruct (cachedSheetId (orders_mod w)); [reflexivity|].
  unfold bind at 1. rewrite spreadsheets_get_run. cbv zeta.
  destruct (fails (reply_at w 0)); [reflexivity|].
  destruct (sheet_ids w OrdersService.SHEET_NAME) eqn:E;
    change OrdersService.SHEET_NAME with PedidosSheet in E; rewrite E; reflexivity.
Qed.

Lemma getSheetId_tickets_run (w : World) :
  TicketsService.getSheetId w =
  match cachedSheetId (tickets_mod w) with
  | Some sid => (Returns sid, w)
  | None =>
      let w1 := after_call SpreadsheetsGet w in
      if fails (reply_at w 0) then (Throws StoreError, w1)
      else match sheet_ids w TicketsSheet with
           | None => (Throws TicketsService.sheet_not_found, w1)
           | Some sid =>
               (Returns sid,
                set_tickets_mod
                  (mkModuleState (cache (tickets_mod w)) (cacheTime (tickets_mod w))
                     (Some sid)) w1)
           end
  end.
Proof.
  unfold TicketsService.getSheetId. unfold bind at 1, get_world at 1.
  destruct (cachedSheetId (tickets_mod w)); [reflexivity|].
  unfold bind at 1. rewrite spreadsheets_get_run. cbv zeta.
  destruct (fails (reply_at w 0)); [reflexivity|].
  destruct (sheet_ids w TicketsService.SHEET_NAME) eqn:E;
    change TicketsService.SHEET_NAME with TicketsSheet in E; rewrite E; reflexivity.
Qed.

Lemma deleteOrder_task_run (id : jsstring) (w : World) :
  let rows := pedidos_sheet w in
  let w1 := after_call (ValuesGet PedidosSheet) (OrdersService.cleared w) in
  OrdersService.deleteOrder_task id w =
  if fails (reply_at w 0) then (Throws StoreError, w1)
  else match findIndex (OrdersService.is_row_of id) rows with
       | None => (Throws (NotFoundError (lit "Order")), w1)
       | Some i =>
           match cachedSheetId (orders_mod w) with
           | Some sid =>
               let w2 := after_call (DeleteDimension PedidosSheet sid i) w1 in
               if fails (reply_at w 1) then (Throws StoreError, w2)
               else (Returns tt,
                     OrdersService.cleared
                       (set_sheet PedidosSheet (delete_row i rows) w2))
           | None =>
               let w2 := after_call SpreadsheetsGet w1 in
               if fails (reply_at w 1) then (Throws StoreError, w2)
               else match sheet_ids w PedidosSheet with
                    | None => (Throws OrdersService.sheet_not_found, w2)
                    | Some sid =>
                        let w3 :=
                          after_call (DeleteDimension PedidosSheet sid i)
                            (set_orders_mod (mkModuleState None 0 (Some sid)) w2) in
                        if fails (reply_at w 2) then (Throws StoreError, w3)
                        else (Returns tt,
                              OrdersService.cleared
                                (set_sheet PedidosSheet (delete_row i rows) w3))
                    end
           end
       end.
Proof.
  intros rows w1. unfold OrdersService.deleteOrder_task.
  erewrite bind_returns by reflexivity.
  unfold bind at 1. rewrite values_get_run.
  change OrdersService.SHEET_NAME with PedidosSheet. fold w1.
  change (reply_at (OrdersService.cleared w) 0) with (reply_at w 0).
  destruct (fails (reply_at w 0)); [reflexivity|].
  change (sheet PedidosSheet (OrdersService.cleared w)) with rows.
  destruct (findIndex (OrdersService.is_row_of id) rows) as [i|]; [|reflexivity].
  unfold bind at 1. rewrite getSheetId_orders_run.
  change (cachedSheetId (orders_mod w1)) with (cachedSheetId (orders_mod w)).
  assert (Hr : forall k, reply_at w1 k = reply_at w (S k))
    by (intros k; exact (reply_at_after_call _ (OrdersService.cleared w) k)).
  destruct (cachedSheetId (orders_mod w)) as [sid|].
  - cbv beta iota. unfold bind at 1. rewrite batch_delete_row_run, Hr.
    destruct (fails (reply_at w 1)); reflexivity.
  - cbv zeta. rewrite Hr.
    destruct (fails (reply_at w 1)); [reflexivity|].
    change (sheet_ids w1 PedidosSheet) with (sheet_ids w PedidosSheet).
    destruct (sheet_ids w PedidosSheet) as [sid|]; [|reflexivity].
    cbv beta iota. unfold bind at 1. rewrite batch_delete_row_run.
    match goal with
    | |- context [reply_at ?w' 0] =>
        replace (reply_at w' 0) with (reply_at w 2)
          by (symmetry; etransitivity;
              [exact (reply_at_after_call SpreadsheetsGet w1 0)|apply Hr])
    end.
    destruct (fails (reply_at w 2)); reflexivity.
Qed.

Lemma deleteTicket_task_run (tk : jsstring) (w : World) :
  let rows := tickets_sheet w in
  let w1 := after_call (ValuesGet TicketsSheet) (TicketsService.cleared w) in
  TicketsService.deleteTicket_task tk w =
  if fails (reply_at w 0) then (Throws StoreError, w1)
  else match findIndex (TicketsService.is_row_of tk) rows with
       | None => (Throws (NotFoundError (lit "Ticket")), w1)
       | Some i =>
           match cachedSheetId (tickets_mod w) with
           | Some sid =>
               let w2 := after_call (DeleteDimension TicketsSheet sid i) w1 in
               if fails (reply_at w 1) then (Throws StoreError, w2)
               else (Returns tt,
                     TicketsService.cleared
                       (set_sheet TicketsSheet (delete_row i rows) w2))
           | None =>
               let w2 := after_call SpreadsheetsGet w1 in
               if fails (reply_at w 1) then (Throws StoreError, w2)
               else match sheet_ids w TicketsSheet with
                    | None => (Throws TicketsService.sheet_not_found, w2)
                    | Some sid =>
                        let w3 :=
                          after_call (DeleteDimension TicketsSheet sid i)
                            (set_tickets_mod (mkModuleState None 0 (Some sid)) w2) in
                        if fails (reply_at w 2) then (Throws StoreError, w3)
                        else (Returns tt,
                              TicketsService.cleared
                                (set_sheet TicketsSheet (delete_row i rows) w3))
                    end
           end
       end.
Proof.
  intros rows w1. unfold TicketsService.deleteTicket_task.
  erewrite bind_returns by reflexivity.
  unfold bind at 1. rewrite values_get_run.
  change TicketsService.SHEET_NAME with TicketsSheet. fold w1.
  change (reply_at (TicketsService.cleared w) 0) with (reply_at w 0).
  destruct (fails (reply_at w 0)); [reflexivity|].
  change (sheet TicketsSheet (TicketsService.cleared w)) with rows.
  destruct (findIndex (TicketsService.is_row_of tk) rows) as [i|]; [|reflexivity].
  unfold bind at 1. rewrite getSheetId_tickets_run.
  change (cachedSheetId (tickets_mod w1)) with (cachedSheetId (tickets_mod w)).
  assert (Hr : forall k, reply_at w1 k = reply_at w (S k))
    by (intros k; exact (reply_at_after_call _ (TicketsService.cleared w) k)).
  destruct (cachedSheetId (tickets_mod w)) as [sid|].
  - cbv beta iota. unfold bind at 1. rewrite batch_delete_row_run, Hr.
    destruct (fails (reply_at w 1)); reflexivity.
  - cbv zeta. rewrite Hr.
    destruct (fails (reply_at w 1)); [reflexivity|].
    change (sheet_ids w1 TicketsSheet) with (sheet_ids w TicketsSheet).
    destruct (sheet_ids w TicketsSheet) as [sid|]; [|reflexivity].
    cbv beta iota. unfold bind at 1. rewrite batch_delete_row_run.
    match goal with
    | |- context [reply_at ?w' 0] =>
        replace (reply_at w' 0) with (reply_at w 2)
          by (symmetry; etransitivity;
              [exact (reply_at_after_call SpreadsheetsGet w1 0)|apply Hr])
    end.
    destruct (fails (reply_at w 2)); reflexivity.
Qed.

Lemma delete_row_facts {A} (i : nat) (l : list A) :
  (i < length l)%nat ->
  (forall j, (j < i)%nat -> delete i l !! j = l !! j) /\
  (forall j, (i <= j)%nat -> delete i l !! j = l !! S j) /\
  S (length (delete i l)) = length l.
Proof.
  intros Hlt. split; [intros j; apply list_lookup_delete_lt|].
  split; [intros j; apply list_lookup_delete_ge|].
  rewrite length_delete by (apply lookup_lt_is_Some; exact Hlt). lia.
Qed.

Lemma map_delete {A B} (f : A -> B) (i : nat) (l : list A) :
  map f (delete i l) = delete i (map f l).
Proof.
  revert i. induction l as [|x l IH]; intros [|i]; cbn; try reflexivity.
  f_equal. apply IH.
Qed.

Lemma drop_1_delete {A} (i : nat) (l : list A) :
  (0 < i)%nat -> drop 1 (delete i l) = delete (i - 1)%nat (drop 1 l).
Proof.
  intros Hi. destruct i as [|k]; [lia|]. destruct l as [|x l]; [reflexivity|].
  cbn. rewrite !drop_0, Nat.sub_0_r. reflexivity.
Qed.

Lemma decodeOrders_delete (i : nat) (rows : Sheet) :
  (0 < i)%nat ->
  OrdersService.decodeOrders (delete i rows)
  = delete (i - 1)%nat (OrdersService.decodeOrders rows).
Proof.
  intros Hi. unfold OrdersService.decodeOrders.
  rewrite drop_1_delete by exact Hi. apply map_delete.
Qed.

Lemma findIndex_first_keyed_order (key : jsstring) (rows : Sheet) (i : nat) :
  findIndex (OrdersService.is_row_of key) rows = Some i -> first_keyed key rows i.
Proof. exact (findIndex_first_keyed key rows i). Qed.

Lemma findIndex_none_keyed_order (key : jsstring) (rows : Sheet) :
  findIndex (OrdersService.is_row_of key) rows = None ->
  forall i, ~ keyed_at key rows i.
Proof. exact (findIndex_none_keyed key rows). Qed.

(** X4: with the store answering and the orders sheet listed in the
    spreadsheet, deleteOrder fails with NotFound after its one read, the
    sheet as it was, when no row after the header carries the identifier;
    otherwise it removes the first such row and nothing else: the rows
    before it stay, the rows after it move up by one, the orders decoded
    from the sheet are the old ones without that one, and the cache is
    left empty.  The tickets sheet is not touched: the ticket of the
    deleted order is not released. *)
Theorem deleteOrder_first_row (id : jsstring) (w : World) :
  responsive 3 w ->
  (cachedSheetId (orders_mod w) = None -> is_Some (sheet_ids w PedidosSheet)) ->
  let rows := pedidos_sheet w in
  exists r w', OrdersService.deleteOrder id w = (r, w') /\
    (((forall i, ~ keyed_at id rows i) /\
      r = Throws (NotFoundError (lit "Order")) /\
      pedidos_sheet w' = rows /\
      calls w' = ValuesGet PedidosSheet :: calls w)
     \/
     (exists i,
        first_keyed id rows i /\ r = Returns tt /\
        pedidos_sheet w' = delete i rows /\
        (forall j, (j < i)%nat -> pedidos_sheet w' !! j = rows !! j) /\
        (forall j, (i <= j)%nat -> pedidos_sheet w' !! j = rows !! S j) /\
        S (length (pedidos_sheet w')) = length rows /\
        OrdersService.decodeOrders (pedidos_sheet w')
        = delete (i - 1)%nat (OrdersService.decodeOrders rows) /\
        cache (orders_mod w') = None /\
        tickets_sheet w' = tickets_sheet w)).
Proof.
  intros [Hacc Htime] Hid rows.
  assert (H0 : fails (reply_at w 0) = false) by (apply Hacc; lia).
  assert (H1 : fails (reply_at w 1) = false) by (apply Hacc; lia).
  assert (H2 : fails (reply_at w 2) = false) by (apply Hacc; lia).
  pose proof (deleteOrder_task_run id w) as Hrun. cbv zeta in Hrun.
  rewrite H0 in Hrun. fold rows in Hrun.
  unfold OrdersService.deleteOrder.
  destruct (findIndex (OrdersService.is_row_of id) rows) as [i|] eqn:E.
  - pose proof (findIndex_lt _ _ _ E) as Hlt.
    apply findIndex_first_keyed_order in E as Hfirst.
    destruct (proj1 Hfirst) as (Hpos & _).
    destruct (delete_row_facts i rows Hlt) as (Hbefore & Hafter & Hlen).
    rewrite H1 in Hrun.
    destruct (cachedSheetId (orders_mod w)) as [sid|] eqn:Hc.
    + eexists _, _. split.
      { apply (withWriteLock_timely _ _ _ _ Hrun). timing. }
      right. exists i. split; [exact Hfirst|]. split; [reflexivity|].
      split; [reflexivity|]. split; [exact Hbefore|]. split; [exact Hafter|].
      split; [exact Hlen|]. split; [apply decodeOrders_delete, Hpos|].
      split; reflexivity.
    + destruct (Hid eq_refl) as [sid Hsid]. rewrite Hsid, H2 in Hrun.
      eexists _, _. split.
      { apply (withWriteLock_timely _ _ _ _ Hrun). timing. }
      right. exists i. split; [exact Hfirst|]. split; [reflexivity|].
      split; [reflexivity|]. split; [exact Hbefore|]. split; [exact Hafter|].
      split; [exact Hlen|]. split; [apply decodeOrders_delete, Hpos|].
      split; reflexivity.
  - eexists _, _. split.
    { apply (withWriteLock_timely _ _ _ _ Hrun). timing. }
    left. split; [apply findIndex_none_keyed_order, E|]. repeat split; reflexivity.
Qed.

Lemma filter_split_at {A} (p : A -> bool) (l : list A) (k : nat) (x : A) :
  l !! k = Some x ->
  List.filter p l
  = List.filter p (take k l) ++ (if p x then [x] else []) ++ List.filter p (drop (S k) l)
  /\ List.filter p (delete k l)
     = List.filter p (take k l) ++ List.filter p (drop (S k) l).
Proof.
  intros Hx. split.
  - rewrite <- (take_drop_middle l k x Hx) at 1.
    rewrite List.filter_app. cbn. destruct (p x); reflexivity.
  - rewrite delete_take_drop. apply List.filter_app.
Qed.

Lemma named_text (row : Row) (s : jsstring) :
  truthy_opt (cell row 0) = true -> text row 0 = s -> cell row 0 = Some s.
Proof.
  unfold text, or_empty. destruct (cell row 0); cbn; [congruence|discriminate].
Qed.

(** The ticket values around the first row that carries [tk]. *)
Lemma ticket_values_delete (tk : jsstring) (rows : Sheet) (i : nat) :
  first_keyed tk rows i ->
  exists before after,
    ticket_values rows = before ++ (if truthy tk then [tk] else []) ++ after /\
    ticket_values (delete i rows) = before ++ after /\
    tk ∉ before.
Proof.
  intros [(Hpos & row & Hrow & Hkey) Hfirst].
  destruct i as [|k]; [lia|]. destruct rows as [|header rest]; [discriminate|].
  cbn in Hrow. unfold ticket_values. rewrite drop_1_delete by lia.
  change (drop 1 (header :: rest)) with rest.
  replace (S k - 1)%nat with k by lia.
  set (named := fun row : Row => truthy_opt (cell row 0)).
  destruct (filter_split_at named rest k row Hrow) as [Hall Hdel].
  exists (map (fun row => text row 0) (List.filter named (take k rest))),
         (map (fun row => text row 0) (List.filter named (drop (S k) rest))).
  split; [|split].
  - assert (Hn : named row = truthy tk) by (unfold named; rewrite Hkey; reflexivity).
    assert (Ht : text row 0 = tk) by (unfold text, or_empty; rewrite Hkey; reflexivity).
    rewrite Hall, !map_app, Hn. destruct (truthy tk); cbn [map]; rewrite ?Ht; reflexivity.
  - rewrite Hdel, map_app. reflexivity.
  - intros Hin. apply list_elem_of_fmap in Hin as (y & Hy & Hin).
    apply list_elem_of_In, List.filter_In in Hin as [Hin Hnamed].
    apply list_elem_of_In, list_elem_of_lookup in Hin as [j Hj].
    apply lookup_take_Some in Hj as [Hj Hlt].
    apply (Hfirst (S j)); [lia|]. split; [lia|].
    exists y. split; [exact Hj|]. apply named_text; [exact Hnamed|symmetry; exact Hy].
Qed.

(** X5: with the store answering and the tickets sheet listed in the
    spreadsheet, deleteTicket fails with NotFound after its one read, the
    sheet as it was, when no row after the header carries the ticket;
    otherwise it removes the first such row and nothing else, whether or
    not the ticket is assigned: the rows before it stay, the rows after
    it move up by one, the ticket values of the sheet lose that one
    occurrence, and the cache is left empty. *)
Theorem deleteTicket_first_row (tk : jsstring) (w : World) :
  responsive 3 w ->
  (cachedSheetId (tickets_mod w) = None -> is_Some (sheet_ids w TicketsSheet)) ->
  let rows := tickets_sheet w in
  exists r w', TicketsService.deleteTicket tk w = (r, w') /\
    (((forall i, ~ keyed_at tk rows i) /\
      r = Throws (NotFoundError (lit "Ticket")) /\
      tickets_sheet w' = rows /\
      calls w' = ValuesGet TicketsSheet :: calls w)
     \/
     (exists i,
        first_keyed tk rows i /\ r = Returns tt /\
        tickets_sheet w' = delete i rows /\
        (forall j, (j < i)%nat -> tickets_sheet w' !! j = rows !! j) /\
        (forall j, (i <= j)%nat -> tickets_sheet w' !! j = rows !! S j) /\
        S (length (tickets_sheet w')) = length rows /\
        (exists before after,
           ticket_values rows
           = before ++ (if truthy tk then [tk] else []) ++ after /\
           ticket_values (tickets_sheet w') = before ++ after /\
           tk ∉ before) /\
        cache (tickets_mod w') = None)).
Proof.
  intros [Hacc Htime] Hid rows.
  assert (H0 : fails (reply_at w 0) = false) by (apply Hacc; lia).
  assert (H1 : fails (reply_at w 1) = false) by (apply Hacc; lia).
  assert (H2 : fails (reply_at w 2) = false) by (apply Hacc; lia).
  pose proof (deleteTicket_task_run tk w) as Hrun. cbv zeta in Hrun.
  rewrite H0 in Hrun. fold rows in Hrun.
  unfold TicketsService.deleteTicket.
  destruct (findIndex (TicketsService.is_row_of tk) rows) as [i|] eqn:E.
  - pose proof (findIndex_lt _ _ _ E) as Hlt.
    apply findIndex_first_keyed in E as Hfirst.
    destruct (delete_row_facts i rows Hlt) as (Hbefore & Hafter & Hlen).
    pose proof (ticket_values_delete tk rows i Hfirst) as Hvalues.
    rewrite H1 in Hrun.
    destruct (cachedSheetId (tickets_mod w)) as [sid|] eqn:Hc.
    + eexists _, _. split.
      { apply (withWriteLock_timely _ _ _ _ Hrun). timing. }
      right. exists i. split; [exact Hfirst|]. split; [reflexivity|].
      split; [reflexivity|]. split; [exact Hbefore|]. split; [exact Hafter|].
      split; [exact Hlen|]. split; [exact Hvalues|reflexivity].
    + destruct (Hid eq_refl) as [sid Hsid]. rewrite Hsid, H2 in Hrun.
      eexists _, _. split.
      { apply (withWriteLock_timely _ _ _ _ Hrun). timing. }
      right. exists i. split; [exact Hfirst|]. split; [reflexivity|].
      split; [reflexivity|]. split; [exact Hbefore|]. split; [exact Hafter|].
      split; [exact Hlen|]. split; [exact Hvalues|reflexivity].
  - eexists _, _. split.
    { apply (withWriteLock_timely _ _ _ _ Hrun). timing. }
    left. split; [apply findIndex_none_keyed, E|]. repeat split; reflexivity.
Qed.

(** ** The cached sheet id *)

Ltac ids_side :=
  unfold ids_kept;
  repeat match goal with s : SheetName |- _ => destruct s end;
  split; intros ? H; exact H.

Lemma ids_kept_task (op : WriteOp) (w : World) : ids_kept w (snd (task_of op w)).
Proof.
  destruct op; cbn [task_of outcome_of snd].
  - revert w. change (steps ids_kept (TicketsService.createTicket_task tk)).
    unfold TicketsService.createTicket_task. step_with ids_side.
  - revert w. change (steps ids_kept (TicketsService.updateTicket_task oldTicket newTicket)).
    unfold TicketsService.updateTicket_task. step_with ids_side.
  - rewrite deleteTicket_task_run. cbv zeta.
    repeat case_match; cbn [snd]; split; intros ? ?; solve [assumption | congruence].
  - revert w. change (steps ids_kept (OrdersService.createOrder_task data)).
    unfold OrdersService.createOrder_task, OrdersService.assignOrFail,
      TicketsService.assignAvailableTicket.
    apply steps_bind; [exact _|step_with ids_side|intros _].
    apply steps_bind; [exact _|step_with ids_side|intros existing]. cbv zeta.
    apply steps_bind; [exact _|step_with ids_side|intros tk].
    apply steps_bind; [exact _|intros w; ids_side|intros id].
    apply steps_bind; [exact _|intros w; ids_side|intros t1].
    apply steps_bind; [exact _|intros w; ids_side|intros t2].
    step_with ids_side.
  - revert w. change (steps ids_kept (OrdersService.updateOrder_task id data)).
    unfold OrdersService.updateOrder_task. step_with ids_side.
  - rewrite deleteOrder_task_run. cbv zeta.
    repeat case_match; cbn [snd]; split; intros ? ?; solve [assumption | congruence].
Qed.

Lemma ids_kept_perform_all (ops : list WriteOp) (w : World) :
  ids_kept w (perform_all ops w).
Proof.
  revert w. induction ops as [|op ops IH]; intros w; cbn [perform_all].
  - reflexivity.
  - transitivity (snd (perform op w)); [|apply IH].
    rewrite perform_world. apply ids_kept_task.
Qed.

(** X6: the id of a sheet is looked up in the spreadsheet at most once.
    Once getSheetId of a service has returned an id, that service's
    getSheetId returns the same id without a store call after any
    sequence of write operations, whatever their outcome: clearing the
    cache never clears the sheet id. *)
Theorem sheet_id_fetched_once (ops : list WriteOp) (w : World) :
  (forall id, fst (OrdersService.getSheetId w) = Returns id ->
     let w' := perform_all ops (snd (OrdersService.getSheetId w)) in
     OrdersService.getSheetId w' = (Returns id, w')) /\
  (forall id, fst (TicketsService.getSheetId w) = Returns id ->
     let w' := perform_all ops (snd (TicketsService.getSheetId w)) in
     TicketsService.getSheetId w' = (Returns id, w')).
Proof.
  split; intros id Hret w'.
  - assert (Hc : cachedSheetId (orders_mod (snd (OrdersService.getSheetId w))) = Some id).
    { revert Hret. rewrite getSheetId_orders_run. cbv zeta.
      repeat case_match; cbn [fst snd]; intros [= <-]; try assumption; reflexivity. }
    apply (proj1 (ids_kept_perform_all ops _)) in Hc. fold w' in Hc.
    rewrite getSheetId_orders_run, Hc. reflexivity.
  - assert (Hc : cachedSheetId (tickets_mod (snd (TicketsService.getSheetId w))) = Some id).
    { revert Hret. rewrite getSheetId_tickets_run. cbv zeta.
      repeat case_match; cbn [fst snd]; intros [= <-]; try assumption; reflexivity. }
    apply (proj2 (ids_kept_perform_all ops _)) in Hc. fold w' in Hc.
    rewrite getSheetId_tickets_run, Hc. reflexivity.
Qed.

(** ** Reading back what was written *)

Lemma find_first {A} (p : A -> bool) (before after : list A) (x : A) :
  (forall y, y ∈ before -> p y = false) -> p x = true ->
  find p (before ++ x :: after) = Some x.
Proof.
  intros Hb Hx. induction before as [|y before IH]; cbn.
  - rewrite Hx. reflexivity.
  - rewrite (Hb y) by left. apply IH. intros z Hz. apply Hb. right. exact Hz.
Qed.

Lemma find_none {A} (p : A -> bool) (l : list A) :
  (forall y, y ∈ l -> p y = false) -> find p l = None.
Proof.
  intros H. induction l as [|y l IH]; cbn; [reflexivity|].
  rewrite (H y) by left. apply IH. intros z Hz. apply H. right. exact Hz.
Qed.

Lemma withWriteLock_returns {A} (m : Async A) (w : World) (a : A) :
  fst (withWriteLock m w) = Returns a ->
  m w = (Returns a, snd (withWriteLock m w)).
Proof.
  destruct (withWriteLock_outcome m w) as (r & w' & Hrun & [Hw | Hw]);
    rewrite Hw; cbn [fst snd]; [|discriminate].
  intros ->. exact Hrun.
Qed.

(** What a createOrder task that returned has done to the orders sheet. *)
Lemma createOrder_task_returns (d : OrdersService.CreateOrderData) (w w' : World)
    (res : OrdersService.CreateOrderResult) :
  OrdersService.createOrder_task d w = (Returns res, w') ->
  pedidos_sheet w'
  = pedidos_sheet w ++ [OrdersService.orderToRow (OrdersService.order res)] /\
  cache (orders_mod w') = None /\
  Orders.uuid (OrdersService.order res) = uuid_of w (uuids_drawn w).
Proof.
  destruct (fails (reply_at w 0)) eqn:H0.
  { rewrite (createOrder_task_read_rejected d w H0). discriminate. }
  destruct (OrdersService.findExisting (OrdersService.normalizeOab d)
              (OrdersService.decodeOrders (pedidos_sheet w))) as [x|] eqn:He.
  { rewrite (createOrder_task_duplicate d w x H0 He).
    destruct (fails (reply_at w 1)); intros [= <- <-]. repeat split; reflexivity. }
  set (w1 := orders_fetched (OrdersService.cleared w)).
  destruct (fails (reply_at w1 0)) eqn:H1.
  { rewrite (createOrder_task_no_ticket d w _ _ H0 He (assign_read_rejected w1 H1)).
    discriminate. }
  destruct (findIndex TicketsService.is_available (tickets_sheet w1)) as [i|] eqn:Ei.
  - destruct (fails (reply_at w1 1)) eqn:H2.
    + rewrite (createOrder_task_no_ticket d w _ _ H0 He
                 (assign_update_rejected w1 i H1 H2 Ei)).
      discriminate.
    + rewrite (createOrder_task_ticket d w _ _ H0 He (assign_marks w1 i H1 H2 Ei)).
      destruct (fails (reply_at (marked i w1) 0)); intros [= <- <-].
      repeat split; reflexivity.
  - rewrite (createOrder_task_no_ticket d w _ _ H0 He (assign_none w1 H1 Ei)).
    discriminate.
Qed.




Lemma rowToOrder_orderToRow (o : Order) :
  OrdersService.rowToOrder (OrdersService.orderToRow o) = o.
Proof. destruct o. reflexivity. Qed.

Lemma drop_1_snoc {A} (l : list A) (x : A) :
  l <> [] -> drop 1 (l ++ [x]) = drop 1 l ++ [x].
Proof. destruct l; [congruence|reflexivity]. Qed.

Lemma decodeOrders_snoc (rows : Sheet) (o : Order) :
  rows <> [] ->
  OrdersService.decodeOrders (rows ++ [OrdersService.orderToRow o])
  = OrdersService.decodeOrders rows ++ [o].
Proof.
  intros H. unfold OrdersService.decodeOrders.
  rewrite drop_1_snoc, map_app by exact H. cbn [map].
  rewrite rowToOrder_orderToRow. reflexivity.
Qed.

(** X8: an order that was created is found by its identifier.  When
    createOrder has returned, the orders sheet had its header row and the
    identifier drawn for the order was on none of its rows, the orders
    decoded from the sheet are the old ones followed by the new one, and
    getOrderById with the new identifier, answered by the store, returns
    exactly the order createOrder returned. *)
Theorem createOrder_then_getOrderById
    (data : OrdersService.CreateOrderData) (w : World)
    (res : OrdersService.CreateOrderResult) :
  fst (OrdersService.createOrder data w) = Returns res ->
  let w' := snd (OrdersService.createOrder data w) in
  let o := OrdersService.order res in
  pedidos_sheet w <> [] ->
  (forall x, x ∈ OrdersService.decodeOrders (pedidos_sheet w) ->
             Orders.uuid x <> uuid_of w (uuids_drawn w)) ->
  fails (reply_at w' 0) = false ->
  OrdersService.decodeOrders (pedidos_sheet w')
  = OrdersService.decodeOrders (pedidos_sheet w) ++ [o] /\
  fst (OrdersService.getOrderById (Orders.uuid o) w') = Returns (Some o).
Proof.
  intros Hret w' o Hheader Hfresh Hans.
  assert (Hrun : OrdersService.createOrder_task data w = (Returns res, w'))
    by exact (withWriteLock_returns _ _ _ Hret).
  destruct (createOrder_task_returns _ _ _ _ Hrun) as (Hsheet & Hcache & Huuid).
  fold o in Hsheet, Huuid.
  assert (Hdec : OrdersService.decodeOrders (pedidos_sheet w')
                 = OrdersService.decodeOrders (pedidos_sheet w) ++ [o])
    by (rewrite Hsheet; apply decodeOrders_snoc, Hheader).
  split; [exact Hdec|].
  unfold OrdersService.getOrderById, bind.
  rewrite readAllOrders_miss by (left; exact Hcache). rewrite Hans. cbn [fst ret].
  rewrite Hdec. f_equal. apply find_first.
  - intros y Hy. apply eqb_false. rewrite Huuid. apply Hfresh, Hy.
  - apply eqb_true. reflexivity.
Qed.

Lemma ticket_values_decode (rows : Sheet) :
  map Tickets.ticket (TicketsService.decodeTickets rows) = ticket_values rows.
Proof.
  unfold TicketsService.decodeTickets, ticket_values. rewrite map_map. reflexivity.
Qed.

Lemma decodeTickets_snoc (rows : Sheet) (tk : jsstring) :
  rows <> [] -> tk <> [] ->
  TicketsService.decodeTickets (rows ++ [[tk; []]])
  = TicketsService.decodeTickets rows ++ [Tickets.mk tk []].
Proof.
  intros H Htk. unfold TicketsService.decodeTickets.
  rewrite drop_1_snoc, List.filter_app, map_app by exact H.
  destruct tk; [congruence|reflexivity].
Qed.

Lemma available_tickets_snoc (rows : Sheet) (tk : jsstring) :
  rows <> [] -> tk <> [] ->
  available_tickets (rows ++ [[tk; []]]) = available_tickets rows ++ [tk].
Proof.
  intros H Htk. unfold available_tickets.
  rewrite drop_1_snoc, List.filter_app, map_app by exact H.
  destruct tk; [congruence|reflexivity].
Qed.

Lemma some_false {A} (p : A -> bool) (l : list A) :
  some p l = false -> forall y, y ∈ l -> p y = false.
Proof.
  unfold some. destruct (find p l) eqn:E; [discriminate|].
  intros _. exact (find_None p l E).
Qed.

Lemma some_true {A} (p : A -> bool) (l : list A) (x : A) :
  x ∈ l -> p x = true -> some p l = true.
Proof.
  intros Hx Hp. unfold some. destruct (find p l) eqn:E; [reflexivity|].
  rewrite (find_None p l E x Hx) in Hp. discriminate.
Qed.

(** X9: a ticket that was created is found, and cannot be created
    again.  When createTicket has returned for a non-empty ticket on a
    sheet that had its header row, the ticket was on no row before, the
    ticket values of the sheet are the old ones followed by the new one,
    the new ticket joins the available ones as the last to be handed out,
    getTicket returns it with an empty status, and a second createTicket
    of the same ticket fails with the conflict and leaves the sheet as it
    is. *)
Theorem createTicket_then_getTicket (tk : jsstring) (w : World) (t : Ticket) :
  fst (TicketsService.createTicket tk w) = Returns t ->
  let w' := snd (TicketsService.createTicket tk w) in
  tickets_sheet w <> [] -> tk <> [] ->
  fails (reply_at w' 0) = false -> took (reply_at w' 0) < LOCK_TIMEOUT_MS ->
  t = Tickets.mk tk [] /\
  (tk ∉ ticket_values (tickets_sheet w)) /\
  ticket_values (tickets_sheet w') = ticket_values (tickets_sheet w) ++ [tk] /\
  available_tickets (tickets_sheet w') = available_tickets (tickets_sheet w) ++ [tk] /\
  fst (TicketsService.getTicket tk w') = Returns (Some (Tickets.mk tk [])) /\
  fst (TicketsService.createTicket tk w')
  = Throws (ConflictError (lit "Ticket already exists")) /\
  tickets_sheet (snd (TicketsService.createTicket tk w')) = tickets_sheet w'.
Proof.
  intros Hret0 w' Hheader Htk Hans Hquick.
  assert (Hret : TicketsService.createTicket_task tk w = (Returns t, w'))
    by exact (withWriteLock_returns _ _ _ Hret0).
  clearbody w'. clear Hret0.
  rewrite createTicket_task_run in Hret. cbv zeta in Hret.
  destruct (fails (reply_at w 0)); [discriminate|].
  destruct (some _ _) eqn:Hsome; [discriminate|].
  destruct (fails (reply_at w 1)); [discriminate|].
  injection Hret as <- Hw'.
  assert (Hsheet : tickets_sheet w' = tickets_sheet w ++ [[tk; []]])
    by (rewrite <- Hw'; reflexivity).
  assert (Hcache : cache (tickets_mod w') = None) by (rewrite <- Hw'; reflexivity).
  assert (Hdec : TicketsService.decodeTickets (tickets_sheet w')
                 = TicketsService.decodeTickets (tickets_sheet w) ++ [Tickets.mk tk []])
    by (rewrite Hsheet; apply decodeTickets_snoc; assumption).
  pose proof (some_false _ _ Hsome) as Hnone.
  split; [reflexivity|]. split.
  { rewrite <- ticket_values_decode. intros Hin.
    apply list_elem_of_fmap in Hin as (y & Hy & Hin).
    apply Hnone, eqb_false in Hin. congruence. }
  split.
  { rewrite <- !ticket_values_decode, Hdec, map_app. reflexivity. }
  split.
  { rewrite Hsheet. apply available_tickets_snoc; assumption. }
  split.
  { unfold TicketsService.getTicket, bind.
    rewrite readAllTickets_miss by (left; exact Hcache). rewrite Hans. cbn [fst ret].
    rewrite Hdec. f_equal. apply find_first; [exact Hnone|].
    apply eqb_true. reflexivity. }
  pose proof (createTicket_task_run tk w') as Hrun. cbv zeta in Hrun.
  rewrite Hans, Hdec in Hrun.
  rewrite (some_true _ _ (Tickets.mk tk [])) in Hrun;
    [|apply elem_of_app; right; left|apply eqb_true; reflexivity].
  unfold TicketsService.createTicket.
  rewrite (withWriteLock_timely _ _ _ _ Hrun).
  - split; reflexivity.
  - unfold tickets_fetched, reply_at in *. cbn in *. lia.
Qed.

Lemma uuid_keyed (row : Row) (id : jsstring) :
  id <> [] ->
  Orders.uuid (OrdersService.rowToOrder row) = id <-> cell row 0 = Some id.
Proof.
  intros Hid. cbn. unfold or_empty. destruct (cell row 0); cbn; split; congruence.
Qed.

Lemma alter_middle {A} (f : A -> A) (l : list A) (k : nat) (x : A) :
  l !! k = Some x -> alter f k l = take k l ++ f x :: drop (S k) l.
Proof.
  revert k. induction l as [|y l IH]; intros [|k] H; try discriminate.
  - injection H as ->. reflexivity.
  - cbn. f_equal. apply IH. exact H.
Qed.

(** The orders decoded from the rows before the first one that carries
    [id] do not have that identifier. *)
Lemma before_first_keyed (id : jsstring) (header : Row) (rest : Sheet) (k : nat) :
  id <> [] -> first_keyed id (header :: rest) (S k) ->
  forall y, y ∈ map OrdersService.rowToOrder (take k rest) ->
            eqb (Orders.uuid y) id = false.
Proof.
  intros Hid [_ Hfirst] y Hy.
  apply list_elem_of_fmap in Hy as (r & -> & Hr).
  apply list_elem_of_lookup in Hr as [j Hj].
  apply lookup_take_Some in Hj as [Hj Hlt].
  apply eqb_false. rewrite uuid_keyed by exact Hid. intros Hkey.
  apply (Hfirst (S j)); [lia|]. split; [lia|]. exists r. auto.
Qed.

(** X10: an order that was updated is read back as updated.  When
    updateOrder has returned for a non-empty identifier, getOrderById
    with that identifier, answered by the store, returns exactly the
    order updateOrder returned: the merged order is on the first row that
    carries the identifier, the one a lookup finds. *)
Theorem updateOrder_then_getOrderById
    (id : jsstring) (data : OrdersService.UpdateOrderData) (w : World) (o : Order) :
  fst (OrdersService.updateOrder id data w) = Returns o ->
  let w' := snd (OrdersService.updateOrder id data w) in
  id <> [] -> fails (reply_at w' 0) = false ->
  fst (OrdersService.getOrderById id w') = Returns (Some o).
Proof.
  intros Hret0 w' Hid Hans.
  assert (Hret : OrdersService.updateOrder_task id data w = (Returns o, w'))
    by exact (withWriteLock_returns _ _ _ Hret0).
  clearbody w'. clear Hret0.
  rewrite updateOrder_task_run in Hret. cbv zeta in Hret.
  destruct (fails (reply_at w 0)); [discriminate|].
  destruct (findIndex (OrdersService.is_row_of id) (pedidos_sheet w)) as [i|] eqn:E;
    [|discriminate].
  destruct (fails (reply_at w 1)); [discriminate|].
  injection Hret as Ho Hw'.
  pose proof (findIndex_lt _ _ _ E) as Hlt.
  apply findIndex_first_keyed_order in E as Hfirst.
  destruct (proj1 Hfirst) as (Hpos & row & Hrow & Hkey).
  rewrite (row_at_lookup _ _ _ Hrow) in Ho, Hw'.
  assert (Hcache : cache (orders_mod w') = None) by (rewrite <- Hw'; reflexivity).
  assert (Hsheet : pedidos_sheet w'
                   = alter (write_cells 0 (OrdersService.orderToRow o)) i (pedidos_sheet w)).
  { rewrite <- Hw', <- Ho. cbn [pedidos_sheet OrdersService.cleared set_orders_mod set_sheet].
    apply update_range_in_range, Hlt. }
  unfold OrdersService.getOrderById, bind.
  rewrite readAllOrders_miss by (left; exact Hcache). rewrite Hans. cbn [fst ret].
  f_equal. rewrite Hsheet.
  destruct (pedidos_sheet w) as [|header rest]; [discriminate|].
  destruct i as [|k]; [lia|]. cbn in Hrow.
  unfold OrdersService.decodeOrders.
  change (drop 1 (alter ?f (S k) (header :: rest))) with (alter f k rest).
  rewrite (alter_middle _ _ _ _ Hrow), map_app. cbn [map].
  rewrite rowToOrder_written. apply find_first.
  - apply (before_first_keyed id header rest k Hid Hfirst).
  - apply eqb_true. rewrite <- Ho. cbn. unfold or_empty. rewrite Hkey. reflexivity.
Qed.

(** X11: an order that was deleted is gone.  When deleteOrder has
    returned for a non-empty identifier that only one row carried,
    getOrderById with that identifier, answered by the store, returns
    null. *)
Theorem deleteOrder_then_getOrderById (id : jsstring) (w : World) :
  fst (OrdersService.deleteOrder id w) = Returns tt ->
  let w' := snd (OrdersService.deleteOrder id w) in
  id <> [] ->
  (forall i j, keyed_at id (pedidos_sheet w) i -> keyed_at id (pedidos_sheet w) j ->
               i = j) ->
  fails (reply_at w' 0) = false ->
  fst (OrdersService.getOrderById id w') = Returns None.
Proof.
  intros Hret0 w' Hid Honce Hans.
  assert (Hret : OrdersService.deleteOrder_task id w = (Returns tt, w'))
    by exact (withWriteLock_returns _ _ _ Hret0).
  clearbody w'. clear Hret0.
  assert (Hstate : exists i, first_keyed id (pedidos_sheet w) i /\
                     pedidos_sheet w' = delete i (pedidos_sheet w) /\
                     cache (orders_mod w') = None).
  { rewrite deleteOrder_task_run in Hret. cbv zeta in Hret.
    destruct (findIndex (OrdersService.is_row_of id) (pedidos_sheet w)) as [i|] eqn:E.
    - apply findIndex_first_keyed_order in E. exists i. split; [exact E|].
      repeat case_match; try discriminate; injection Hret as <-; split; reflexivity.
    - repeat case_match; discriminate. }
  destruct Hstate as (i & Hfirst & Hsheet & Hcache).
  unfold OrdersService.getOrderById, bind.
  rewrite readAllOrders_miss by (left; exact Hcache). rewrite Hans. cbn [fst ret].
  f_equal. apply find_none. intros y Hy. apply eqb_false.
  unfold OrdersService.decodeOrders in Hy.
  apply list_elem_of_fmap in Hy as (r & -> & Hr).
  apply list_elem_of_lookup in Hr as [n Hn].
  rewrite lookup_drop, Hsheet in Hn. cbn in Hn.
  rewrite uuid_keyed by exact Hid. intros Hkey.
  destruct (decide (S n < i)%nat) as [Hlt|Hge].
  - rewrite list_lookup_delete_lt in Hn by exact Hlt.
    assert (S n = i); [|lia].
    apply Honce; [|apply Hfirst]. split; [lia|]. exists r. auto.
  - rewrite list_lookup_delete_ge in Hn by lia.
    assert (S (S n) = i); [|lia].
    apply Honce; [|apply Hfirst]. split; [lia|]. exists r. auto.
Qed.

(** ** Listing orders *)

Lemma slice_page {A} (off lim : Z) (l : list A) :
  0 <= off -> 0 <= lim ->
  slice off (off + lim) l = take (Z.to_nat lim) (drop (Z.to_nat off) l).
Proof.
  intros Hoff Hlim. unfold slice, slice_bound.
  destruct (off <? 0) eqn:E1; [apply Z.ltb_lt in E1; lia|].
  destruct (off + lim <? 0) eqn:E2; [apply Z.ltb_lt in E2; lia|].
  destruct (decide (Z.of_nat (length l) <= off)) as [Hout|Hin].
  - rewrite !Z.min_r by lia. rewrite Nat2Z.id, Nat.sub_diag.
    rewrite (drop_ge l (Z.to_nat off)) by lia. rewrite take_nil. reflexivity.
  - rewrite (Z.min_l off) by lia.
    destruct (decide (off + lim <= Z.of_nat (length l))) as [Hfit|Hover].
    + rewrite Z.min_l by lia. f_equal. lia.
    + rewrite Z.min_r by lia. rewrite Nat2Z.id.
      rewrite !take_ge; [reflexivity| |]; rewrite length_drop; lia.
Qed.

Lemma take_add_drop {A} (n k : nat) (l : list A) :
  take (n + k) l = take n l ++ take k (drop n l).
Proof.
  revert l. induction n as [|n IH]; intros [|x l]; cbn; try reflexivity.
  - rewrite take_nil. reflexivity.
  - f_equal. apply IH.
Qed.

Lemma filter_is_sublist {A} (p : A -> bool) (l : list A) :
  sublist (List.filter p l) l.
Proof.
  induction l as [|x l IH]; cbn; [constructor|].
  destruct (p x); constructor; exact IH.
Qed.

Section ListFilters.
Variable toLowerCase : jsstring -> jsstring.

Lemma filter_if_sublist (k : option jsstring) (p : jsstring -> Order -> bool)
    (os : list Order) :
  sublist (OrdersService.filter_if k p os) os.
Proof.
  unfold OrdersService.filter_if. destruct k as [s|]; [|reflexivity].
  destruct (truthy s); [apply filter_is_sublist|reflexivity].
Qed.

Lemma filter_if_elem (k : option jsstring) (p : jsstring -> Order -> bool)
    (os : list Order) (o : Order) :
  o ∈ OrdersService.filter_if k p os <->
  o ∈ os /\ (forall s, k = Some s -> s <> [] -> p s o = true).
Proof.
  unfold OrdersService.filter_if. destruct k as [[|c s]|]; cbn [truthy].
  - split; [|tauto]. intros H. split; [exact H|]. intros s [= <-] Hs. congruence.
  - rewrite list_elem_of_In, List.filter_In, <- list_elem_of_In. split.
    + intros [Ho Hp]. split; [exact Ho|]. intros s' [= <-] _. exact Hp.
    + intros [Ho Hp]. split; [exact Ho|]. apply Hp; [reflexivity|discriminate].
  - split; [|tauto]. intros H. split; [exact H|]. intros s Hs. discriminate.
Qed.

Lemma applyFilters_sublist (filters : option OrdersService.OrderFilters)
    (os : list Order) :
  sublist (OrdersService.applyFilters toLowerCase filters os) os.
Proof.
  unfold OrdersService.applyFilters. destruct filters as [f|]; [|reflexivity].
  etransitivity; [apply filter_if_sublist|].
  etransitivity; [apply filter_if_sublist|]. apply filter_if_sublist.
Qed.

Lemma applyFilters_elem (filters : option OrdersService.OrderFilters)
    (os : list Order) (o : Order) :
  o ∈ OrdersService.applyFilters toLowerCase filters os <->
  o ∈ os /\ matches toLowerCase filters o.
Proof.
  unfold OrdersService.applyFilters, matches. destruct filters as [f|].
  - rewrite !filter_if_elem.
    unfold OrdersService.same_status, OrdersService.same_ticket,
      OrdersService.same_oab.
    setoid_rewrite eqb_true. split.
    + intros [[[Ho Hs] Ht] Hn]. split; [exact Ho|]. intros f' [= <-]. auto.
    + intros [Ho H]. destruct (H f eq_refl) as (Hs & Ht & Hn). auto.
  - split; [|tauto]. intros H. split; [exact H|]. intros f Hf. discriminate.
Qed.

Lemma getAllOrders_run (filters : option OrdersService.OrderFilters) (w : World) :
  OrdersService.getAllOrders toLowerCase filters w =
  match OrdersService.readAllOrders w with
  | (Returns all, w1) =>
      let matching := OrdersService.applyFilters toLowerCase filters all in
      (Returns
         (OrdersService.mkPage
            (slice (OrdersService.offset_of filters)
               (OrdersService.offset_of filters + OrdersService.limit_of filters)
               matching)
            (length matching)), w1)
  | (Throws e, w1) => (Throws e, w1)
  end.
Proof.
  unfold OrdersService.getAllOrders, bind.
  destruct (OrdersService.readAllOrders w) as [[all|e] w1]; reflexivity.
Qed.

End ListFilters.

(** X12: what a listing returns.  When the orders are read as [all],
    getAllOrders returns as total the number of all orders that pass
    every filter given and not empty, whatever the window, and as page at
    most [limit] of them: those from position [offset] on, in the order
    of the sheet; an offset past the end gives an empty page and no
    failure; an empty filter string filters nothing.  The window is
    [offset] 0 and [limit] 50 where none is given. *)
Theorem getAllOrders_page (toLowerCase : jsstring -> jsstring)
    (filters : option OrdersService.OrderFilters) (w : World) (all : list Order) :
  fst (OrdersService.readAllOrders w) = Returns all ->
  let offset := default 0 (filters ≫= OrdersService.f_offset) in
  let limit := default 50 (filters ≫= OrdersService.f_limit) in
  0 <= offset -> 0 <= limit ->
  exists matching page,
    sublist matching all /\
    (forall o, o ∈ matching <-> o ∈ all /\ matches toLowerCase filters o) /\
    OrdersService.getAllOrders toLowerCase filters w
    = (Returns (OrdersService.mkPage page (length matching)),
       snd (OrdersService.readAllOrders w)) /\
    page = take (Z.to_nat limit) (drop (Z.to_nat offset) matching) /\
    length page = Nat.min (Z.to_nat limit) (length matching - Z.to_nat offset).
Proof.
  intros Hread offset limit Hoff Hlim.
  exists (OrdersService.applyFilters toLowerCase filters all).
  eexists. split; [apply applyFilters_sublist|].
  split; [intros o; apply applyFilters_elem|].
  rewrite getAllOrders_run.
  destruct (OrdersService.readAllOrders w) as [[all'|e] w1]; [|discriminate].
  injection Hread as ->. cbv zeta. cbn [snd].
  change (OrdersService.offset_of filters) with offset.
  change (OrdersService.limit_of filters) with limit.
  rewrite slice_page by assumption.
  split; [reflexivity|]. split; [reflexivity|].
  rewrite length_take, length_drop. reflexivity.
Qed.

(** X13: consecutive pages tile the listing.  Against the same state
    and with the same filters, the page of [la] orders at [offset]
    followed by the page of [lb] orders at [offset + la] is the page of
    [la + lb] orders at [offset]: between one page and the next no order
    is skipped and none is repeated, and all three report the same
    total. *)
Theorem getAllOrders_pages_tile (toLowerCase : jsstring -> jsstring)
    (f : OrdersService.OrderFilters) (offset la lb : Z) (w : World)
    (pa pb : OrdersService.PaginatedOrders) :
  0 <= offset -> 0 <= la -> 0 <= lb ->
  fst (OrdersService.getAllOrders toLowerCase (window f la offset) w) = Returns pa ->
  fst (OrdersService.getAllOrders toLowerCase (window f lb (offset + la)) w)
  = Returns pb ->
  fst (OrdersService.getAllOrders toLowerCase (window f (la + lb) offset) w)
  = Returns (OrdersService.mkPage
               (OrdersService.orders pa ++ OrdersService.orders pb)
               (OrdersService.total pa)) /\
  OrdersService.total pb = OrdersService.total pa.
Proof.
  intros Hoff Hla Hlb. rewrite !getAllOrders_run.
  destruct (OrdersService.readAllOrders w) as [[all|e] w1]; [|discriminate].
  cbv zeta. cbn [fst]. intros [= <-] [= <-]. cbn [OrdersService.orders OrdersService.total].
  split; [|reflexivity]. f_equal.
  change (OrdersService.applyFilters toLowerCase (window f ?l ?o) all)
    with (OrdersService.applyFilters toLowerCase (Some f) all).
  set (matching := OrdersService.applyFilters toLowerCase (Some f) all).
  change (OrdersService.offset_of (window f ?l ?o)) with o.
  change (OrdersService.limit_of (window f ?l ?o)) with l.
  rewrite !slice_page by lia. f_equal.
  rewrite !Z2Nat.inj_add by lia.
  rewrite take_add_drop, drop_drop. reflexivity.
Qed.

(** ** Ticket values stay unique *)

Lemma named_truthy (row : Row) :
  truthy_opt (cell row 0) = truthy (text row 0).
Proof. unfold text, or_empty. destruct (cell row 0); reflexivity. Qed.

Lemma map_filter_alter_same {A B} (p : A -> bool) (g : A -> B) (f : A -> A)
    (i : nat) (l : list A) :
  (forall x, p (f x) = p x) -> (forall x, g (f x) = g x) ->
  map g (List.filter p (alter f i l)) = map g (List.filter p l).
Proof.
  intros Hp Hg. revert i. induction l as [|x l IH]; intros [|i]; cbn;
    try reflexivity.
  - rewrite Hp. destruct (p x); cbn; rewrite ?Hg; reflexivity.
  - destruct (p x); cbn; rewrite IH; reflexivity.
Qed.

Lemma drop_1_alter {A} (f : A -> A) (i : nat) (l : list A) :
  drop 1 (alter f i l)
  = match i with O => drop 1 l | S k => alter f k (drop 1 l) end.
Proof. destruct l as [|x l], i as [|k]; reflexivity. Qed.

(** Writing the status column leaves the ticket values as they are. *)
Lemma ticket_values_status (i : nat) (vals : Row) (rows : Sheet) :
  (i < length rows)%nat ->
  ticket_values (update_range i 1 vals rows) = ticket_values rows.
Proof.
  intros Hlt. rewrite update_range_in_range by exact Hlt.
  unfold ticket_values. rewrite drop_1_alter. destruct i as [|k]; [reflexivity|].
  apply map_filter_alter_same.
  - intros row. rewrite !named_truthy, write_cells_text by (left; lia). reflexivity.
  - intros row. apply write_cells_text. left. lia.
Qed.

(** The ticket values around the first row that carries [a], before and
    after its first cell is overwritten with [b]. *)
Lemma ticket_values_rename (a b : jsstring) (rows : Sheet) (i : nat) :
  first_keyed a rows i ->
  exists before after,
    ticket_values rows = before ++ (if truthy a then [a] else []) ++ after /\
    ticket_values (update_range i 0 [b] rows)
    = before ++ (if truthy b then [b] else []) ++ after.
Proof.
  intros [(Hpos & row & Hrow & Hkey) Hfirst].
  assert (Hlt : (i < length rows)%nat) by (eapply lookup_lt_Some, Hrow).
  rewrite update_range_in_range by exact Hlt.
  destruct i as [|k]; [lia|]. destruct rows as [|header rest]; [discriminate|].
  cbn in Hrow. unfold ticket_values. rewrite drop_1_alter.
  change (drop 1 (header :: rest)) with rest.
  set (named := fun row : Row => truthy_opt (cell row 0)).
  destruct (filter_split_at named rest k row Hrow) as [Hall _].
  exists (map (fun row => text row 0) (List.filter named (take k rest))),
         (map (fun row => text row 0) (List.filter named (drop (S k) rest))).
  assert (Hcell : cell (write_cells 0 [b] row) 0 = Some b)
    by (unfold cell; rewrite write_cells_lookup; reflexivity).
  split.
  - assert (Hn : named row = truthy a) by (unfold named; rewrite Hkey; reflexivity).
    assert (Ht : text row 0 = a) by (unfold text, or_empty; rewrite Hkey; reflexivity).
    rewrite Hall, !map_app, Hn. destruct (truthy a); cbn [map]; rewrite ?Ht; reflexivity.
  - rewrite (alter_middle _ _ _ _ Hrow), List.filter_app, map_app. f_equal.
    cbn [List.filter].
    assert (Hn : named (write_cells 0 [b] row) = truthy b)
      by (unfold named; rewrite Hcell; reflexivity).
    assert (Ht : text (write_cells 0 [b] row) 0 = b)
      by (unfold text, or_empty; rewrite Hcell; reflexivity).
    rewrite Hn. destruct (truthy b); cbn [map app]; rewrite ?Ht; reflexivity.
Qed.

Lemma NoDup_middle_out {A} (before mid after : list A) :
  NoDup (before ++ mid ++ after) -> NoDup (before ++ after).
Proof.
  intros H. eapply sublist_NoDup; [exact H|].
  apply sublist_app; [reflexivity|]. apply sublist_inserts_l. reflexivity.
Qed.

Lemma NoDup_middle_in {A} (before after : list A) (x : A) :
  NoDup (before ++ after) -> x ∉ before -> x ∉ after ->
  NoDup (before ++ [x] ++ after).
Proof.
  intros H Hb Ha. apply NoDup_app in H as (H1 & H2 & H3).
  apply NoDup_app. split; [exact H1|]. split.
  - intros y Hy Hin. apply elem_of_cons in Hin as [->|Hin]; [auto|].
    exact (H2 y Hy Hin).
  - apply NoDup_cons. auto.
Qed.

Lemma ticket_values_snoc (rows : Sheet) (tk : jsstring) :
  ticket_values (rows ++ [[tk; []]])
  = match rows with
    | [] => []
    | _ :: _ => ticket_values rows ++ (if truthy tk then [tk] else [])
    end.
Proof.
  destruct rows as [|header rest]; [reflexivity|].
  unfold ticket_values. cbn [app drop]. rewrite !drop_0.
  rewrite List.filter_app, map_app. f_equal. destruct tk; reflexivity.
Qed.

(** X14: every write operation keeps the ticket values of the tickets
    sheet unique, provided a rename does not choose a value already in
    use.  Whatever the store answers, createTicket, deleteTicket and
    the three order operations, allocation included, never put the same
    ticket on two rows; updateTicket does not look at the other rows,
    and keeps the values unique when its new value is the old one or on
    no row. *)
Theorem ticket_values_stay_unique (op : WriteOp) (w : World) :
  NoDup (ticket_values (tickets_sheet w)) ->
  (forall a b, op = UpdateTicket a b ->
     b = a \/ b ∉ ticket_values (tickets_sheet w)) ->
  NoDup (ticket_values (tickets_sheet (snd (perform op w)))).
Proof.
  intros Hnd Hrename. rewrite perform_world.
  destruct op; cbn [task_of outcome_of snd].
  - (* createTicket *)
    rewrite createTicket_task_run. cbv zeta.
    destruct (fails (reply_at w 0)); [exact Hnd|].
    destruct (some _ _) eqn:Hsome; [exact Hnd|].
    destruct (fails (reply_at w 1)); [exact Hnd|].
    assert (Hfresh : tk ∉ ticket_values (tickets_sheet w)).
    { rewrite <- ticket_values_decode. intros Hin.
      apply list_elem_of_fmap in Hin as (t & Ht & Hin).
      apply (some_false _ _ Hsome), eqb_false in Hin. congruence. }
    clear Hsome.
    cbn [snd]. change (NoDup (ticket_values (tickets_sheet w ++ [[tk; []]]))).
    rewrite ticket_values_snoc.
    destruct (tickets_sheet w) as [|header rest]; [constructor|].
    destruct (truthy tk); [|rewrite app_nil_r; exact Hnd].
    apply NoDup_app. split; [exact Hnd|]. split; [|apply NoDup_singleton].
    intros y Hy Hin. apply list_elem_of_singleton in Hin as ->. auto.
  - (* updateTicket *)
    rewrite updateTicket_task_run. cbv zeta.
    destruct (fails (reply_at w 0)); [exact Hnd|].
    destruct (findIndex _ (tickets_sheet w)) as [i|] eqn:E; [|exact Hnd].
    destruct (fails (reply_at w 1)); [exact Hnd|].
    cbn [snd].
    change (NoDup (ticket_values (update_range i 0 [newTicket] (tickets_sheet w)))).
    apply findIndex_first_keyed in E.
    destruct (ticket_values_rename oldTicket newTicket _ i E)
      as (before & after & Hold & ->).
    destruct (Hrename oldTicket newTicket eq_refl) as [->|Hnew];
      [rewrite <- Hold; exact Hnd|].
    rewrite Hold in Hnd, Hnew.
    destruct (truthy newTicket); [|exact (NoDup_middle_out _ _ _ Hnd)].
    apply NoDup_middle_in; [exact (NoDup_middle_out _ _ _ Hnd)| |];
      intros Hin; apply Hnew; rewrite !elem_of_app; auto.
  - (* deleteTicket *)
    rewrite deleteTicket_task_run. cbv zeta.
    destruct (fails (reply_at w 0)); [exact Hnd|].
    destruct (findIndex _ (tickets_sheet w)) as [i|] eqn:E; [|exact Hnd].
    apply findIndex_first_keyed in E.
    destruct (ticket_values_delete tk _ i E) as (before & after & Hold & Hnew & _).
    assert (Hnd' : NoDup (ticket_values (delete i (tickets_sheet w)))).
    { rewrite Hnew. apply (NoDup_middle_out before (if truthy tk then [tk] else [])).
      rewrite <- Hold. exact Hnd. }
    destruct (cachedSheetId (tickets_mod w)).
    + destruct (fails (reply_at w 1)); [exact Hnd|exact Hnd'].
    + destruct (fails (reply_at w 1)); [exact Hnd|].
      destruct (sheet_ids w TicketsSheet); [|exact Hnd].
      destruct (fails (reply_at w 2)); [exact Hnd|exact Hnd'].
  - (* createOrder *)
    destruct (createOrder_task_tickets data w) as (r & w' & Hrun & Hcases).
    rewrite Hrun. cbn [snd].
    destruct Hcases as [[-> _] | (i & row & _ & Hrow & -> & _)]; [exact Hnd|].
    rewrite ticket_values_status by (eapply lookup_lt_Some, Hrow). exact Hnd.
  - (* updateOrder *)
    pose proof (order_ops_tickets_alone (UpdateOrder id data)
                  ltac:(discriminate) eq_refl w) as (Hsheet & _).
    rewrite perform_world in Hsheet. cbn [task_of outcome_of snd] in Hsheet.
    rewrite Hsheet. exact Hnd.
  - (* deleteOrder *)
    pose proof (order_ops_tickets_alone (DeleteOrder id)
                  ltac:(discriminate) eq_refl w) as (Hsheet & _).
    rewrite perform_world in Hsheet. cbn [task_of outcome_of snd] in Hsheet.
    rewrite Hsheet. exact Hnd.
Qed.

(** ** Rows and orders *)

(** X15: rows and orders convert back and forth.  A sheet made of a
    header and the rows of a list of orders decodes to that list; and
    the row of a decoded order is the row it was decoded from, cut or
    filled with empty cells to the nine columns. *)
Theorem order_rows_round_trip (header : Row) (os : list Order) (row : Row) :
  OrdersService.decodeOrders (header :: map OrdersService.orderToRow os) = os /\
  OrdersService.orderToRow (OrdersService.rowToOrder row) = take 9 (pad_to 9 [] row).
Proof.
  split.
  - unfold OrdersService.decodeOrders. cbn [drop]. rewrite drop_0, map_map.
    induction os as [|o os IH]; cbn [map]; [reflexivity|].
    rewrite rowToOrder_orderToRow, IH. reflexivity.
  - do 9 (destruct row as [|? row]; [reflexivity|]). reflexivity.
Qed.

(** ** One ticket per OAB number *)

Lemma trimStart_idem (s : jsstring) : trimStart (trimStart s) = trimStart s.
Proof.
  induction s as [|c s IH]; cbn; [reflexivity|].
  destruct (is_ws c) eqn:E; [exact IH|]. cbn. rewrite E. reflexivity.
Qed.

Lemma trimStart_snoc (l : jsstring) (c : N) :
  is_ws c = false -> exists l', trimStart (l ++ [c]) = l' ++ [c].
Proof.
  intros Hc. induction l as [|a l IH]; cbn.
  - rewrite Hc. exists []. reflexivity.
  - destruct (is_ws a); [exact IH|]. exists (a :: l). reflexivity.
Qed.

Lemma trim_idempotent (s : jsstring) : trim (trim s) = trim s.
Proof.
  unfold trim.
  assert (Hstart : trimStart (trimEnd (trimStart s)) = trimEnd (trimStart s)).
  { pose proof (trimStart_idem s) as Hidem.
    destruct (trimStart s) as [|c t] eqn:Et; [reflexivity|].
    assert (Hc : is_ws c = false).
    { cbn in Hidem. destruct (is_ws c); [|reflexivity].
      exfalso. clear -Hidem. assert (Hlen : (length (trimStart t) <= length t)%nat).
      { clear. induction t as [|a t IH]; cbn; [lia|]. destruct (is_ws a); cbn; lia. }
      rewrite Hidem in Hlen. cbn in Hlen. lia. }
    unfold trimEnd. rewrite reverse_cons.
    destruct (trimStart_snoc (reverse t) c Hc) as [l' ->].
    rewrite reverse_snoc. cbn. rewrite Hc. reflexivity. }
  rewrite Hstart. unfold trimEnd at 1 2.
  rewrite reverse_involutive, trimStart_idem. reflexivity.
Qed.

Lemma normalizeOab_trimmed (d : OrdersService.CreateOrderData) :
  trim (OrdersService.normalizeOab d) = OrdersService.normalizeOab d.
Proof.
  unfold OrdersService.normalizeOab, or_empty.
  destruct (OrdersService.c_numero_oab d) as [s|]; cbn; [apply trim_idempotent|].
  reflexivity.
Qed.

(** What a createOrder task that returned without a conflict has found
    and recorded. *)
Lemma createOrder_task_approved (d : OrdersService.CreateOrderData) (w w' : World)
    (res : OrdersService.CreateOrderResult) :
  OrdersService.createOrder_task d w = (Returns res, w') ->
  Orders.numero_oab (OrdersService.order res) = OrdersService.normalizeOab d /\
  (OrdersService.conflict res = None ->
   OrdersService.findExisting (OrdersService.normalizeOab d)
     (OrdersService.decodeOrders (pedidos_sheet w)) = None).
Proof.
  destruct (fails (reply_at w 0)) eqn:H0.
  { rewrite (createOrder_task_read_rejected d w H0). discriminate. }
  destruct (OrdersService.findExisting (OrdersService.normalizeOab d)
              (OrdersService.decodeOrders (pedidos_sheet w))) as [x|] eqn:He.
  { rewrite (createOrder_task_duplicate d w x H0 He).
    destruct (fails (reply_at w 1)); intros [= <- <-].
    split; [reflexivity|discriminate]. }
  set (w1 := orders_fetched (OrdersService.cleared w)).
  destruct (fails (reply_at w1 0)) eqn:H1.
  { rewrite (createOrder_task_no_ticket d w _ _ H0 He (assign_read_rejected w1 H1)).
    discriminate. }
  destruct (findIndex TicketsService.is_available (tickets_sheet w1)) as [i|] eqn:Ei.
  - destruct (fails (reply_at w1 1)) eqn:H2.
    + rewrite (createOrder_task_no_ticket d w _ _ H0 He
                 (assign_update_rejected w1 i H1 H2 Ei)).
      discriminate.
    + rewrite (createOrder_task_ticket d w _ _ H0 He (assign_marks w1 i H1 H2 Ei)).
      destruct (fails (reply_at (marked i w1) 0)); intros [= <- <-].
      split; reflexivity.
  - rewrite (createOrder_task_no_ticket d w _ _ H0 He (assign_none w1 H1 Ei)).
    discriminate.
Qed.

(** X16: one ticket per OAB number, from one creation to the next.
    When createOrder has returned an order without a conflict for a
    non-empty OAB number, a second createOrder whose OAB number trims to
    the same value, with the store answering, is refused: it returns an
    order with no ticket and status Recusado together with the ticket and
    the date of the first order, and it leaves the tickets sheet as it
    is. *)
Theorem second_order_for_oab_refused
    (d1 d2 : OrdersService.CreateOrderData) (w : World)
    (res1 : OrdersService.CreateOrderResult) :
  fst (OrdersService.createOrder d1 w) = Returns res1 ->
  OrdersService.conflict res1 = None ->
  let w1 := snd (OrdersService.createOrder d1 w) in
  let o1 := OrdersService.order res1 in
  OrdersService.normalizeOab d1 <> [] ->
  OrdersService.normalizeOab d2 = OrdersService.normalizeOab d1 ->
  pedidos_sheet w <> [] ->
  responsive 2 w1 ->
  exists o2 w2,
    OrdersService.createOrder d2 w1
    = (Returns (OrdersService.mkResult o2
                  (Some (OrdersService.mkConflict (Orders.ticket o1)
                           (Orders.data_solicitacao o1)))), w2) /\
    Orders.ticket o2 = [] /\
    Orders.status o2 = OrdersService.RECUSADO /\
    tickets_sheet w2 = tickets_sheet w1 /\
    pedidos_sheet w2 = pedidos_sheet w1 ++ [OrdersService.orderToRow o2].
Proof.
  intros Hret Hnoconf w1 o1 Hn Hsame Hheader [Hacc Htime].
  assert (Hrun1 : OrdersService.createOrder_task d1 w = (Returns res1, w1))
    by exact (withWriteLock_returns _ _ _ Hret).
  clearbody w1.
  destruct (createOrder_task_returns _ _ _ _ Hrun1) as (Hsheet & _ & _).
  destruct (createOrder_task_approved _ _ _ _ Hrun1) as (Hoab & Hnone).
  specialize (Hnone Hnoconf). fold o1 in Hsheet, Hoab.
  assert (H0 : fails (reply_at w1 0) = false) by (apply Hacc; lia).
  assert (H1 : fails (reply_at w1 1) = false) by (apply Hacc; lia).
  assert (He : OrdersService.findExisting (OrdersService.normalizeOab d2)
                 (OrdersService.decodeOrders (pedidos_sheet w1)) = Some o1).
  { rewrite Hsame, Hsheet, decodeOrders_snoc by exact Hheader.
    apply findExisting_None in Hnone as [Hnone|Hnone]; [congruence|].
    unfold OrdersService.findExisting.
    destruct (OrdersService.normalizeOab d1) eqn:En; [congruence|]. cbn [truthy].
    apply find_first.
    - intros y Hy. apply eqb_false, Hnone, Hy.
    - apply eqb_true. rewrite Hoab, <- En. apply normalizeOab_trimmed. }
  pose proof (createOrder_task_duplicate d2 w1 o1 H0 He) as Hrun.
  cbv zeta in Hrun. rewrite H1 in Hrun.
  eexists _, _. split.
  { apply (withWriteLock_timely _ _ _ _ Hrun). timing. }
  repeat split; reflexivity.
Qed.

(** ** More of the promise chain *)

Section WriteLockMore.
Import WriteLock.
Context {S V : Type}.

Implicit Types (j : Job S V) (l : Lock S V).

Lemma settle_settled (r : Outcome V) (p : Promise V) :
  p <> Pending -> settle r p = p.
Proof. destruct p; [congruence|reflexivity..]. Qed.

Lemma fire_keeps (ev : Event S V) l l' (k : nat) j :
  fire ev l = Some l' -> jobs l !! k = Some j ->
  exists j', jobs l' !! k = Some j' /\ fn j' = fn j /\
             (result j <> Pending -> result j' = result j) /\
             (is_finished j = true -> j' = j).
Proof.
  intros Hfire Hk.
  assert (Hlt : (k < length (jobs l))%nat) by (eapply lookup_lt_Some, Hk).
  assert (Hsame : exists j', jobs l !! k = Some j' /\ fn j' = fn j /\
             (result j <> Pending -> result j' = result j) /\
             (is_finished j = true -> j' = j)) by (exists j; auto).
  destruct ev as [task | k0 | k0 | k0 | k0 | d]; cbn in Hfire.
  - injection Hfire as <-. cbn. rewrite lookup_app_l by exact Hlt. exact Hsame.
  - destruct (jobs l !! k0) as [[f ph p]|] eqn:Hk0; [|discriminate].
    destruct ph; try discriminate.
    destruct (chain_fulfilled l k0); [|discriminate]. injection Hfire as <-. cbn.
    destruct (decide (k0 = k)) as [->|Hne];
      [|rewrite list_lookup_insert_ne by exact Hne; exact Hsame].
    rewrite list_lookup_insert_eq by exact Hlt. rewrite Hk in Hk0. injection Hk0 as ->.
    eexists. split; [reflexivity|]. repeat split; [discriminate].
  - destruct (jobs l !! k0) as [[f ph p]|] eqn:Hk0; [|discriminate].
    destruct ph as [|rest t0|]; try discriminate.
    destruct rest as [|act next]; [discriminate|]. injection Hfire as <-. cbn.
    destruct (decide (k0 = k)) as [->|Hne];
      [|rewrite list_lookup_insert_ne by exact Hne; exact Hsame].
    rewrite list_lookup_insert_eq by exact Hlt. rewrite Hk in Hk0. injection Hk0 as ->.
    eexists. split; [reflexivity|]. repeat split; [discriminate].
  - destruct (jobs l !! k0) as [[f ph p]|] eqn:Hk0; [|discriminate].
    destruct ph as [|rest t0|]; try discriminate.
    destruct rest as [r|]; [|discriminate]. injection Hfire as <-. cbn.
    destruct (decide (k0 = k)) as [->|Hne];
      [|rewrite list_lookup_insert_ne by exact Hne; exact Hsame].
    rewrite list_lookup_insert_eq by exact Hlt. rewrite Hk in Hk0. injection Hk0 as ->.
    eexists. split; [reflexivity|]. cbn. split; [reflexivity|].
    split; [apply settle_settled|discriminate].
  - destruct (jobs l !! k0) as [[f ph p]|] eqn:Hk0; [|discriminate].
    destruct ph as [|rest t0|]; try discriminate.
    destruct (_ <=? _); [|discriminate]. injection Hfire as <-. cbn.
    destruct (decide (k0 = k)) as [->|Hne];
      [|rewrite list_lookup_insert_ne by exact Hne; exact Hsame].
    rewrite list_lookup_insert_eq by exact Hlt. rewrite Hk in Hk0. injection Hk0 as ->.
    eexists. split; [reflexivity|]. cbn. split; [reflexivity|].
    split; [apply settle_settled|discriminate].
  - destruct (0 <=? d); [|discriminate]. injection Hfire as <-. exact Hsame.
Qed.

Lemma fire_own_result (ev : Event S V) l l' :
  no_timer ev = true -> fire ev l = Some l' ->
  Forall (fun j => result j = own_result j) (jobs l) ->
  Forall (fun j => result j = own_result j) (jobs l').
Proof.
  intros Hev Hfire Hinv.
  destruct ev as [task | k0 | k0 | k0 | k0 | d]; cbn in Hfire; try discriminate.
  - injection Hfire as <-. cbn. apply Forall_app. split; [exact Hinv|].
    repeat constructor.
  - destruct (jobs l !! k0) as [[f ph p]|] eqn:Hk0; [|discriminate].
    destruct ph; try discriminate.
    destruct (chain_fulfilled l k0); [|discriminate]. injection Hfire as <-. cbn.
    apply Forall_insert; [exact Hinv|].
    exact (proj1 (Forall_lookup _ _) Hinv k0 _ Hk0).
  - destruct (jobs l !! k0) as [[f ph p]|] eqn:Hk0; [|discriminate].
    destruct ph as [|rest t0|]; try discriminate.
    destruct rest as [|act next]; [discriminate|]. injection Hfire as <-. cbn.
    apply Forall_insert; [exact Hinv|].
    exact (proj1 (Forall_lookup _ _) Hinv k0 _ Hk0).
  - destruct (jobs l !! k0) as [[f ph p]|] eqn:Hk0; [|discriminate].
    destruct ph as [|rest t0|]; try discriminate.
    destruct rest as [r|]; [|discriminate]. injection Hfire as <-. cbn.
    apply Forall_insert; [exact Hinv|].
    pose proof (proj1 (Forall_lookup _ _) Hinv k0 _ Hk0) as Hp.
    unfold own_result in *. cbn in *. rewrite Hp. reflexivity.
  - destruct (0 <=? d); [|discriminate]. injection Hfire as <-. exact Hinv.
Qed.

End WriteLockMore.

(** X17: a promise settles once, and a call keeps its place.  Along
    any run of the chain, the link at a position stays at that position
    with the task it was submitted with; once the promise handed to its
    caller is resolved or rejected, by the task or by the timer, nothing
    that happens later changes it; and a link that has completed is
    never run again. *)
Theorem promise_settles_once {S V : Type}
    (evs : list (WriteLock.Event S V)) (l l' : WriteLock.Lock S V)
    (k : nat) (j : WriteLock.Job S V) :
  WriteLock.run evs l = Some l' -> WriteLock.jobs l !! k = Some j ->
  exists j', WriteLock.jobs l' !! k = Some j' /\
             WriteLock.fn j' = WriteLock.fn j /\
             (WriteLock.result j <> WriteLock.Pending ->
              WriteLock.result j' = WriteLock.result j) /\
             (WriteLock.is_finished j = true -> j' = j).
Proof.
  revert l j. induction evs as [|ev evs IH]; intros l j Hrun Hk; cbn in Hrun.
  - injection Hrun as <-. exists j. auto.
  - destruct (WriteLock.fire ev l) as [l1|] eqn:Hfire; [|discriminate].
    destruct (fire_keeps ev l l1 k j Hfire Hk) as (j1 & Hk1 & Hfn1 & Hres1 & Hfin1).
    destruct (IH l1 j1 Hrun Hk1) as (j' & Hk' & Hfn' & Hres' & Hfin').
    exists j'. split; [exact Hk'|]. split; [congruence|]. split.
    + intros Hp. rewrite Hres'; [auto|]. rewrite Hres1; assumption.
    + intros Hf. rewrite <- (Hfin1 Hf). apply Hfin'. rewrite (Hfin1 Hf). exact Hf.
Qed.

(** X18: the lock without its timer hands every caller the outcome of
    its own task.  In every state the chain reaches when no timer fires,
    as in the earlier writeLock.ts that arms none, the promise of a call
    is pending until its task has settled and from then on holds that
    task's result or that task's failure, never anything else. *)
Theorem lock_without_timer {S V : Type} (s0 : S)
    (evs : list (WriteLock.Event S V)) (l : WriteLock.Lock S V) :
  forallb no_timer evs = true ->
  WriteLock.run evs (WriteLock.init s0) = Some l ->
  forall k j, WriteLock.jobs l !! k = Some j ->
    WriteLock.result j = own_result j.
Proof.
  intros Hevs Hrun.
  assert (Hinv : Forall (fun j => WriteLock.result j = own_result j)
                   (WriteLock.jobs l)).
  { revert Hrun.
    assert (H0 : Forall (fun j : WriteLock.Job S V => WriteLock.result j = own_result j)
                   (WriteLock.jobs (WriteLock.init s0))) by constructor.
    revert H0. generalize (WriteLock.init (V:=V) s0).
    induction evs as [|ev evs IH]; intros l0 H0 Hrun; cbn in Hrun.
    - injection Hrun as <-. exact H0.
    - cbn in Hevs. apply andb_true_iff in Hevs as [Hev Hevs].
      destruct (WriteLock.fire ev l0) as [l1|] eqn:Hfire; [|discriminate].
      apply (IH Hevs l1); [|exact Hrun].
      exact (fire_own_result ev l0 l1 Hev Hfire H0). }
  intros k j Hk. exact (proj1 (Forall_lookup _ _) Hinv k j Hk).
Qed.

(** ** The rate limiter *)

Section RateLimiterFacts.
Import RateLimiter.

Implicit Types (m : Requests) (d : RateLimitData) (req : Request).

Lemma rateLimiter_in_window req (now : Z) m d :
  m !! getClientKey req = Some d -> now - windowStart d <= WINDOW_MS ->
  passed (fst (rateLimiter req now m)) = negb (MAX_REQUESTS <? count d + 1) /\
  snd (rateLimiter req now m)
  = <[getClientKey req := mkData (count d + 1) (windowStart d) (authFailures d)
                            (authFailStart d)]> m.
Proof.
  intros Hd Hin. unfold rateLimiter, entry. cbv zeta. rewrite Hd.
  apply Z.ltb_ge in Hin. rewrite Hin. cbn [count windowStart authFailures authFailStart].
  destruct (MAX_REQUESTS <? count d + 1); split; reflexivity.
Qed.

Lemma rateLimiter_new_window req (now : Z) m :
  window_over (getClientKey req) now m ->
  exists d1,
    passed (fst (rateLimiter req now m)) = true /\
    snd (rateLimiter req now m) = <[getClientKey req := d1]> m /\
    count d1 = 1 /\ windowStart d1 = now.
Proof.
  unfold window_over, rateLimiter, entry. cbv zeta.
  destruct (m !! getClientKey req) as [d|].
  - intros Hover. apply Z.ltb_lt in Hover. rewrite Hover.
    cbn [count windowStart authFailures authFailStart].
    eexists. split; [reflexivity|]. split; [reflexivity|]. split; reflexivity.
  - intros _. cbn [count windowStart authFailures authFailStart].
    rewrite Z.sub_diag. cbn.
    eexists. split; [reflexivity|]. split; [reflexivity|]. split; reflexivity.
Qed.

(** Requests inside the window use up what is left of the quota. *)
Lemma hits_in_window req (ts : list Z) m d :
  m !! getClientKey req = Some d ->
  Forall (fun t => t - windowStart d <= WINDOW_MS) ts ->
  let quota := Z.to_nat (MAX_REQUESTS - count d) in
  map passed (fst (hits req ts m))
  = replicate (Nat.min (length ts) quota) true
    ++ replicate (length ts - quota) false.
Proof.
  revert m d. induction ts as [|t ts IH]; intros m d Hd Hin quota; [reflexivity|].
  apply Forall_cons in Hin as [Ht Hin]. cbn [hits].
  destruct (rateLimiter_in_window req t m d Hd Ht) as [Hpass Hnext].
  destruct (rateLimiter req t m) as [r m1]. cbn [fst snd] in *. subst m1.
  set (d' := mkData (count d + 1) (windowStart d) (authFailures d)
                (authFailStart d)) in *.
  specialize (IH (<[getClientKey req := d']> m) d' (lookup_insert_eq _ _ _) Hin).
  cbv zeta in IH. cbn [count windowStart] in IH.
  destruct (hits req ts _) as [rs m2]. cbn [fst map length] in *.
  subst d'. cbn [count] in IH.
  rewrite Hpass, IH. subst quota. unfold MAX_REQUESTS in *.
  destruct (100 <? count d + 1) eqn:E; cbn [negb].
  - apply Z.ltb_lt in E.
    replace (Z.to_nat (100 - count d)) with 0%nat by lia.
    replace (Z.to_nat (100 - (count d + 1))) with 0%nat by lia.
    rewrite !Nat.min_0_r, !Nat.sub_0_r. reflexivity.
  - apply Z.ltb_ge in E.
    replace (Z.to_nat (100 - count d))
      with (S (Z.to_nat (100 - (count d + 1)))) by lia.
    reflexivity.
Qed.

End RateLimiterFacts.

(** X19: at most a hundred requests of a client pass per window.  When
    a request of a client arrives with no entry for it, or with its
    window over, a window opens at that time; of this request and the
    ones of the same client that follow within sixty seconds of the
    opening, the first hundred are passed on and every later one is
    answered 429. *)
Theorem rate_limit_per_window (req : RateLimiter.Request)
    (requests : RateLimiter.Requests) (t1 : Z) (ts : list Z) :
  window_over (RateLimiter.getClientKey req) t1 requests ->
  Forall (fun t => t - t1 <= RateLimiter.WINDOW_MS) ts ->
  map passed (fst (hits req (t1 :: ts) requests))
  = replicate (Nat.min (S (length ts)) 100) true
    ++ replicate (S (length ts) - 100) false.
Proof.
  intros Hover Hin. cbn [hits].
  destruct (rateLimiter_new_window req t1 requests Hover)
    as (d1 & Hpass & Hnext & Hcount & Hstart).
  destruct (RateLimiter.rateLimiter req t1 requests) as [r m1]. cbn [fst snd] in *.
  subst m1.
  pose proof (hits_in_window req ts (<[RateLimiter.getClientKey req := d1]> requests)
                d1 (lookup_insert_eq _ _ _)) as Hrest.
  rewrite Hstart, Hcount in Hrest.
  specialize (Hrest Hin). cbv zeta in Hrest.
  destruct (hits req ts _) as [rs m2]. cbn [fst map] in *.
  rewrite Hpass, Hrest. reflexivity.
Qed.

Section AuthFacts.
Import RateLimiter.

Implicit Types (m : Requests) (d : RateLimitData) (req : Request).

Lemma trackAuthFailure_in_window req (now : Z) m d :
  m !! getClientKey req = Some d -> now - authFailStart d <= AUTH_FAIL_WINDOW_MS ->
  trackAuthFailure req now m
  = <[getClientKey req := mkData (count d) (windowStart d) (authFailures d + 1)
                            (authFailStart d)]> m.
Proof.
  intros Hd Hin. unfold trackAuthFailure, entry. cbv zeta. rewrite Hd.
  apply Z.ltb_ge in Hin. rewrite Hin. reflexivity.
Qed.

Lemma auth_failures_in_window req (ts : list Z) m d :
  m !! getClientKey req = Some d ->
  Forall (fun t => t - authFailStart d <= AUTH_FAIL_WINDOW_MS) ts ->
  auth_failures req ts m !! getClientKey req
  = Some (mkData (count d) (windowStart d)
            (authFailures d + Z.of_nat (length ts)) (authFailStart d)).
Proof.
  revert m d. induction ts as [|t ts IH]; intros m d Hd Hin.
  - cbn. rewrite Hd, Z.add_0_r. destruct d; reflexivity.
  - apply Forall_cons in Hin as [Ht Hin]. cbn [auth_failures].
    rewrite (trackAuthFailure_in_window req t m d Hd Ht).
    set (d' := mkData (count d) (windowStart d) (authFailures d + 1) (authFailStart d)).
    rewrite (IH (<[getClientKey req := d']> m) d' (lookup_insert_eq _ _ _) Hin).
    subst d'. cbn [count windowStart authFailures authFailStart length].
    do 2 f_equal. lia.
Qed.

End AuthFacts.

(** X20: five failed authentications lock a client out until fifteen
    minutes after the failure window opened.  For a client with an
    entry, after failures recorded inside the failure window, a check
    made inside the window blocks the client exactly when the failures of
    the window number five or more, and then the auth limiter answers 429
    and changes nothing; a check made after the window is over lets the
    client through and opens a new window with no failure, whenever the
    last failure was. *)
Theorem auth_lockout (req : RateLimiter.Request) (requests : RateLimiter.Requests)
    (d : RateLimiter.RateLimitData) (ts : list Z) (t : Z) :
  requests !! RateLimiter.getClientKey req = Some d ->
  Forall (fun t' => t' - RateLimiter.authFailStart d
                    <= RateLimiter.AUTH_FAIL_WINDOW_MS) ts ->
  let after := auth_failures req ts requests in
  let failures := RateLimiter.authFailures d + Z.of_nat (length ts) in
  (t - RateLimiter.authFailStart d <= RateLimiter.AUTH_FAIL_WINDOW_MS ->
   RateLimiter.isAuthBlocked req t after
   = (RateLimiter.MAX_AUTH_FAILURES <=? failures, after) /\
   (RateLimiter.MAX_AUTH_FAILURES <= failures ->
    RateLimiter.authRateLimiter req t after
    = (RateLimiter.TooMany None RateLimiter.authLimited, after))) /\
  (RateLimiter.AUTH_FAIL_WINDOW_MS < t - RateLimiter.authFailStart d ->
   fst (RateLimiter.authRateLimiter req t after) = RateLimiter.Next None /\
   exists d',
     snd (RateLimiter.authRateLimiter req t after) !! RateLimiter.getClientKey req
     = Some d' /\
     RateLimiter.authFailures d' = 0 /\ RateLimiter.authFailStart d' = t).
Proof.
  intros Hd Hin after failures.
  pose proof (auth_failures_in_window req ts requests d Hd Hin) as Hafter.
  fold after failures in Hafter.
  unfold RateLimiter.authRateLimiter, RateLimiter.isAuthBlocked.
  rewrite Hafter. cbn [RateLimiter.authFailStart RateLimiter.authFailures].
  split.
  - intros Ht. apply Z.ltb_ge in Ht. rewrite Ht. split; [reflexivity|].
    intros Hmany. apply Z.leb_le in Hmany. rewrite Hmany. reflexivity.
  - intros Ht. apply Z.ltb_lt in Ht. rewrite Ht. cbn [fst snd].
    split; [reflexivity|]. eexists. rewrite lookup_insert_eq.
    split; [reflexivity|]. split; reflexivity.
Qed.

(** X21: clients and counters do not interfere.  A call of the rate
    limiter, of the failure tracker or of the block check changes no
    entry but the caller's; and of the caller's entry the rate limiter
    leaves the failure counter and its window as they are, while the
    failure tracker and the block check leave the request counter and
    its window as they are. *)
Theorem limiter_entries_apart (req : RateLimiter.Request) (now : Z)
    (requests : RateLimiter.Requests) :
  let key := RateLimiter.getClientKey req in
  let limited := snd (RateLimiter.rateLimiter req now requests) in
  let tracked := RateLimiter.trackAuthFailure req now requests in
  let checked := snd (RateLimiter.isAuthBlocked req now requests) in
  (forall k, k <> key ->
     limited !! k = requests !! k /\ tracked !! k = requests !! k /\
     checked !! k = requests !! k) /\
  (forall d, requests !! key = Some d ->
     exists d1 d2 d3,
       limited !! key = Some d1 /\ tracked !! key = Some d2 /\
       checked !! key = Some d3 /\
       RateLimiter.authFailures d1 = RateLimiter.authFailures d /\
       RateLimiter.authFailStart d1 = RateLimiter.authFailStart d /\
       RateLimiter.count d2 = RateLimiter.count d /\
       RateLimiter.windowStart d2 = RateLimiter.windowStart d /\
       RateLimiter.count d3 = RateLimiter.count d /\
       RateLimiter.windowStart d3 = RateLimiter.windowStart d).
Proof.
  intros key limited tracked checked. split.
  - intros k Hk. subst limited tracked checked.
    unfold RateLimiter.rateLimiter, RateLimiter.trackAuthFailure,
      RateLimiter.isAuthBlocked. cbv zeta. fold key.
    split; [|split].
    + destruct (_ <? RateLimiter.count _); cbn [snd];
        apply lookup_insert_ne; congruence.
    + apply lookup_insert_ne. congruence.
    + destruct (requests !! key) as [d|]; [|reflexivity].
      destruct (_ <? _); cbn [snd]; [apply lookup_insert_ne; congruence|reflexivity].
  - intros d Hd. subst limited tracked checked.
    unfold RateLimiter.rateLimiter, RateLimiter.trackAuthFailure,
      RateLimiter.isAuthBlocked, RateLimiter.entry. cbv zeta. fold key.
    rewrite Hd.
    destruct (RateLimiter.WINDOW_MS <? now - RateLimiter.windowStart d);
      destruct (RateLimiter.AUTH_FAIL_WINDOW_MS <? now - RateLimiter.authFailStart d);
      cbn [RateLimiter.count RateLimiter.windowStart RateLimiter.authFailures
           RateLimiter.authFailStart];
      destruct (RateLimiter.MAX_REQUESTS <? _); cbn [snd];
      rewrite ?lookup_insert_eq, ?Hd;
      eexists _, _, _; repeat split; reflexivity.
Qed.

(** X22: the periodic clean-up is invisible to the rate limit.  The
    clean-up deletes exactly the entries whose window opened more than
    fifteen minutes before and leaves the others as they are, and for
    every client the rate limiter answers a later request, headers
    included, exactly as it would have answered it without the
    clean-up. *)
Theorem cleanup_unseen_by_rateLimiter (req : RateLimiter.Request) (t now : Z)
    (requests : RateLimiter.Requests) :
  t <= now ->
  (forall k d,
     RateLimiter.cleanup t requests !! k = Some d <->
     requests !! k = Some d /\ t - RateLimiter.windowStart d <= 900000) /\
  fst (RateLimiter.rateLimiter req now (RateLimiter.cleanup t requests))
  = fst (RateLimiter.rateLimiter req now requests).
Proof.
  intros Hlater. split.
  { intros k d. unfold RateLimiter.cleanup. rewrite map_lookup_filter_Some.
    cbn [snd]. unfold RateLimiter.WINDOW_MS, RateLimiter.AUTH_FAIL_WINDOW_MS.
    split; intros [Hd Hkeep]; (split; [exact Hd|lia]). }
  unfold RateLimiter.rateLimiter, RateLimiter.entry. cbv zeta.
  set (key := RateLimiter.getClientKey req).
  destruct (RateLimiter.cleanup t requests !! key) as [d|] eqn:Hc.
  - apply map_lookup_filter_Some in Hc as [Hd _]. rewrite Hd.
    destruct (_ <? RateLimiter.count _); reflexivity.
  - apply map_lookup_filter_None in Hc as [Hnone|Hold].
    + rewrite Hnone. destruct (_ <? RateLimiter.count _); reflexivity.
    + destruct (requests !! key) as [d|] eqn:Hd;
        [|destruct (_ <? RateLimiter.count _); reflexivity].
      specialize (Hold d eq_refl). cbn [snd] in Hold.
      apply dec_stable in Hold.
      unfold RateLimiter.WINDOW_MS, RateLimiter.AUTH_FAIL_WINDOW_MS in *.
      assert (Hover : (60 * 1000 <? now - RateLimiter.windowStart d) = true)
        by (apply Z.ltb_lt; lia).
      rewrite Hover. rewrite Z.sub_diag. cbn.
      reflexivity.
Qed.

(** X24: the headers of the rate limiter add up.  For a request of a
    client whose window is open and did not open in the future, the
    limiter reports the limit 100 and, as remaining, what is left of it
    after this request, never less than 0; the request is answered 429
    exactly when it is beyond the hundredth of the window, and then
    nothing remains and Retry-After lies between 0 and 60 seconds. *)
Theorem rate_limit_headers (req : RateLimiter.Request) (now : Z)
    (requests : RateLimiter.Requests) (d : RateLimiter.RateLimitData) :
  requests !! RateLimiter.getClientKey req = Some d ->
  0 <= now - RateLimiter.windowStart d <= RateLimiter.WINDOW_MS ->
  let n := RateLimiter.count d + 1 in
  exists h,
    RateLimiter.limit h = 100 /\
    RateLimiter.remaining h = Z.max 0 (100 - n) /\
    ((n <= 100 /\
      fst (RateLimiter.rateLimiter req now requests) = RateLimiter.Next (Some h) /\
      RateLimiter.retryAfter h = None)
     \/
     (100 < n /\
      fst (RateLimiter.rateLimiter req now requests)
      = RateLimiter.TooMany (Some h) RateLimiter.rateLimited /\
      RateLimiter.remaining h = 0 /\
      exists s, RateLimiter.retryAfter h = Some s /\ 0 <= s <= 60)).
Proof.
  intros Hd [Hpast Hin] n.
  unfold RateLimiter.rateLimiter, RateLimiter.entry. cbv zeta. rewrite Hd.
  assert (Hopen : (RateLimiter.WINDOW_MS <? now - RateLimiter.windowStart d) = false)
    by (apply Z.ltb_ge; exact Hin).
  rewrite Hopen.
  cbn [RateLimiter.count RateLimiter.windowStart RateLimiter.authFailures
       RateLimiter.authFailStart].
  fold n. unfold RateLimiter.MAX_REQUESTS, RateLimiter.WINDOW_MS in *.
  set (ws := RateLimiter.windowStart d) in *.
  destruct (100 <? n) eqn:E; cbn [fst].
  - apply Z.ltb_lt in E.
    exists (RateLimiter.mkHeaders 100 (Z.max 0 (100 - n))
              (RateLimiter.ceil_div (ws + 60 * 1000) 1000)
              (Some (RateLimiter.ceil_div (ws + 60 * 1000 - now) 1000))).
    split; [reflexivity|]. split; [reflexivity|].
    right. split; [exact E|]. split; [reflexivity|].
    cbn [RateLimiter.remaining RateLimiter.retryAfter].
    split; [lia|]. eexists. split; [reflexivity|].
    unfold RateLimiter.ceil_div.
    assert (H1 : - 60 <= - (ws + 60 * 1000 - now) / 1000)
      by (apply Z.div_le_lower_bound; lia).
    assert (H2 : - (ws + 60 * 1000 - now) / 1000 <= 0)
      by (apply Z.div_le_upper_bound; lia).
    lia.
  - apply Z.ltb_ge in E.
    exists (RateLimiter.mkHeaders 100 (Z.max 0 (100 - n))
              (RateLimiter.ceil_div (ws + 60 * 1000) 1000) None).
    split; [reflexivity|]. split; [reflexivity|].
    left. split; [exact E|]. split; reflexivity.
Qed.

(** ** The allocated ticket, read back *)



(** ** From a new ticket to an approved order *)

Lemma no_available_tickets (rows : Sheet) :
  (forall i, ~ available_at rows i) -> available_tickets rows = [].
Proof.
  intros Hnone. unfold available_tickets.
  destruct (List.filter available_row (drop 1 rows)) as [|r l] eqn:E; [reflexivity|].
  exfalso.
  assert (Hin : List.In r (List.filter available_row (drop 1 rows)))
    by (rewrite E; left; reflexivity).
  apply List.filter_In in Hin as [Hin Hav].
  apply list_elem_of_In, list_elem_of_lookup in Hin as [j Hj].
  rewrite lookup_drop in Hj. apply (Hnone (1 + j)%nat).
  apply available_at_iff. exists r. split; [exact Hj|].
  unfold TicketsService.is_available. unfold available_row in Hav.
  apply andb_true_iff in Hav as [H0 H1]. rewrite H0, H1. reflexivity.
Qed.

Lemma first_available_snoc (rows : Sheet) (tk : jsstring) :
  rows <> [] -> tk <> [] -> (forall i, ~ available_at rows i) ->
  first_available (rows ++ [[tk; []]]) (length rows).
Proof.
  intros Hheader Htk Hnone. split.
  - split; [destruct rows; [congruence|cbn; lia]|].
    exists [tk; []]. split; [|split; [exact Htk|reflexivity]].
    rewrite lookup_app_r by lia. rewrite Nat.sub_diag. reflexivity.
  - intros j Hj (Hpos & row & Hrow & Hav). apply (Hnone j).
    split; [exact Hpos|]. exists row. split; [|exact Hav].
    rewrite lookup_app_l in Hrow by exact Hj. exact Hrow.
Qed.

(** X25: a ticket provided to an empty pool is the one the next order
    gets.  When no ticket was available, createTicket has returned for a
    non-empty ticket on a sheet with its header row, and the store
    answers, a createOrder whose OAB number is on no order is approved
    with exactly that ticket, and no ticket is available afterwards. *)
Theorem createTicket_then_createOrder
    (tk : jsstring) (data : OrdersService.CreateOrderData) (w : World) (t : Ticket) :
  fst (TicketsService.createTicket tk w) = Returns t ->
  let w1 := snd (TicketsService.createTicket tk w) in
  tickets_sheet w <> [] -> tk <> [] ->
  (forall i, ~ available_at (tickets_sheet w) i) ->
  no_duplicate (OrdersService.normalizeOab data)
    (OrdersService.decodeOrders (pedidos_sheet w1)) ->
  responsive 4 w1 ->
  exists o w2,
    OrdersService.createOrder data w1
    = (Returns (OrdersService.mkResult o None), w2) /\
    Orders.ticket o = tk /\
    Orders.status o = OrdersService.APROVADO /\
    available_tickets (tickets_sheet w2) = [].
Proof.
  intros Hret0 w1 Hheader Htk Hnone Hnodup [Hacc Htime].
  assert (Hret : TicketsService.createTicket_task tk w = (Returns t, w1))
    by exact (withWriteLock_returns _ _ _ Hret0).
  clearbody w1. clear Hret0.
  assert (Hsheet : tickets_sheet w1 = tickets_sheet w ++ [[tk; []]]).
  { rewrite createTicket_task_run in Hret. cbv zeta in Hret.
    repeat case_match; try discriminate. injection Hret as _ <-. reflexivity. }
  assert (H0 : fails (reply_at w1 0) = false) by (apply Hacc; lia).
  assert (H1 : fails (reply_at w1 1) = false) by (apply Hacc; lia).
  assert (H2 : fails (reply_at w1 2) = false) by (apply Hacc; lia).
  assert (H3 : fails (reply_at w1 3) = false) by (apply Hacc; lia).
  set (i := length (tickets_sheet w)).
  pose proof (first_available_snoc _ tk Hheader Htk Hnone) as Hfirst.
  rewrite <- Hsheet in Hfirst. fold i in Hfirst.
  assert (Hrow : tickets_sheet w1 !! i = Some [tk; []]).
  { rewrite Hsheet. unfold i. rewrite lookup_app_r by lia.
    rewrite Nat.sub_diag. reflexivity. }
  apply findIndex_first_available in Hfirst as Ei.
  apply findExisting_None in Hnodup as He.
  set (w1' := orders_fetched (OrdersService.cleared w1)).
  assert (Ha : TicketsService.assignAvailableTicket w1'
               = (Returns (text (row_at (tickets_sheet w1') i) 0), marked i w1')).
  { apply assign_marks; [subst w1'; rewrite reply_at_w1; assumption..|exact Ei]. }
  change (tickets_sheet w1') with (tickets_sheet w1) in Ha.
  pose proof (createOrder_task_ticket data w1 _ _ H0 He Ha) as Hrun.
  cbv zeta in Hrun. fold w1' in Hrun.
  rewrite reply_at_marked in Hrun. subst w1'. rewrite reply_at_w1 in Hrun.
  rewrite H3 in Hrun. set (w1' := orders_fetched (OrdersService.cleared w1)) in *.
  rewrite (row_at_lookup _ _ _ Hrow) in Hrun.
  eexists _, _. split.
  { apply (withWriteLock_timely _ _ _ _ Hrun). subst w1'. timing. }
  split; [reflexivity|]. split; [reflexivity|].
  change (available_tickets
            (update_range i 1 [TicketsService.ATRIBUIDO] (tickets_sheet w1)) = []).
  pose proof (available_tickets_consume _ i _ Hfirst Hrow) as Hpool.
  rewrite Hsheet in Hpool at 1.
  rewrite available_tickets_snoc, (no_available_tickets _ Hnone) in Hpool
    by assumption.
  cbn in Hpool. congruence.
Qed.

(** ** The theorems at work on the sample worlds *)

Lemma sample_world_responsive (n : nat) : responsive n (sample_world prompt).
Proof.
  split; [intros i _; reflexivity|].
  intros k _. induction k as [|k IH]; [reflexivity|]. cbn [elapsed].
  change (took (reply_at (sample_world prompt) k)) with 0. lia.
Defined.


Lemma assignAvailableTicket_scan_then_mark_witness :
  exists r w',
    TicketsService.assignAvailableTicket (sample_world prompt) = (r, w') /\
    r = Returns (lit "11111111111").
Proof.
  destruct (assignAvailableTicket_scan_then_mark (sample_world prompt))
    as (r & w' & Hrun & _ & Hcases).
  { intros i _. reflexivity. }
  exists r, w'. split; [exact Hrun|].
  transitivity (fst (TicketsService.assignAvailableTicket (sample_world prompt)));
    [rewrite Hrun|]; reflexivity.
Defined.


Lemma createOrder_without_tickets_witness :
  exists w', OrdersService.createOrder order_X (exhausted_world prompt)
             = (Throws NoTicketsError, w') /\
    pedidos_sheet w' = sample_orders.
Proof.
  destruct (createOrder_without_tickets order_X (exhausted_world prompt))
    as (w' & Hrun & Hsame & _).
  - reflexivity.
  - intros k Hk. do 3 (destruct k as [|k]; [reflexivity|]). lia.
  - left. reflexivity.
  - intros i (Hi & row & Hrow & _ & Hstatus).
    destruct i as [|[|i]]; [lia| |discriminate].
    injection Hrow as <-. discriminate.
  - exists w'. split; [exact Hrun|exact Hsame].
Defined.

Lemma updateOrder_partial_merge_witness :
  exists r w',
    OrdersService.updateOrder (lit "a1") (only_status (lit "Recusado"))
      (sample_world prompt) = (r, w') /\
    r = Returns (Orders.mk (lit "a1") (lit "68637750800") (lit " 123 ") (lit "A") []
                   (lit "2026-02-12 09:00:00") (lit "2026-02-12 09:00:00")
                   (lit "Recusado") []).
Proof.
  destruct (updateOrder_partial_merge (lit "a1") (only_status (lit "Recusado"))
              (sample_world prompt) (sample_world_responsive 2))
    as (r & w' & Hrun & _).
  exists r, w'. split; [exact Hrun|].
  transitivity (fst (OrdersService.updateOrder (lit "a1")
                       (only_status (lit "Recusado")) (sample_world prompt)));
    [rewrite Hrun|]; reflexivity.
Defined.

Lemma updateTicket_keeps_status_witness :
  let rows' :=
    tickets_sheet (snd (TicketsService.updateTicket (lit "68637750800")
                          (lit "99999999999") (sample_world prompt))) in
  exists i row row',
    sample_tickets !! i = Some row /\ rows' !! i = Some row' /\
    text row' 1 = text row 1.
Proof.
  destruct (updateTicket_keeps_status (lit "68637750800") (lit "99999999999")
              (sample_world prompt)
              (Tickets.mk (lit "99999999999") TicketsService.ATRIBUIDO))
    as (i & row & row' & _ & Hrow & Hrow' & _ & _ & Hstatus & _).
  - reflexivity.
  - exists i, row, row'. auto.
Defined.



Lemma write_lock_serializes_witness :
  exists l,
    WriteLock.run sample_run (WriteLock.init 3%nat) = Some l /\
    WriteLock.store l = 8%nat /\
    map WriteLock.result (WriteLock.jobs l)
    = [WriteLock.Rejected failure_of_task; WriteLock.Resolved 8%nat] /\
    WriteLock.finish_off l
    = WriteLock.run_seq (map WriteLock.fn (WriteLock.jobs l)) 3%nat.
Proof.
  eexists. split; [reflexivity|]. split; [reflexivity|]. split; [reflexivity|].
  apply (write_lock_serializes 3%nat sample_run). reflexivity.
Defined.

(** ** More of the theorems at work *)

Lemma prompt_responsive (n : nat) (w : World) :
  reply_of w = prompt -> responsive n w.
Proof.
  intros H. split.
  - intros i _. unfold reply_at. rewrite H. reflexivity.
  - intros k _. induction k as [|k IH]; [reflexivity|]. cbn [elapsed].
    unfold reply_at at 1. rewrite H. cbn. lia.
Defined.

Lemma write_failures_witness :
  NotFoundError (lit "Order") ∈ failures (DeleteOrder (lit "zz")).
Proof.
  apply (write_failures (DeleteOrder (lit "zz")) (sample_world prompt)).
  reflexivity.
Defined.

Lemma resources_apart_witness :
  orders_alone (sample_world prompt)
    (snd (perform (CreateTicket (lit "33333333333")) (sample_world prompt))).
Proof.
  apply (resources_apart (CreateTicket (lit "33333333333")) (sample_world prompt)).
  intros d. discriminate.
Defined.

Lemma deleteOrder_first_row_witness :
  exists w', OrdersService.deleteOrder (lit "a1") (sample_world prompt)
             = (Returns tt, w') /\
    pedidos_sheet w' = take 1%nat sample_orders.
Proof.
  destruct (deleteOrder_first_row (lit "a1") (sample_world prompt)
              (sample_world_responsive 3))
    as (r & w' & Hrun & _).
  { intros _. eexists. reflexivity. }
  exists w'. split.
  - rewrite Hrun. f_equal.
    transitivity (fst (OrdersService.deleteOrder (lit "a1") (sample_world prompt)));
      [rewrite Hrun|]; reflexivity.
  - transitivity (pedidos_sheet
                    (snd (OrdersService.deleteOrder (lit "a1") (sample_world prompt))));
      [rewrite Hrun|]; reflexivity.
Defined.

Lemma deleteTicket_first_row_witness :
  exists w', TicketsService.deleteTicket (lit "11111111111") (sample_world prompt)
             = (Returns tt, w') /\
    tickets_sheet w' = delete 3%nat sample_tickets.
Proof.
  destruct (deleteTicket_first_row (lit "11111111111") (sample_world prompt)
              (sample_world_responsive 3))
    as (r & w' & Hrun & _).
  { intros _. eexists. reflexivity. }
  exists w'. split.
  - rewrite Hrun. f_equal.
    transitivity (fst (TicketsService.deleteTicket (lit "11111111111")
                         (sample_world prompt)));
      [rewrite Hrun|]; reflexivity.
  - transitivity (tickets_sheet
                    (snd (TicketsService.deleteTicket (lit "11111111111")
                            (sample_world prompt))));
      [rewrite Hrun|]; reflexivity.
Defined.

Lemma sheet_id_fetched_once_witness :
  let w' := perform_all [DeleteOrder (lit "a1"); CreateTicket (lit "33333333333")]
              (snd (OrdersService.getSheetId (sample_world prompt))) in
  OrdersService.getSheetId w' = (Returns 7, w').
Proof.
  apply (proj1 (sheet_id_fetched_once
                  [DeleteOrder (lit "a1"); CreateTicket (lit "33333333333")]
                  (sample_world prompt))).
  reflexivity.
Defined.


Lemma createOrder_then_getOrderById_witness :
  let w' := snd (OrdersService.createOrder order_X (sample_world prompt)) in
  fst (OrdersService.getOrderById (lit "uuid-0") w')
  = Returns (Some (Orders.mk (lit "uuid-0") (lit "11111111111") [] (lit "X") []
                     (lit "2026-02-13 10:00:00") (lit "2026-02-13 10:00:00")
                     (lit "Aprovado") [])).
Proof.
  apply (createOrder_then_getOrderById order_X (sample_world prompt)
           (OrdersService.mkResult
              (Orders.mk (lit "uuid-0") (lit "11111111111") [] (lit "X") []
                 (lit "2026-02-13 10:00:00") (lit "2026-02-13 10:00:00")
                 (lit "Aprovado") []) None)).
  - reflexivity.
  - discriminate.
  - intros x Hx. apply list_elem_of_singleton in Hx as ->. discriminate.
  - reflexivity.
Defined.

Lemma createTicket_then_getTicket_witness :
  let w' := snd (TicketsService.createTicket (lit "33333333333")
                   (sample_world prompt)) in
  fst (TicketsService.getTicket (lit "33333333333") w')
  = Returns (Some (Tickets.mk (lit "33333333333") [])) /\
  fst (TicketsService.createTicket (lit "33333333333") w')
  = Throws (ConflictError (lit "Ticket already exists")).
Proof.
  destruct (createTicket_then_getTicket (lit "33333333333") (sample_world prompt)
              (Tickets.mk (lit "33333333333") []))
    as (_ & _ & _ & _ & Hget & Hagain & _).
  - reflexivity.
  - discriminate.
  - discriminate.
  - reflexivity.
  - reflexivity.
  - split; [exact Hget|exact Hagain].
Defined.

Lemma updateOrder_then_getOrderById_witness :
  let w' := snd (OrdersService.updateOrder (lit "a1") (only_status (lit "Recusado"))
                   (sample_world prompt)) in
  fst (OrdersService.getOrderById (lit "a1") w')
  = Returns (Some (Orders.mk (lit "a1") (lit "68637750800") (lit " 123 ") (lit "A") []
                     (lit "2026-02-12 09:00:00") (lit "2026-02-12 09:00:00")
                     (lit "Recusado") [])).
Proof.
  apply (updateOrder_then_getOrderById (lit "a1") (only_status (lit "Recusado"))
           (sample_world prompt)).
  - reflexivity.
  - discriminate.
  - reflexivity.
Defined.

Lemma deleteOrder_then_getOrderById_witness :
  let w' := snd (OrdersService.deleteOrder (lit "a1") (sample_world prompt)) in
  fst (OrdersService.getOrderById (lit "a1") w') = Returns None.
Proof.
  apply (deleteOrder_then_getOrderById (lit "a1") (sample_world prompt)).
  - reflexivity.
  - discriminate.
  - intros i j (Hi & ri & Hri & _) (Hj & rj & Hrj & _).
    destruct i as [|[|i]]; [lia| |discriminate].
    destruct j as [|[|j]]; [lia| |discriminate]. reflexivity.
  - reflexivity.
Defined.

Lemma getAllOrders_page_witness :
  exists page n,
    fst (OrdersService.getAllOrders ascii_lower approved_first_ten (sample_world prompt))
    = Returns (OrdersService.mkPage page n) /\
    length page = Nat.min 10 (n - 0)%nat.
Proof.
  destruct (getAllOrders_page ascii_lower approved_first_ten (sample_world prompt)
              [order_A])
    as (matching & page & _ & _ & Hrun & _ & Hlen).
  - reflexivity.
  - cbn. lia.
  - cbn. lia.
  - exists page, (length matching). split; [rewrite Hrun; reflexivity|exact Hlen].
Defined.

Lemma getAllOrders_pages_tile_witness :
  fst (OrdersService.getAllOrders ascii_lower (window no_filters (1 + 1) 0)
         (sample_world prompt))
  = Returns (OrdersService.mkPage ([order_A] ++ []) 1%nat) /\
  1%nat = 1%nat.
Proof.
  apply (getAllOrders_pages_tile ascii_lower no_filters 0 1 1 (sample_world prompt)
           (OrdersService.mkPage [order_A] 1%nat) (OrdersService.mkPage [] 1%nat));
    solve [lia | reflexivity].
Defined.

Lemma ticket_values_stay_unique_witness :
  NoDup (ticket_values
           (tickets_sheet (snd (perform (CreateTicket (lit "33333333333"))
                                  (sample_world prompt))))).
Proof.
  apply (ticket_values_stay_unique (CreateTicket (lit "33333333333"))
           (sample_world prompt)).
  - apply (bool_decide_unpack (NoDup _)). vm_compute. exact I.
  - intros a b H. discriminate.
Defined.

Lemma second_order_for_oab_refused_witness :
  let w1 := snd (OrdersService.createOrder order_C (sample_world prompt)) in
  exists o2 w2,
    OrdersService.createOrder order_C_again w1
    = (Returns (OrdersService.mkResult o2
                  (Some (OrdersService.mkConflict (lit "11111111111")
                           (lit "2026-02-13 10:00:00")))), w2) /\
    Orders.ticket o2 = [] /\ Orders.status o2 = OrdersService.RECUSADO.
Proof.
  destruct (second_order_for_oab_refused order_C order_C_again (sample_world prompt)
              (OrdersService.mkResult
                 (Orders.mk (lit "uuid-0") (lit "11111111111") (lit "777") (lit "C") []
                    (lit "2026-02-13 10:00:00") (lit "2026-02-13 10:00:00")
                    (lit "Aprovado") []) None))
    as (o2 & w2 & Hrun & Hticket & Hstatus & _).
  - reflexivity.
  - reflexivity.
  - discriminate.
  - reflexivity.
  - discriminate.
  - apply prompt_responsive. reflexivity.
  - exists o2, w2. split; [exact Hrun|]. split; assumption.
Defined.

Lemma promise_settles_once_witness :
  exists l' j',
    WriteLock.run [WriteLock.Complete 0] timed_out_lock = Some l' /\
    WriteLock.jobs l' !! 0%nat = Some j' /\
    WriteLock.result j' = WriteLock.Rejected timeout_error.
Proof.
  eexists.
  destruct (promise_settles_once [WriteLock.Complete 0] timed_out_lock _ 0 _
              eq_refl eq_refl)
    as (j' & Hk & _ & Hres & _).
  exists j'. split; [reflexivity|]. split; [exact Hk|]. apply Hres. discriminate.
Defined.

Lemma lock_without_timer_witness :
  exists l,
    WriteLock.run sample_run (WriteLock.init 3%nat) = Some l /\
    forall k j, WriteLock.jobs l !! k = Some j -> WriteLock.result j = own_result j.
Proof.
  eexists. split; [reflexivity|].
  apply (lock_without_timer 3%nat sample_run); reflexivity.
Defined.

Lemma rate_limit_per_window_witness :
  map passed (fst (hits a_client (0 :: replicate 100 1000) ∅))
  = replicate 100 true ++ [false].
Proof.
  apply (rate_limit_per_window a_client ∅ 0 (replicate 100 1000)).
  - exact I.
  - apply Forall_replicate. vm_compute. discriminate.
Defined.

Lemma auth_lockout_witness :
  let after := auth_failures a_client [1; 2; 3; 4; 5]
                 (snd (RateLimiter.rateLimiter a_client 0 ∅)) in
  RateLimiter.isAuthBlocked a_client 900000 after = (true, after) /\
  fst (RateLimiter.authRateLimiter a_client 900001 after) = RateLimiter.Next None.
Proof.
  destruct (auth_lockout a_client (snd (RateLimiter.rateLimiter a_client 0 ∅))
              (RateLimiter.mkData 1 0 0 0) [1; 2; 3; 4; 5] 900000) as [Hin _].
  { reflexivity. }
  { repeat constructor; vm_compute; discriminate. }
  destruct (auth_lockout a_client (snd (RateLimiter.rateLimiter a_client 0 ∅))
              (RateLimiter.mkData 1 0 0 0) [1; 2; 3; 4; 5] 900001) as [_ Hout].
  { reflexivity. }
  { repeat constructor; vm_compute; discriminate. }
  split.
  - apply Hin. vm_compute. discriminate.
  - apply Hout. reflexivity.
Defined.

Lemma cleanup_unseen_by_rateLimiter_witness :
  let requests := snd (RateLimiter.rateLimiter a_client 0 ∅) in
  fst (RateLimiter.rateLimiter a_client 1000000
         (RateLimiter.cleanup 950000 requests))
  = fst (RateLimiter.rateLimiter a_client 1000000 requests).
Proof.
  apply (cleanup_unseen_by_rateLimiter a_client 950000 1000000).
  vm_compute. discriminate.
Defined.

Lemma rate_limit_headers_witness :
  exists h,
    fst (RateLimiter.rateLimiter a_client 2000
           (snd (RateLimiter.rateLimiter a_client 0 ∅)))
    = RateLimiter.Next (Some h) /\
    RateLimiter.remaining h = 98.
Proof.
  destruct (rate_limit_headers a_client 2000
              (snd (RateLimiter.rateLimiter a_client 0 ∅))
              (RateLimiter.mkData 1 0 0 0))
    as (h & _ & Hrem & [(_ & Hrun & _) | (Hmany & _)]).
  - reflexivity.
  - vm_compute. split; discriminate.
  - exists h. split; [exact Hrun|exact Hrem].
  - exfalso. revert Hmany. vm_compute. discriminate.
Defined.


Lemma createTicket_then_createOrder_witness :
  let w1 := snd (TicketsService.createTicket (lit "33333333333")
                   (exhausted_world prompt)) in
  exists o w2,
    OrdersService.createOrder order_X w1
    = (Returns (OrdersService.mkResult o None), w2) /\
    Orders.ticket o = lit "33333333333".
Proof.
  destruct (createTicket_then_createOrder (lit "33333333333") order_X
              (exhausted_world prompt) (Tickets.mk (lit "33333333333") []))
    as (o & w2 & Hrun & Hticket & _).
  - reflexivity.
  - discriminate.
  - discriminate.
  - intros i (Hi & row & Hrow & _ & Hstatus).
    destruct i as [|[|i]]; [lia| |discriminate].
    injection Hrow as <-. discriminate.
  - left. reflexivity.
  - apply prompt_responsive. reflexivity.
  - exists o, w2. split; [exact Hrun|exact Hticket].
Defined.
